(** * ZKP2P tracker bot: rate cache, sniper alerts, transaction
      reconciliation and the resilient WebSocket provider of [src/bot.js]

    The development embeds the parts of [bot.js] that decide the behaviour
    of the event pipeline:

    - JavaScript numbers are IEEE 754 binary64 values, modelled by Rocq's
      primitive floats (same format, same round-to-nearest-even
      operations); [Date.now()] values and counters are integers.
    - JavaScript [Map] and [Set] iterate in insertion order: they are
      association lists and duplicate-free lists where the order is
      observable, and stdpp's [gmap] / [gset] where only lookups are.
    - An [async] function is a computation over the process-wide state that
      appends to a trace of observable effects and either returns or
      rejects; a rejected [await] propagates like an exception.  A handler
      runs to its end before the next one starts: what other handlers
      could do while one is suspended at an [await] is not modelled.
    - The WebSocket provider is a state record stepped by the events the
      runtime delivers to it (timers, transport events, handshake
      results). *)

From Stdlib Require Import Floats ZArith QArith Qminmax Lia Ascii String.
From stdpp Require Import gmap strings list.

Set Warnings "-inexact-float".
Local Open Scope Z_scope.

(** ** JavaScript values *)

Module JS.

  (** [ToBoolean] on a number: every number but [0], [-0] and [NaN]. *)
Definition truthy (x : float) : bool :=
    negb (PrimFloat.eqb x 0%float || PrimFloat.is_nan x).

  (** [ToBoolean] on a value that is a number, [null] or [undefined]. *)
Definition truthy_opt (x : option float) : bool :=
    match x with
    | Some v => truthy v
    | None => false
    end.

  (** [x || d] for such a value. *)
Definition or_default (x : option float) (d : float) : float :=
    match x with
    | Some v => if truthy v then v else d
    | None => d
    end.

  (** [Number(n)] for a BigInt [n]: the nearest binary64 value, ties to
      even. *)
Definition Number (n : Z) : float :=
    SF2Prim (binary_normalize 53 1024 n 0 false).

  (** [a >= b] and [a < b] on numbers; both are false on [NaN]. *)
Definition ge (a b : float) : bool := PrimFloat.leb b a.
Definition lt (a b : float) : bool := PrimFloat.ltb a b.

  (** [Math.min] on two numbers ([NaN] if either is). *)
Definition Math_min (a b : float) : float :=
    if PrimFloat.is_nan a then a
    else if PrimFloat.is_nan b then b
    else if PrimFloat.ltb b a then b
    else a.

  (** [Math.pow(b, n)] for a non-negative integer [n], as the product of
      [n] factors.  ECMAScript leaves the precision of [Math.pow] to the
      implementation; the product is exact whenever the power is
      representable. *)
Fixpoint Math_pow (b : float) (n : nat) : float :=
    match n with
    | O => 1%float
    | S k => (Math_pow b k * b)%float
    end.

  (** The rational value of a finite number. *)
Definition to_Q (x : float) : option Q :=
    match Prim2SF x with
    | S754_zero _ => Some 0%Q
    | S754_finite s m e =>
        let v := (inject_Z (Z.pos m) * Qpower 2 e)%Q in
        Some (if s then Qopp v else v)
    | _ => None
    end.

Definition lower_ascii (c : ascii) : ascii :=
    let n := nat_of_ascii c in
    if ((65 <=? n)%nat && (n <=? 90)%nat)%bool then ascii_of_nat (n + 32) else c.

  (** [s.toLowerCase()] on the ASCII strings the bot handles (hex hashes,
      addresses, platform names). *)
Fixpoint toLowerCase (s : string) : string :=
    match s with
    | EmptyString => EmptyString
    | String c r => String (lower_ascii c) (toLowerCase r)
    end.

  (** A [Set] in insertion order. *)
Section OrderedSet.
Context {K : Type} `{EqDecision K}.

Definition set_has (k : K) (s : list K) : bool := bool_decide (k ∈ s).

Definition set_add (k : K) (s : list K) : list K :=
      if set_has k s then s else s ++ [k].
End OrderedSet.

  (** A [Map] in insertion order: [set] on a present key overwrites the
      value in place. *)
Section OrderedMap.
Context {K V : Type} `{EqDecision K}.

Fixpoint map_get (k : K) (m : list (K * V)) : option V :=
      match m with
      | [] => None
      | (k', v) :: r => if decide (k = k') then Some v else map_get k r
      end.

Fixpoint map_set (k : K) (v : V) (m : list (K * V)) : list (K * V) :=
      match m with
      | [] => [(k, v)]
      | (k', v') :: r =>
          if decide (k = k') then (k, v) :: r else (k', v') :: map_set k v r
      end.

Definition map_keys (m : list (K * V)) : list K := fst <$> m.
End OrderedMap.

Definition upper_ascii (c : ascii) : ascii :=
  let n := nat_of_ascii c in
  if ((97 <=? n)%nat && (n <=? 122)%nat)%bool then ascii_of_nat (n - 32) else c.

Fixpoint toUpperCase (s : string) : string :=
  match s with
  | EmptyString => EmptyString
  | String c r => String (upper_ascii c) (toUpperCase r)
  end.

(** [s.slice(0, n)] and [s.slice(-n)] for [n >= 0]. *)
Definition slice_to (n : nat) (s : string) : string := String.substring 0 n s.
Definition slice_last (n : nat) (s : string) : string :=
  String.substring (String.length s - n) n s.

(** [ToBoolean] on a string: every string but the empty one. *)
Definition truthy_string (s : string) : bool :=
  match s with
  | EmptyString => false
  | _ => true
  end.

End JS.

(** ** Rate cache ([getExchangeRates], [getARSRate]) *)

Module RateCache.

Definition RATES_CACHE_DURATION : Z := 60000.
Definition ARS_CACHE_DURATION : Z := 60000.

  (** Outbound HTTP requests. *)
Inductive Request : Type :=
  | GET_exchange_api
  | GET_criptoya.

  (** What [fetch(EXCHANGE_API_URL)] followed by [response.json()] gives:
      a rejection, or a body with its [result] field compared to
      ['success'] and its [conversion_rates] table, if any. *)
Inductive ExchangeResponse : Type :=
  | ExchangeRejects
  | ExchangeJson (result_success : bool) (conversion_rates : option (gmap string float)).

  (** What the CriptoYa request gives: a rejection, or a body with
      [cripto.usdc.ask] and [cripto.usdc.bid] ([None] where the path is
      missing). *)
Inductive ArsResponse : Type :=
  | ArsRejects
  | ArsJson (ask bid : option float).

Record Cache : Type := mkCache {
    exchangeRatesCache : option (gmap string float);
    lastRatesFetch : Z;
    arsRateCache : option float;
    lastARSFetch : Z
  }.

Definition initial : Cache := mkCache None 0 None 0.

(** A call of [getExchangeRates] or [getARSRate] runs in two steps.  Up
    to its [await] it reads the clock and tests the slot: a fresh slot is
    returned at once, otherwise the request is sent and the call is
    suspended, holding its [now].  When the body of the answer is there
    (or the request is rejected) the call runs on to its [return], on the
    cache as it is by then.  The handlers are started without being
    awaited, so other calls can run between the two steps. *)

  (** The test of [getExchangeRates] before its [await]. *)
Definition rates_fresh (now : Z) (c : Cache) : bool :=
    bool_decide (is_Some (exchangeRatesCache c))
    && bool_decide (now - lastRatesFetch c < RATES_CACHE_DURATION).

  (** [getExchangeRates] from the answer on: the returned value ([None]
      is [null] or [undefined]) and the cache after it.  The slot and its
      timestamp are overwritten only when [data.result === 'success'],
      the timestamp with the [now] the call read before it sent the
      request. *)
Definition exchange_settle (now : Z) (resp : ExchangeResponse) (c : Cache)
    : option (gmap string float) * Cache :=
    match resp with
    | ExchangeJson true rates =>
        (rates, mkCache rates now (arsRateCache c) (lastARSFetch c))
    | _ => (None, c)
    end.

  (** The [try] block when nothing runs between the request and its
      answer, with the request sent. *)
Definition exchange_refresh (now : Z) (resp : ExchangeResponse) (c : Cache)
    : option (gmap string float) * Cache * list Request :=
    match exchange_settle now resp c with
    | (v, c') => (v, c', [GET_exchange_api])
    end.

  (** A call that no other call of the function overlaps: the returned
      value, the cache after it and the requests it sent. *)
Definition getExchangeRates (now : Z) (resp : ExchangeResponse) (c : Cache)
    : option (gmap string float) * Cache * list Request :=
    if rates_fresh now c
    then (exchangeRatesCache c, c, [])
    else exchange_refresh now resp c.

Definition ars_mid (ask bid : float) : float := ((ask + bid) / 2)%float.

  (** The test of [getARSRate] before its [await]. *)
Definition ars_fresh (now : Z) (c : Cache) : bool :=
    JS.truthy_opt (arsRateCache c)
    && bool_decide (now - lastARSFetch c < ARS_CACHE_DURATION).

  (** [getARSRate] from the answer on. *)
Definition ars_settle (now : Z) (resp : ArsResponse) (c : Cache)
    : option float * Cache :=
    match resp with
    | ArsJson (Some ask) (Some bid) =>
        if (JS.truthy ask && JS.truthy bid)%bool
        then
          let midPrice := ars_mid ask bid in
          (Some midPrice,
           mkCache (exchangeRatesCache c) (lastRatesFetch c) (Some midPrice) now)
        else (None, c)
    | _ => (None, c)
    end.

Definition ars_refresh (now : Z) (resp : ArsResponse) (c : Cache)
    : option float * Cache * list Request :=
    match ars_settle now resp c with
    | (v, c') => (v, c', [GET_criptoya])
    end.

  (** A call of [getARSRate] that no other call of it overlaps. *)
Definition getARSRate (now : Z) (resp : ArsResponse) (c : Cache)
    : option float * Cache * list Request :=
    if ars_fresh now c
    then (arsRateCache c, c, [])
    else ars_refresh now resp c.

(** A read of one of the two slots, and a sequence of reads none of
    which starts before the one before it has returned. *)
Inductive Read : Type :=
| ReadRates (now : Z) (resp : ExchangeResponse)
| ReadARS (now : Z) (resp : ArsResponse).

Inductive ReadResult : Type :=
| RatesResult (v : option (gmap string float))
| ARSResult (v : option float).

Definition read (r : Read) (c : Cache) : ReadResult * Cache * list Request :=
  match r with
  | ReadRates now resp =>
      match getExchangeRates now resp c with
      | (v, c', reqs) => (RatesResult v, c', reqs)
      end
  | ReadARS now resp =>
      match getARSRate now resp c with
      | (v, c', reqs) => (ARSResult v, c', reqs)
      end
  end.

Fixpoint reads (rs : list Read) (c : Cache) : list (ReadResult * list Request) * Cache :=
  match rs with
  | [] => ([], c)
  | r :: rest =>
      match read r c with
      | (v, c1, reqs) =>
          match reads rest c1 with
          | (out, c2) => ((v, reqs) :: out, c2)
          end
      end
  end.

(** *** Calls in flight *)

(** The steps of the calls, in the order the event loop runs them: a
    call starts and reads [now] from the clock, or the answer to the
    request of a suspended call arrives.  Calls are told apart by a
    number. *)
Inductive Event : Type :=
| CallRates (id : nat) (now : Z)
| AnswerRates (id : nat) (resp : ExchangeResponse)
| CallARS (id : nat) (now : Z)
| AnswerARS (id : nat) (resp : ArsResponse).

(** What a step shows to the outside: a request a call sends, or the
    value a call returns. *)
Inductive Output : Type :=
| Sends (id : nat) (req : Request)
| Returns (id : nat) (v : ReadResult).

(** The cache and, for each suspended call, the [now] it holds. *)
Record InFlight : Type := mkInFlight {
  cache : Cache;
  rates_calls : gmap nat Z;
  ars_calls : gmap nat Z
}.

Definition idle (c : Cache) : InFlight := mkInFlight c ∅ ∅.

Definition step (e : Event) (s : InFlight) : InFlight * list Output :=
  match e with
  | CallRates id now =>
      if rates_fresh now (cache s)
      then (s, [Returns id (RatesResult (exchangeRatesCache (cache s)))])
      else (mkInFlight (cache s) (<[id := now]> (rates_calls s)) (ars_calls s),
            [Sends id GET_exchange_api])
  | AnswerRates id resp =>
      match rates_calls s !! id with
      | Some now =>
          match exchange_settle now resp (cache s) with
          | (v, c') =>
              (mkInFlight c' (delete id (rates_calls s)) (ars_calls s),
               [Returns id (RatesResult v)])
          end
      | None => (s, [])
      end
  | CallARS id now =>
      if ars_fresh now (cache s)
      then (s, [Returns id (ARSResult (arsRateCache (cache s)))])
      else (mkInFlight (cache s) (rates_calls s) (<[id := now]> (ars_calls s)),
            [Sends id GET_criptoya])
  | AnswerARS id resp =>
      match ars_calls s !! id with
      | Some now =>
          match ars_settle now resp (cache s) with
          | (v, c') =>
              (mkInFlight c' (rates_calls s) (delete id (ars_calls s)),
               [Returns id (ARSResult v)])
          end
      | None => (s, [])
      end
  end.

Fixpoint run (es : list Event) (s : InFlight) : InFlight * list Output :=
  match es with
  | [] => (s, [])
  | e :: rest =>
      match step e s with
      | (s1, out) =>
          match run rest s1 with
          | (s2, outs) => (s2, out ++ outs)
          end
      end
  end.

(** The schedule of a sequence of reads that do not overlap: each call
    is answered before the next one starts. *)
Definition schedule_of (id : nat) (r : Read) : list Event :=
  match r with
  | ReadRates now resp => [CallRates id now; AnswerRates id resp]
  | ReadARS now resp => [CallARS id now; AnswerARS id resp]
  end.

Fixpoint sequential (id : nat) (rs : list Read) : list Event :=
  match rs with
  | [] => []
  | r :: rest => schedule_of id r ++ sequential (S id) rest
  end.

End RateCache.


(** ** Constant tables and their lookups *)

Module Tables.

Record PlatformInfo : Type := mkPlatformInfo {
  platform : string;
  isUsdOnly : bool
}.

Definition platformMapping : list (string * PlatformInfo) :=
  [ ("0x76d33a33068d86016b806df02376ddbb23dd3703",
     mkPlatformInfo "cashapp" true);
    ("0x9a733b55a875d0db4915c6b36350b24f8ab99df5",
     mkPlatformInfo "venmo" true);
    ("0xaa5a1b62b01781e789c900d616300717cd9a41ab",
     mkPlatformInfo "revolut" false);
    ("0xff0149799631d7a5bde2e7ea9b306c42b3d9a9ca",
     mkPlatformInfo "wise" false);
    ("0x03d17e9371c858072e171276979f6b44571c5dea",
     mkPlatformInfo "paypal" false);
    ("0x0de46433bd251027f73ed8f28e01ef05da36a2e0",
     mkPlatformInfo "monzo" false);
    ("0xf2ac5be14f32cbe6a613cff8931d95460d6c33a3",
     mkPlatformInfo "mercado pago" false);
    ("0x431a078a5029146aab239c768a615cd484519af7",
     mkPlatformInfo "zelle" true);
    ("0x90262a3db0edd0be2369c6b28f9e8511ec0bac7136cefbada0880602f87e7268",
     mkPlatformInfo "venmo" true);
    ("0x617f88ab82b5c1b014c539f7e75121427f0bb50a4c58b187a238531e7d58605d",
     mkPlatformInfo "revolut" false);
    ("0x10940ee67cfb3c6c064569ec92c0ee934cd7afa18dd2ca2d6a2254fcb009c17d",
     mkPlatformInfo "cashapp" true);
    ("0x554a007c2217df766b977723b276671aee5ebb4adaea0edb6433c88b3e61dac5",
     mkPlatformInfo "wise" false);
    ("0xa5418819c024239299ea32e09defae8ec412c03e58f5c75f1b2fe84c857f5483",
     mkPlatformInfo "mercado pago" false);
    ("0x817260692b75e93c7fbc51c71637d4075a975e221e1ebc1abeddfabd731fd90d",
     mkPlatformInfo "zelle" true);
    ("0x6aa1d1401e79ad0549dced8b1b96fb72c41cd02b32a7d9ea1fed54ba9e17152e",
     mkPlatformInfo "zelle" true);
    ("0x4bc42b322a3ad413b91b2fde30549ca70d6ee900eded1681de91aaf32ffd7ab5",
     mkPlatformInfo "zelle" true);
    ("0x3ccc3d4d5e769b1f82dc4988485551dc0cd3c7a3926d7d8a4dde91507199490f",
     mkPlatformInfo "paypal" false);
    ("0x62c7ed738ad3e7618111348af32691b5767777fbaf46a2d8943237625552645c",
     mkPlatformInfo "monzo" false) ].

Definition currencyHashToCode : list (string * string) :=
  [ ("0x4dab77a640748de8588de6834d814a344372b205265984b969f3e97060955bfa",
     "AED");
    ("0x8fd50654b7dd2dc839f7cab32800ba0c6f7f66e1ccf89b21c09405469c2175ec",
     "ARS");
    ("0xcb83cbb58eaa5007af6cad99939e4581c1e1b50d65609c30f303983301524ef3",
     "AUD");
    ("0x221012e06ebf59a20b82e3003cf5d6ee973d9008bdb6e2f604faa89a27235522",
     "CAD");
    ("0xc9d84274fd58aa177cabff54611546051b74ad658b939babaad6282500300d36",
     "CHF");
    ("0xfaaa9c7b2f09d6a1b0971574d43ca62c3e40723167c09830ec33f06cec921381",
     "CNY");
    ("0xd783b199124f01e5d0dde2b7fc01b925e699caea84eae3ca92ed17377f498e97",
     "CZK");
    ("0x5ce3aa5f4510edaea40373cbe83c091980b5c92179243fe926cb280ff07d403e",
     "DKK");
    ("0xfff16d60be267153303bbfa66e593fb8d06e24ea5ef24b6acca5224c2ca6b907",
     "EUR");
    ("0x90832e2dc3221e4d56977c1aa8f6a6706b9ad6542fbbdaac13097d0fa5e42e67",
     "GBP");
    ("0xa156dad863111eeb529c4b3a2a30ad40e6dcff3b27d8f282f82996e58eee7e7d",
     "HKD");
    ("0x7766ee347dd7c4a6d5a55342d89e8848774567bcf7a5f59c3e82025dbde3babb",
     "HUF");
    ("0xc681c4652bae8bd4b59bec1cdb90f868d93cc9896af9862b196843f54bf254b3",
     "IDR");
    ("0x313eda7ae1b79890307d32a78ed869290aeb24cc0e8605157d7e7f5a69fea425",
     "ILS");
    ("0xaad766fbc07fb357bed9fd8b03b935f2f71fe29fc48f08274bc2a01d7f642afc",
     "INR");
    ("0xfe13aafd831cb225dfce3f6431b34b5b17426b6bff4fccabe4bbe0fe4adc0452",
     "JPY");
    ("0x589be49821419c9c2fbb26087748bf3420a5c13b45349828f5cac24c58bbaa7b",
     "KES");
    ("0xa94b0702860cb929d0ee0c60504dd565775a058bf1d2a2df074c1db0a66ad582",
     "MXN");
    ("0xf20379023279e1d79243d2c491be8632c07cfb116be9d8194013fb4739461b84",
     "MYR");
    ("0x8fb505ed75d9d38475c70bac2c3ea62d45335173a71b2e4936bd9f05bf0ddfea",
     "NOK");
    ("0xdbd9d34f382e9f6ae078447a655e0816927c7c3edec70bd107de1d34cb15172e",
     "NZD");
    ("0xe6c11ead4ee5ff5174861adb55f3e8fb2841cca69bf2612a222d3e8317b6ae06",
     "PHP");
    ("0x9a788fb083188ba1dfb938605bc4ce3579d2e085989490aca8f73b23214b7c1d",
     "PLN");
    ("0x2dd272ddce846149d92496b4c3e677504aec8d5e6aab5908b25c9fe0a797e25f",
     "RON");
    ("0xf998cbeba8b7a7e91d4c469e5fb370cdfa16bd50aea760435dc346008d78ed1f",
     "SAR");
    ("0x8895743a31faedaa74150e89d06d281990a1909688b82906f0eb858b37f82190",
     "SEK");
    ("0xc241cc1f9752d2d53d1ab67189223a3f330e48b75f73ebf86f50b2c78fe8df88",
     "SGD");
    ("0x326a6608c2a353275bd8d64db53a9d772c1d9a5bc8bfd19dfc8242274d1e9dd4",
     "THB");
    ("0x128d6c262d1afe2351c6e93ceea68e00992708cfcbc0688408b9a23c0c543db2",
     "TRY");
    ("0xc4ae21aac0c6549d71dd96035b7e0bdb6c79ebdba8891b666115bc976d16a29e",
     "USD");
    ("0xe85548baf0a6732cfcc7fc016ce4fd35ce0a1877057cfec6e166af4f106a3728",
     "VND");
    ("0x53611f0b3535a2cfc4b8deb57fa961ca36c7b2c272dfe4cb239a29c48e549361",
     "ZAR") ].

(** [getPlatformName(identifier)].  [identifier.toLowerCase()] raises a
    [TypeError] when the identifier is [undefined]: the result is [None]
    then. *)
Definition getPlatformName (identifier : option string) : option string :=
  match identifier with
  | None => None
  | Some identifier =>
      match JS.map_get (JS.toLowerCase identifier) platformMapping with
      | Some mapping =>
          Some (if String.prefix "zelle" (platform mapping)
                then "zelle" else platform mapping)
      | None =>
          let identifierStr := JS.toLowerCase identifier in
          Some (if bool_decide (String.length identifierStr = 42%nat)
                then "Unknown (" +:+ JS.slice_to 6 identifierStr +:+ "..."
                       +:+ JS.slice_last 4 identifierStr +:+ ")"
                else "Unknown (" +:+ JS.slice_to 8 identifierStr +:+ "..."
                       +:+ JS.slice_last 6 identifierStr +:+ ")")
      end
  end.

Definition ZKP2P_GROUP_ID : Z := -1001928949520.
Definition ZKP2P_TOPIC_ID : Z := 5385.
Definition ZKP2P_SNIPER_TOPIC_ID : Z := 5671.

End Tables.

(** ** The subscriber store (Supabase tables read by [DatabaseManager]) *)

Module user_settings.
Record row : Type := mk {
  chat_id : Z;
  threshold : option float;
  listen_all : bool;
  is_active : bool
}.
End user_settings.

Module user_snipers.
Record row : Type := mk {
  chat_id : Z;
  currency : string;
  platform : option string;
  created_at : Z;
  is_active : bool
}.
End user_snipers.

Module user_deposits.
Record row : Type := mk {
  chat_id : Z;
  deposit_id : Z;
  is_active : bool
}.
End user_deposits.

Module Db.

(** The tables, and whether queries reach the store: an unreachable store
    answers every query with [{ data: null, error }] (the client does not
    raise). *)
Record Store : Type := mkStore {
  settings : list user_settings.row;
  snipers : list user_snipers.row;
  deposits : list user_deposits.row;
  reachable : bool
}.

(** [.single()]: the row when exactly one matches, an error otherwise. *)
Definition single {A : Type} (rows : list A) : option A :=
  match rows with
  | [r] => Some r
  | _ => None
  end.

(** The rows of [user_settings] with the given [chat_id] and
    [is_active = true]. *)
Definition active_settings (s : Store) (chatId : Z) : list user_settings.row :=
  filter (λ r, user_settings.chat_id r = chatId
               ∧ user_settings.is_active r = true) (settings s).

(** [getUserThreshold(chatId)]: [data?.threshold || 0.2]. *)
Definition getUserThreshold (s : Store) (chatId : Z) : float :=
  let data :=
    if reachable s then single (active_settings s chatId) else None in
  JS.or_default (data ≫= user_settings.threshold) 0.2%float.

(** The [forEach] of [getUsersWithSniper]: keep the newest row per chat. *)
Definition keep_newest (userMap : list (Z * user_snipers.row)) (r : user_snipers.row)
  : list (Z * user_snipers.row) :=
  match JS.map_get (user_snipers.chat_id r) userMap with
  | Some existing =>
      if bool_decide (user_snipers.created_at existing < user_snipers.created_at r)
      then JS.map_set (user_snipers.chat_id r) r userMap
      else userMap
  | None => JS.map_set (user_snipers.chat_id r) r userMap
  end.

(** The filters of the [getUsersWithSniper] query: currency, active rows
    of the last thirty days and, when a platform is given, that platform
    or no platform. *)
Definition sniper_query (thirtyDaysAgo : Z) (currency : string)
    (platform : option string) (r : user_snipers.row) : bool :=
  bool_decide (user_snipers.currency r = JS.toUpperCase currency)
  && user_snipers.is_active r
  && bool_decide (thirtyDaysAgo ≤ user_snipers.created_at r)
  && match platform with
     | Some p =>
         if JS.truthy_string p
         then bool_decide (user_snipers.platform r = Some (JS.toLowerCase p))
              || bool_decide (user_snipers.platform r = None)
         else true
     | None => true
     end.

(** [getUsersWithSniper(currency, platform)]; [thirtyDaysAgo] is the
    cut-off the function computes from the clock. *)
Definition getUsersWithSniper (s : Store) (thirtyDaysAgo : Z)
    (currency : string) (platform : option string) : list Z :=
  if reachable s then
    let data := List.filter (sniper_query thirtyDaysAgo currency platform)
                            (snipers s) in
    JS.map_keys (foldl keep_newest [] data)
  else [].

(** [getUsersInterestedInDeposit(depositId)]. *)
Definition getUsersInterestedInDeposit (s : Store) (depositId : Z) : list Z :=
  if reachable s then
    let allListeners :=
      filter (λ r, user_settings.listen_all r = true
                   ∧ user_settings.is_active r = true) (settings s) in
    let specificTrackers :=
      filter (λ r, user_deposits.deposit_id r = depositId
                   ∧ user_deposits.is_active r = true) (deposits s) in
    let allUsers := foldl (λ acc r, JS.set_add (user_settings.chat_id r) acc)
                          [] allListeners in
    foldl (λ acc r, JS.set_add (user_deposits.chat_id r) acc)
          allUsers specificTrackers
  else [].

End Db.

(** ** Process-wide state, effects and asynchronous computations *)

Module Pending.

(** The payload stored under an intent in [rawIntents]: one of the four
    object shapes the two event handlers build.  The other fields of the
    fulfilled payloads (owner, to, amount, fees, ...) are only
    interpolated into the message text. *)
Inductive RawIntent : Type :=
| RawEscrowFulfilled (depositId : Z) (verifier : string) (intentHash : string)
| RawEscrowPruned (depositId : Z) (intentHash : string)
| RawOrchestratorFulfilled (intentHash : string)
| RawOrchestratorPruned (intentHash : string).

Inductive EventType : Type :=
| undefined
| orchestrator.

Inductive IntentType : Type :=
| type_fulfilled
| type_pruned.

Definition eventType (r : RawIntent) : EventType :=
  match r with
  | RawEscrowFulfilled _ _ _ | RawEscrowPruned _ _ => undefined
  | RawOrchestratorFulfilled _ | RawOrchestratorPruned _ => orchestrator
  end.

Definition type (r : RawIntent) : IntentType :=
  match r with
  | RawEscrowFulfilled _ _ _ | RawOrchestratorFulfilled _ => type_fulfilled
  | RawEscrowPruned _ _ | RawOrchestratorPruned _ => type_pruned
  end.

Definition intentHash (r : RawIntent) : string :=
  match r with
  | RawEscrowFulfilled _ _ h | RawEscrowPruned _ h
  | RawOrchestratorFulfilled h | RawOrchestratorPruned h => h
  end.

Definition depositId (r : RawIntent) : option Z :=
  match r with
  | RawEscrowFulfilled d _ _ | RawEscrowPruned d _ => Some d
  | _ => None
  end.

Definition verifier (r : RawIntent) : option string :=
  match r with
  | RawEscrowFulfilled _ v _ => Some v
  | _ => None
  end.

(** An entry of [pendingTransactions]. *)
Record TxData : Type := mkTxData {
  fulfilled : list string;
  pruned : list string;
  blockNumber : Z;
  rawIntents : list (string * RawIntent)
}.

(** An entry of [intentDetails]. *)
Record IntentDetails : Type := mkIntentDetails {
  id_fiatCurrency : string;
  id_conversionRate : Z;
  id_verifier : string
}.

(** An entry of [orchestratorIntentDetails] (the fields the notifications
    branch on or report). *)
Record OrchestratorIntentDetails : Type := mkOrchestratorIntentDetails {
  od_depositId : Z;
  od_escrow : string;
  od_paymentMethod : string;
  od_fiatCurrency : string;
  od_conversionRate : Z
}.

End Pending.

Module Async.

Inductive Webhook : Type :=
| DISCORD_ORDERS_WEBHOOK_URL
| DISCORD_SNIPER_WEBHOOK_URL.

(** The data of a sniper alert. *)
Record SniperAlert : Type := mkSniperAlert {
  depositId : Z;
  currency : string;
  platform : string;
  depositRate : float;
  marketRate : float;
  percentDiff : float;
  faceAmount : float
}.

Inductive Message : Type :=
| SniperAlertMessage (a : SniperAlert)
| OrderFulfilled (depositId : Z) (intentHash : string)
| OrderCancelled (depositId : Z) (intentHash : string).

Inductive Status : Type :=
| status_fulfilled
| status_pruned.

(** What the process does to the outside world, in order. *)
Inductive Effect : Type :=
| HttpGet (r : RateCache.Request)
| DiscordPost (hook : Webhook) (content : Message)
| SniperAlertLogged (chatId : Z) (a : SniperAlert)
| DepositStatusUpdated (chatId depositId : Z) (status : Status) (intentHash : string)
| EventNotificationLogged (chatId depositId : Z) (eventType : Status)
| TelegramMessage (chatId : Z) (message : Message)
    (message_thread_id : option Z) (delivered : bool).

(** How the Discord webhook answers one [postToDiscord] call: the request
    is rejected (network failure), or answered with a status other than
    429 ([ok] is [res.ok]), or answered 429 and then, after the wait, the
    retry goes on with the rest of the script. *)
Inductive WebhookScript : Type :=
| WebhookRejects
| WebhookResponds (ok : bool)
| WebhookRateLimited (next : WebhookScript).

Record World : Type := mkWorld {
  rates : RateCache.Cache;
  intentDetails : gmap string Pending.IntentDetails;
  orchestratorIntentDetails : gmap string Pending.OrchestratorIntentDetails;
  pendingTransactions : gmap string Pending.TxData;
  processingScheduled : gset string;
  (** pending one-shot reconciliation timers, by transaction hash *)
  timers : list string;
  (** how the webhook will answer the coming posts (200 once exhausted) *)
  webhook : list WebhookScript
}.

(** What a handler reads but does not own. *)
Record Env : Type := mkEnv {
  db : Db.Store;
  now : Z;
  thirtyDaysAgo : Z;
  exchange_response : RateCache.ExchangeResponse;
  ars_response : RateCache.ArsResponse;
  orders_webhook_configured : bool;
  sniper_webhook_configured : bool;
  (** whether Telegram delivers a message sent to a chat; the send is not
      awaited, so nothing reads this *)
  telegram_delivers : Z → bool
}.

Inductive Outcome (A : Type) : Type :=
| Returned (a : A)
| Rejected.
Arguments Returned {A} a.
Arguments Rejected {A}.

(** An [async] computation: the effects performed, the state left and how
    it settled. *)
Definition M (A : Type) : Type := World → list Effect * World * Outcome A.

#[global] Instance M_ret : MRet M := λ A a w, ([], w, Returned a).

#[global] Instance M_bind : MBind M := λ A B f m w,
  match m w with
  | (e1, w1, Returned a) =>
      match f a w1 with
      | (e2, w2, r) => (e1 ++ e2, w2, r)
      end
  | (e1, w1, Rejected) => (e1, w1, Rejected)
  end.

Definition emit (e : Effect) : M unit := λ w, ([e], w, Returned ()).
Definition throw {A : Type} : M A := λ w, ([], w, Rejected).
Definition get_world : M World := λ w, ([], w, Returned w).
Definition modify (f : World → World) : M unit := λ w, ([], f w, Returned ()).

(** [for (const x of xs) { await body(x) }] *)
Fixpoint for_of {A : Type} (xs : list A) (body : A → M unit) : M unit :=
  match xs with
  | [] => mret ()
  | x :: rest => body x ;; for_of rest body
  end.

Definition set_rates (c : RateCache.Cache) (w : World) : World :=
  mkWorld c (intentDetails w) (orchestratorIntentDetails w)
          (pendingTransactions w) (processingScheduled w) (timers w) (webhook w).

Definition set_intentDetails (m : gmap string Pending.IntentDetails) (w : World) : World :=
  mkWorld (rates w) m (orchestratorIntentDetails w)
          (pendingTransactions w) (processingScheduled w) (timers w) (webhook w).

Definition set_orchestratorIntentDetails
    (m : gmap string Pending.OrchestratorIntentDetails) (w : World) : World :=
  mkWorld (rates w) (intentDetails w) m
          (pendingTransactions w) (processingScheduled w) (timers w) (webhook w).

Definition set_pendingTransactions (m : gmap string Pending.TxData) (w : World) : World :=
  mkWorld (rates w) (intentDetails w) (orchestratorIntentDetails w)
          m (processingScheduled w) (timers w) (webhook w).

Definition set_processingScheduled (s : gset string) (w : World) : World :=
  mkWorld (rates w) (intentDetails w) (orchestratorIntentDetails w)
          (pendingTransactions w) s (timers w) (webhook w).

Definition set_timers (t : list string) (w : World) : World :=
  mkWorld (rates w) (intentDetails w) (orchestratorIntentDetails w)
          (pendingTransactions w) (processingScheduled w) t (webhook w).

Definition set_webhook (s : list WebhookScript) (w : World) : World :=
  mkWorld (rates w) (intentDetails w) (orchestratorIntentDetails w)
          (pendingTransactions w) (processingScheduled w) (timers w) s.

(** The requests of one [postToDiscord] call against a script: one
    [fetch] per answer; a 429 answer waits and calls [postToDiscord]
    again; a non-ok answer is logged; a rejected [fetch] rejects the
    call. *)
Fixpoint run_webhook (hook : Webhook) (content : Message) (sc : WebhookScript)
  : list Effect * Outcome unit :=
  match sc with
  | WebhookRejects => ([DiscordPost hook content], Rejected)
  | WebhookResponds _ => ([DiscordPost hook content], Returned ())
  | WebhookRateLimited next =>
      match run_webhook hook content next with
      | (e, r) => (DiscordPost hook content :: e, r)
      end
  end.

(** [postToDiscord({ webhookUrl, content, ... })]: nothing when the
    webhook URL is not configured. *)
Definition postToDiscord (configured : bool) (hook : Webhook) (content : Message)
  : M unit := λ w,
  if configured then
    let sc := default (WebhookResponds true) (head (webhook w)) in
    match run_webhook hook content sc with
    | (e, r) => (e, set_webhook (tail (webhook w)) w, r)
    end
  else ([], w, Returned ()).

End Async.

(** ** Sniper alerts ([checkSniperOpportunity]) *)

Module Sniper.
Import Async.

Definition depositRate_of (conversionRate : Z) : float :=
  (JS.Number conversionRate / 1e18)%float.

Definition percentageDiff_of (marketRate depositRate : float) : float :=
  (((marketRate - depositRate) / marketRate) * 100)%float.

Section WithEnv.
Context (env : Env).

(** [await getARSRate()] and [await getExchangeRates()] on the shared
    cache. *)
Definition getARSRate : M (option float) := λ w,
  match RateCache.getARSRate (now env) (ars_response env) (rates w) with
  | (v, c, reqs) => (HttpGet <$> reqs, set_rates c w, Returned v)
  end.

Definition getExchangeRates : M (option (gmap string float)) := λ w,
  match RateCache.getExchangeRates (now env) (exchange_response env) (rates w) with
  | (v, c, reqs) => (HttpGet <$> reqs, set_rates c w, Returned v)
  end.

(** The market rate of a currency code; [None] where the function
    returns early because no rate is available. *)
Definition resolve_market_rate (currencyCode : string) : M (option float) :=
  if bool_decide (currencyCode = "ARS") then
    marketRate ← getARSRate;
    mret (if JS.truthy_opt marketRate then marketRate else None)
  else if bool_decide (currencyCode = "USD") then
    mret (Some 1%float)
  else
    exchangeRates ← getExchangeRates;
    match exchangeRates with
    | None => mret None
    | Some exchangeRates =>
        let marketRate := exchangeRates !! currencyCode in
        mret (if JS.truthy_opt marketRate then marketRate else None)
    end.

(** The body of the loop over [interestedUsers]. *)
Definition alert_user (a : SniperAlert) (chatId : Z) : M unit :=
  let userThreshold := Db.getUserThreshold (db env) chatId in
  if JS.ge (percentDiff a) userThreshold then
    emit (SniperAlertLogged chatId a) ;;
    postToDiscord (sniper_webhook_configured env) DISCORD_SNIPER_WEBHOOK_URL
                  (SniperAlertMessage a) ;;
    emit (TelegramMessage chatId (SniperAlertMessage a)
            (if bool_decide (chatId = Tables.ZKP2P_GROUP_ID)
             then Some Tables.ZKP2P_SNIPER_TOPIC_ID else None)
            (telegram_delivers env chatId))
  else mret ().

(** [interestedUsers] after the broadcast group is pushed. *)
Definition candidates (currencyCode platformName : string) : list Z :=
  let interestedUsers :=
    Db.getUsersWithSniper (db env) (thirtyDaysAgo env) currencyCode (Some platformName) in
  if bool_decide (Tables.ZKP2P_GROUP_ID ∈ interestedUsers)
  then interestedUsers
  else interestedUsers ++ [Tables.ZKP2P_GROUP_ID].

Definition checkSniperOpportunity (depositId : Z) (depositAmount : float)
    (currencyHash : string) (conversionRate : Z) (verifierAddress : string)
  : M unit :=
  let currencyCode := JS.map_get (JS.toLowerCase currencyHash) Tables.currencyHashToCode in
  match Tables.getPlatformName (Some verifierAddress) with
  | None => throw
  | Some name =>
      let platformName := JS.toLowerCase name in
      match currencyCode with
      | None => mret ()
      | Some currencyCode =>
          marketRate ← resolve_market_rate currencyCode;
          match marketRate with
          | None => mret ()
          | Some marketRate =>
              let depositRate := depositRate_of conversionRate in
              let percentageDiff := percentageDiff_of marketRate depositRate in
              let a := mkSniperAlert depositId currencyCode platformName
                         depositRate marketRate percentageDiff depositAmount in
              for_of (candidates currencyCode platformName) (alert_user a)
          end
      end
  end.

End WithEnv.

(** The chats a trace sent a Telegram message to, in order. *)
Definition recipients (t : list Effect) : list Z :=
  omap (λ e, match e with TelegramMessage c _ _ _ => Some c | _ => None end) t.

(** The sniper alerts a trace sent to Telegram, with their chats. *)
Definition alerts (t : list Effect) : list (Z * SniperAlert) :=
  omap (λ e, match e with
             | TelegramMessage c (SniperAlertMessage a) _ _ => Some (c, a)
             | _ => None
             end) t.

End Sniper.

(** ** Transaction reconciliation *)

Module Reconcile.
Import Async Pending.

(** The decoded intent events of the two contracts (the arguments the
    handlers branch on or store). *)
Inductive ParsedLog : Type :=
| Escrow_IntentFulfilled (intentHash : string) (depositId : Z) (verifier : string)
| Escrow_IntentPruned (intentHash : string) (depositId : Z)
| Orchestrator_IntentFulfilled (intentHash : string)
| Orchestrator_IntentPruned (intentHash : string).

Record Log : Type := mkLog {
  transactionHash : string;
  log_blockNumber : Z;
  parsed : ParsedLog
}.

Fixpoint list_remove_first (x : string) (l : list string) : list string :=
  match l with
  | [] => []
  | y :: r => if decide (x = y) then r else y :: list_remove_first x r
  end.

(** [scheduleTransactionProcessing(txHash)]: one timer of 10 s per
    scheduled hash. *)
Definition scheduleTransactionProcessing (txHash : string) (w : World) : World :=
  if bool_decide (txHash ∈ processingScheduled w) then w
  else set_timers (timers w ++ [txHash])
         (set_processingScheduled ({[txHash]} ∪ processingScheduled w) w).

(** What a handler does to the entry of the transaction. *)
Definition record_intent (p : ParsedLog) (txData : TxData) : TxData :=
  match p with
  | Escrow_IntentFulfilled intentHash depositId verifier =>
      mkTxData (JS.set_add (JS.toLowerCase intentHash) (fulfilled txData))
               (pruned txData) (blockNumber txData)
               (JS.map_set (JS.toLowerCase intentHash)
                  (RawEscrowFulfilled depositId verifier intentHash)
                  (rawIntents txData))
  | Escrow_IntentPruned intentHash depositId =>
      mkTxData (fulfilled txData)
               (JS.set_add (JS.toLowerCase intentHash) (pruned txData))
               (blockNumber txData)
               (JS.map_set (JS.toLowerCase intentHash)
                  (RawEscrowPruned depositId intentHash)
                  (rawIntents txData))
  | Orchestrator_IntentFulfilled intentHash =>
      mkTxData (JS.set_add (JS.toLowerCase intentHash) (fulfilled txData))
               (pruned txData) (blockNumber txData)
               (JS.map_set (JS.toLowerCase intentHash)
                  (RawOrchestratorFulfilled intentHash)
                  (rawIntents txData))
  | Orchestrator_IntentPruned intentHash =>
      mkTxData (fulfilled txData)
               (JS.set_add (JS.toLowerCase intentHash) (pruned txData))
               (blockNumber txData)
               (JS.map_set (JS.toLowerCase intentHash)
                  (RawOrchestratorPruned intentHash)
                  (rawIntents txData))
  end.

(** The [IntentFulfilled] and [IntentPruned] branches of
    [handleContractEvent] and [handleOrchestratorEvent]: get or create
    the entry, record the event, schedule the processing. *)
Definition handleIntentEvent (log : Log) (w : World) : World :=
  let txHash := transactionHash log in
  let txData :=
    default (mkTxData [] [] (log_blockNumber log) [])
            (pendingTransactions w !! txHash) in
  scheduleTransactionProcessing txHash
    (set_pendingTransactions
       (<[txHash := record_intent (parsed log) txData]> (pendingTransactions w)) w).

Section WithEnv.
Context (env : Env).

(** The loop over [interestedUsers] the four notification functions
    share. *)
Definition notify_user (depositId : Z) (status : Status) (intentHash : string)
    (message : Message) (chatId : Z) : M unit :=
  emit (DepositStatusUpdated chatId depositId status intentHash) ;;
  emit (EventNotificationLogged chatId depositId status) ;;
  emit (TelegramMessage chatId message
          (if bool_decide (chatId = Tables.ZKP2P_GROUP_ID)
           then Some Tables.ZKP2P_TOPIC_ID else None)
          (telegram_delivers env chatId)).

(** What follows the lookup of [interestedUsers] in each of them. *)
Definition notify_interested (depositId : Z) (status : Status)
    (intentHash : string) (message : Message) : M unit :=
  let interestedUsers := Db.getUsersInterestedInDeposit (db env) depositId in
  if bool_decide (interestedUsers = []) then mret ()
  else
    postToDiscord (orders_webhook_configured env) DISCORD_ORDERS_WEBHOOK_URL message ;;
    for_of interestedUsers (notify_user depositId status intentHash message).

(** [sendFulfilledNotification(rawIntent, txHash)].  A payload without
    [verifier] makes [getPlatformName(verifier)] raise. *)
Definition sendFulfilledNotification (rawIntent : RawIntent) (txHash : string) : M unit :=
  match rawIntent with
  | RawEscrowFulfilled depositId verifier intentHash =>
      match Tables.getPlatformName (Some verifier) with
      | None => throw
      | Some platformName =>
          w ← get_world;
          (if bool_decide (is_Some (intentDetails w !! JS.toLowerCase intentHash))
           then modify (λ w, set_intentDetails
                               (delete (JS.toLowerCase intentHash) (intentDetails w)) w)
           else mret ()) ;;
          notify_interested depositId status_fulfilled intentHash
                            (OrderFulfilled depositId intentHash)
      end
  | _ => throw
  end.

(** [sendPrunedNotification(rawIntent, txHash)]; the payloads it is
    called on carry a deposit id. *)
Definition sendPrunedNotification (rawIntent : RawIntent) (txHash : string) : M unit :=
  match depositId rawIntent with
  | Some depositId =>
      notify_interested depositId status_pruned (intentHash rawIntent)
                        (OrderCancelled depositId (intentHash rawIntent))
  | None => mret ()
  end.

Definition forget_intent (intentHashLower : string) (w : World) : World :=
  set_intentDetails (delete intentHashLower (intentDetails w))
    (set_orchestratorIntentDetails
       (delete intentHashLower (orchestratorIntentDetails w)) w).

(** What follows the lookup of [storedDetails] in the two orchestrator
    notifications: the early return without subscribers skips the
    clean-up too. *)
Definition notify_orchestrator (depositId : Z) (status : Status)
    (intentHash : string) (message : Message) : M unit :=
  let interestedUsers := Db.getUsersInterestedInDeposit (db env) depositId in
  if bool_decide (interestedUsers = []) then mret ()
  else
    postToDiscord (orders_webhook_configured env) DISCORD_ORDERS_WEBHOOK_URL message ;;
    for_of interestedUsers (notify_user depositId status intentHash message) ;;
    modify (forget_intent (JS.toLowerCase intentHash)).

(** [sendOrchestratorFulfilledNotification(rawIntent, txHash)] *)
Definition sendOrchestratorFulfilledNotification (rawIntent : RawIntent)
    (txHash : string) : M unit :=
  w ← get_world;
  match orchestratorIntentDetails w !! JS.toLowerCase (intentHash rawIntent) with
  | None => mret ()
  | Some storedDetails =>
      notify_orchestrator (od_depositId storedDetails) status_fulfilled
        (intentHash rawIntent)
        (OrderFulfilled (od_depositId storedDetails) (intentHash rawIntent))
  end.

(** [sendOrchestratorPrunedNotification(rawIntent, txHash)] *)
Definition sendOrchestratorPrunedNotification (rawIntent : RawIntent)
    (txHash : string) : M unit :=
  w ← get_world;
  match orchestratorIntentDetails w !! JS.toLowerCase (intentHash rawIntent) with
  | None => mret ()
  | Some storedDetails =>
      notify_orchestrator (od_depositId storedDetails) status_pruned
        (intentHash rawIntent)
        (OrderCancelled (od_depositId storedDetails) (intentHash rawIntent))
  end.

(** The two loops of [processCompletedTransaction]. *)
Definition process_pruned (txData : TxData) (txHash : string) (intentHash : string)
  : M unit :=
  if JS.set_has intentHash (fulfilled txData) then mret ()
  else
    match JS.map_get intentHash (rawIntents txData) with
    | Some rawIntent =>
        match eventType rawIntent with
        | orchestrator => sendOrchestratorPrunedNotification rawIntent txHash
        | undefined => sendPrunedNotification rawIntent txHash
        end
    | None => mret ()
    end.

Definition process_fulfilled (txData : TxData) (txHash : string) (intentHash : string)
  : M unit :=
  match JS.map_get intentHash (rawIntents txData) with
  | Some rawIntent =>
      match eventType rawIntent with
      | orchestrator => sendOrchestratorFulfilledNotification rawIntent txHash
      | undefined => sendFulfilledNotification rawIntent txHash
      end
  | None => mret ()
  end.

(** [processCompletedTransaction(txHash)] *)
Definition processCompletedTransaction (txHash : string) : M unit :=
  w ← get_world;
  match pendingTransactions w !! txHash with
  | None => mret ()
  | Some txData =>
      for_of (pruned txData) (process_pruned txData txHash) ;;
      for_of (fulfilled txData) (process_fulfilled txData txHash) ;;
      modify (λ w, set_pendingTransactions (delete txHash (pendingTransactions w)) w)
  end.

(** The callback of the timer [scheduleTransactionProcessing] sets. *)
Definition timer_callback (txHash : string) : M unit :=
  processCompletedTransaction txHash ;;
  modify (λ w, set_processingScheduled (processingScheduled w ∖ {[txHash]}) w).

(** The runtime fires a pending reconciliation timer: it leaves the timer
    queue and its callback runs. *)
Definition fire_timer (txHash : string) : M unit := λ w,
  if bool_decide (txHash ∈ timers w)
  then timer_callback txHash (set_timers (list_remove_first txHash (timers w)) w)
  else ([], w, Returned ()).

End WithEnv.

(** The notices of a trace: who was told what about which intent (the
    intent under its lower-case key). *)
Inductive Notice : Type :=
| fulfilled_notice
| cancelled_notice.

Definition notice_of_message (m : Message) : option (Notice * string) :=
  match m with
  | OrderFulfilled _ h => Some (fulfilled_notice, JS.toLowerCase h)
  | OrderCancelled _ h => Some (cancelled_notice, JS.toLowerCase h)
  | SniperAlertMessage _ => None
  end.

(** The Telegram notices about the intent [key], in order. *)
Definition telegram_notices (key : string) (t : list Effect) : list (Z * Notice) :=
  omap (λ e, match e with
             | TelegramMessage c m _ _ =>
                 match notice_of_message m with
                 | Some (n, k) => if bool_decide (k = key) then Some (c, n) else None
                 | None => None
                 end
             | _ => None
             end) t.


End Reconcile.


(** ** The resilient WebSocket provider *)

Module Conn.

(** What a pending [setTimeout] callback does. *)
Inductive TimerAction : Type :=
| reconnect_timeout   (* set by scheduleReconnect: if (!isDestroyed) connect() *)
| close_timeout       (* set by the 'close' listener: if (!isDestroyed) scheduleReconnect() *)
| restart_timeout.    (* set by restart: if (!isDestroyed) connect() *)

Record Timer : Type := mkTimer {
  timer_id : nat;
  timer_delay : float;
  timer_action : TimerAction
}.

(** The [WebSocketProvider] of the instance: the [readyState] of its
    [_websocket] ([None] when the provider has no such socket) and
    whether the listeners of the instance are still attached. *)
Record Provider : Type := mkProvider {
  readyState : option Z;
  listening : bool
}.

Record State : Type := mkState {
  reconnectDelay : float;
  maxReconnectDelay : float;
  reconnectAttempts : nat;
  maxReconnectAttempts : nat;
  isConnecting : bool;
  isDestroyed : bool;
  provider : option Provider;
  reconnectTimer : option nat;
  keepAliveTimer : bool;
  lastActivityTime : Z;
  (** the pending [setTimeout] timers of the instance and the next id *)
  pending : list Timer;
  next_id : nat
}.

(** The transitions of the connection an observer sees. *)
Inductive Transition : Type :=
| Connecting
| ReconnectScheduled (attempt : nat) (delay : float)
| GaveUp (attempt : nat)
| RestartScheduled.

Definition clearTimeout (t : option nat) (l : list Timer) : list Timer :=
  match t with
  | Some i => List.filter (λ x, negb (Nat.eqb (timer_id x) i)) l
  | None => l
  end.

(** [cleanup()] on the provider: the keep-alive stops and the listeners
    are removed (the socket is closed and the provider destroyed). *)
Definition cleanup_provider (p : option Provider) : option Provider :=
  match p with
  | Some q => Some (mkProvider (readyState q) false)
  | None => None
  end.

(** [connect()] up to its first [await] on the handshake: the guard, the
    clean-up of an existing provider, the new provider and its listeners.
    The new provider is taken to expose its socket as [_websocket], still
    CONNECTING (0); the properties below that concern [isConnected] are
    stated for every provider, with or without such a socket. *)
Definition connect (s : State) : State * list Transition :=
  if (isConnecting s || isDestroyed s)%bool then (s, [])
  else
    (mkState (reconnectDelay s) (maxReconnectDelay s) (reconnectAttempts s)
             (maxReconnectAttempts s) true (isDestroyed s)
             (Some (mkProvider (Some 0) true))
             (reconnectTimer s)
             (match provider s with Some _ => false | None => keepAliveTimer s end)
             (lastActivityTime s) (pending s) (next_id s),
     [Connecting]).

(** The delay [scheduleReconnect] computes. *)
Definition backoff (reconnectDelay maxReconnectDelay : float) (reconnectAttempts : nat)
  : float :=
  JS.Math_min (reconnectDelay * JS.Math_pow 1.5 reconnectAttempts)%float
              maxReconnectDelay.

(** [scheduleReconnect()] *)
Definition scheduleReconnect (s : State) : State * list Transition :=
  if (isConnecting s || isDestroyed s)%bool then (s, [])
  else
    let pending' := clearTimeout (reconnectTimer s) (pending s) in
    let reconnectAttempts' := S (reconnectAttempts s) in
    if (maxReconnectAttempts s <? reconnectAttempts')%nat then
      (mkState (reconnectDelay s) (maxReconnectDelay s) reconnectAttempts'
               (maxReconnectAttempts s) (isConnecting s) (isDestroyed s)
               (provider s) (reconnectTimer s) false (lastActivityTime s)
               pending' (next_id s),
       [GaveUp reconnectAttempts'])
    else
      let delay := backoff (reconnectDelay s) (maxReconnectDelay s) reconnectAttempts' in
      (mkState (reconnectDelay s) (maxReconnectDelay s) reconnectAttempts'
               (maxReconnectAttempts s) (isConnecting s) (isDestroyed s)
               (provider s) (Some (next_id s)) false (lastActivityTime s)
               (pending' ++ [mkTimer (next_id s) delay reconnect_timeout])
               (S (next_id s)),
       [ReconnectScheduled reconnectAttempts' delay]).

(** [restart()] *)
Definition restart (s : State) : State * list Transition :=
  (mkState 1000 (maxReconnectDelay s) 0 (maxReconnectAttempts s)
           (isConnecting s) (isDestroyed s)
           (cleanup_provider (provider s)) None false (lastActivityTime s)
           (clearTimeout (reconnectTimer s) (pending s)
              ++ [mkTimer (next_id s) 3000 restart_timeout])
           (S (next_id s)),
   [RestartScheduled]).

(** [destroy()] *)
Definition destroy (s : State) : State * list Transition :=
  (mkState (reconnectDelay s) (maxReconnectDelay s) (reconnectAttempts s)
           (maxReconnectAttempts s) (isConnecting s) true
           None None false (lastActivityTime s)
           (clearTimeout (reconnectTimer s) (pending s)) (next_id s),
   []).

(** The getter [isConnected], as a truth value, at time [now]. *)
Definition isConnected (s : State) (now : Z) : bool :=
  match provider s with
  | Some p =>
      match readyState p with
      | Some rs => bool_decide (rs = 1) && bool_decide (now - lastActivityTime s < 120000)
      | None => false
      end
  | None => false
  end.

(** The instance the constructor leaves: the fields, then [connect()]. *)
Definition constructor (now : Z) : State * list Transition :=
  connect (mkState 1000 30000 0 50 false false None None false now [] 0).

(** What the runtime delivers to the instance. *)
Inductive Event : Type :=
| TimerFires (id : nat)
| HandshakeSucceeds (now : Z)   (* getNetwork() wins the race; Date.now() then *)
| HandshakeFails                (* getNetwork() rejects or the 15 s timeout wins *)
| WebSocketClose
| WebSocketError
| ProviderError
| Activity (now : Z)            (* ping, pong, message or contract log *)
| ReadyStateChanges (rs : Z)    (* the socket opens, closes, ... *)
| KeepAliveTick (now : Z) (ping_ok : bool)
| HealthCheck (now : Z)         (* the two-minute interval at the end of bot.js *)
| Restart                       (* restart() from the process error handlers *)
| Destroy.

Definition set_keepAliveTimer (b : bool) (s : State) : State :=
  mkState (reconnectDelay s) (maxReconnectDelay s) (reconnectAttempts s)
          (maxReconnectAttempts s) (isConnecting s) (isDestroyed s) (provider s)
          (reconnectTimer s) b (lastActivityTime s) (pending s) (next_id s).

Definition set_lastActivityTime (t : Z) (s : State) : State :=
  mkState (reconnectDelay s) (maxReconnectDelay s) (reconnectAttempts s)
          (maxReconnectAttempts s) (isConnecting s) (isDestroyed s) (provider s)
          (reconnectTimer s) (keepAliveTimer s) t (pending s) (next_id s).

Definition set_pending (l : list Timer) (s : State) : State :=
  mkState (reconnectDelay s) (maxReconnectDelay s) (reconnectAttempts s)
          (maxReconnectAttempts s) (isConnecting s) (isDestroyed s) (provider s)
          (reconnectTimer s) (keepAliveTimer s) (lastActivityTime s) l (next_id s).

Definition set_provider (p : option Provider) (s : State) : State :=
  mkState (reconnectDelay s) (maxReconnectDelay s) (reconnectAttempts s)
          (maxReconnectAttempts s) (isConnecting s) (isDestroyed s) p
          (reconnectTimer s) (keepAliveTimer s) (lastActivityTime s) (pending s)
          (next_id s).

(** Whether the listeners of the instance are attached to a provider
    with a socket, resp. to a provider. *)
Definition socket_listening (s : State) : bool :=
  match provider s with
  | Some p => listening p && bool_decide (is_Some (readyState p))
  | None => false
  end.

Definition provider_listening (s : State) : bool :=
  match provider s with
  | Some p => listening p
  | None => false
  end.

(** The continuation of [connect()] after a successful handshake. *)
Definition handshake_ok (now : Z) (s : State) : State * list Transition :=
  (mkState 1000 (maxReconnectDelay s) 0 (maxReconnectAttempts s) false
           (isDestroyed s) (provider s) (reconnectTimer s) true now
           (pending s) (next_id s),
   []).

(** Its [catch] block. *)
Definition handshake_failed (s : State) : State * list Transition :=
  let s' := mkState (reconnectDelay s) (maxReconnectDelay s) (reconnectAttempts s)
              (maxReconnectAttempts s) false (isDestroyed s) (provider s)
              (reconnectTimer s) (keepAliveTimer s) (lastActivityTime s)
              (pending s) (next_id s) in
  if isDestroyed s' then (s', []) else scheduleReconnect s'.

(** The callback of the keep-alive interval. *)
Definition keepAlive (now : Z) (ping_ok : bool) (s : State) : State * list Transition :=
  match provider s with
  | Some (mkProvider (Some rs) _) =>
      if bool_decide (rs = 1) then
        if ping_ok then
          if bool_decide (90000 < now - lastActivityTime s)
          then scheduleReconnect s
          else (s, [])
        else scheduleReconnect s
      else (s, [])
  | _ => (s, [])
  end.

Definition fire (t : Timer) (s : State) : State * list Transition :=
  if isDestroyed s then (s, [])
  else
    match timer_action t with
    | reconnect_timeout | restart_timeout => connect s
    | close_timeout => scheduleReconnect s
    end.

Definition step (e : Event) (s : State) : State * list Transition :=
  match e with
  | TimerFires i =>
      match List.find (λ t, Nat.eqb (timer_id t) i) (pending s) with
      | Some t => fire t (set_pending (clearTimeout (Some i) (pending s)) s)
      | None => (s, [])
      end
  | HandshakeSucceeds now =>
      if isConnecting s then handshake_ok now s else (s, [])
  | HandshakeFails =>
      if isConnecting s then handshake_failed s else (s, [])
  | WebSocketClose =>
      if socket_listening s then
        let s' := set_keepAliveTimer false s in
        if isDestroyed s' then (s', [])
        else (mkState (reconnectDelay s') (maxReconnectDelay s') (reconnectAttempts s')
                (maxReconnectAttempts s') (isConnecting s') (isDestroyed s')
                (provider s') (reconnectTimer s') (keepAliveTimer s')
                (lastActivityTime s')
                (pending s' ++ [mkTimer (next_id s') 2000 close_timeout])
                (S (next_id s')),
              [])
      else (s, [])
  | WebSocketError =>
      if socket_listening s then
        let s' := set_keepAliveTimer false s in
        if isDestroyed s' then (s', []) else scheduleReconnect s'
      else (s, [])
  | ProviderError =>
      if provider_listening s then
        if isDestroyed s then (s, []) else scheduleReconnect s
      else (s, [])
  | Activity now =>
      if provider_listening s then (set_lastActivityTime now s, []) else (s, [])
  | ReadyStateChanges rs =>
      match provider s with
      | Some (mkProvider (Some _) l) => (set_provider (Some (mkProvider (Some rs) l)) s, [])
      | _ => (s, [])
      end
  | KeepAliveTick now ping_ok =>
      if keepAliveTimer s then keepAlive now ping_ok s else (s, [])
  | HealthCheck now =>
      if isConnected s now then (s, []) else restart s
  | Restart => restart s
  | Destroy => destroy s
  end.

(** A run: the events in order, the transitions concatenated. *)
Fixpoint run (es : list Event) (s : State) : State * list Transition :=
  match es with
  | [] => (s, [])
  | e :: r =>
      match step e s with
      | (s1, t1) =>
          match run r s1 with
          | (s2, t2) => (s2, t1 ++ t2)
          end
      end
  end.

(** The states an instance can be in. *)
Inductive reachable : State → Prop :=
| reachable_new (now : Z) : reachable (constructor now).1
| reachable_step (e : Event) (s : State) : reachable s → reachable (step e s).1.

End Conn.


(** ** Telegram markdown for Discord ([toDiscordMarkdown]) *)

Module Markdown.

(** A message as its UTF-16 code units; [*] is 42. *)
Definition star : Z := 42.

(** The characters [.] does not match: LF, CR, LS and PS. *)
Definition is_line_terminator (c : Z) : bool :=
  (c =? 10) || (c =? 13) || (c =? 8232) || (c =? 8233).

(** Whether [(.*?)\*] matches at the start of [s]: a star comes before
    any line terminator. *)
Fixpoint closes (s : list Z) : bool :=
  match s with
  | [] => false
  | c :: r =>
      if c =? star then true
      else if is_line_terminator c then false
      else closes r
  end.

(** [msg.replace(/\*(.*?)\*/g, '**$1**')], scanning from the left.  A
    star at which the pattern matches opens a match, the lazy group runs
    to the next star, and the match is replaced by its group between two
    pairs of stars; the scan goes on after the match.  A star at which
    the pattern does not match is copied.  [inside] tells that the scan
    is in the group of a match. *)
Fixpoint replace_bold (inside : bool) (s : list Z) : list Z :=
  match s with
  | [] => []
  | c :: r =>
      if c =? star then
        if inside then star :: star :: replace_bold false r
        else if closes r then star :: star :: replace_bold true r
        else c :: replace_bold false r
      else c :: replace_bold inside r
  end.

Definition toDiscordMarkdown (msg : list Z) : list Z := replace_bold false msg.

End Markdown.

(** ** Discord rate limits and currency codes *)

Module Lookup.

(** The answers of the webhook with status 429 before the one that ends
    a [postToDiscord] call. *)
Fixpoint rate_limits (sc : Async.WebhookScript) : nat :=
  match sc with
  | Async.WebhookRateLimited next => S (rate_limits next)
  | _ => O
  end.

(** The fallback of [getFiatCode], with the bytes the source file has. *)
Definition unknown_code : string := "â“ Unknown".

(** [getFiatCode(hash)]: [currencyHashToCode[hash.toLowerCase()] || ...] *)
Definition getFiatCode (hash : string) : string :=
  match JS.map_get (JS.toLowerCase hash) Tables.currencyHashToCode with
  | Some code => if JS.truthy_string code then code else unknown_code
  | None => unknown_code
  end.

(** The identifiers the contracts emit: [0x] and hexadecimal digits, in
    either case.  (The two tables are plain objects; a key such as
    [constructor] would reach [Object.prototype], which no identifier of
    this form does.) *)
Definition is_hex_digit (c : ascii) : bool :=
  let n := nat_of_ascii c in
  ((48 <=? n) && (n <=? 57) || (65 <=? n) && (n <=? 70)
   || (97 <=? n) && (n <=? 102))%nat.

Definition is_identifier (s : string) : bool :=
  match s with
  | String "0" (String x r) =>
      (Ascii.eqb x "x" || Ascii.eqb x "X") && forallb is_hex_digit (list_ascii_of_string r)
  | _ => false
  end.

End Lookup.


(** ** Writes to the subscriber store ([DatabaseManager]) *)

Module DbWrites.
Import Db.

(** The store is the list of rows of each table, with the columns the
    queries of the bot read ([status], [intent_hash] and the [updated_at]
    stamps are written only).  A query against a store that cannot be
    reached changes nothing and its error is logged. *)
Definition with_settings (l : list user_settings.row) (s : Store) : Store :=
  mkStore l (snipers s) (deposits s) (reachable s).

Definition with_snipers (l : list user_snipers.row) (s : Store) : Store :=
  mkStore (settings s) l (deposits s) (reachable s).

Definition with_deposits (l : list user_deposits.row) (s : Store) : Store :=
  mkStore (settings s) (snipers s) l (reachable s).

(** [.update(columns)] with its [.eq] filters: the rows that match take
    the columns. *)
Definition update {A : Type} (matches : A → bool) (change : A → A)
    (rows : list A) : list A :=
  (λ r, if matches r then change r else r) <$> rows.

(** [.upsert(row, { onConflict })]: a row that conflicts takes the
    columns of the given row; without one, the row is inserted, the
    columns it does not give taking their defaults. *)
Definition upsert {A : Type} (conflicts : A → bool) (change : A → A)
    (fresh : A) (rows : list A) : list A :=
  if existsb conflicts rows then update conflicts change rows
  else rows ++ [fresh].

(** What [JSON.stringify] makes of a number in the request body: [null]
    for [NaN] and the infinities, [0] for both zeros. *)
Definition json_number (x : float) : option float :=
  if PrimFloat.is_finite x
  then Some (if PrimFloat.is_zero x then 0%float else x)
  else None.

Definition tracks (chatId depositId : Z) (r : user_deposits.row) : bool :=
  bool_decide (user_deposits.chat_id r = chatId)
  && bool_decide (user_deposits.deposit_id r = depositId).

(** [addUserDeposit(chatId, depositId)] *)
Definition addUserDeposit (s : Store) (chatId depositId : Z) : Store :=
  if reachable s then
    with_deposits
      (upsert (tracks chatId depositId)
              (λ _, user_deposits.mk chatId depositId true)
              (user_deposits.mk chatId depositId true)
              (deposits s)) s
  else s.

(** [removeUserDeposit(chatId, depositId)] *)
Definition removeUserDeposit (s : Store) (chatId depositId : Z) : Store :=
  if reachable s then
    with_deposits
      (update (tracks chatId depositId)
              (λ r, user_deposits.mk (user_deposits.chat_id r)
                      (user_deposits.deposit_id r) false)
              (deposits s)) s
  else s.

(** [getUserDeposits(chatId)]: the set of the ids, in the order of the
    rows. *)
Definition getUserDeposits (s : Store) (chatId : Z) : list Z :=
  if reachable s then
    let data :=
      filter (λ r, user_deposits.chat_id r = chatId
                   ∧ user_deposits.is_active r = true) (deposits s) in
    foldl (λ acc r, JS.set_add (user_deposits.deposit_id r) acc) [] data
  else [].

(** [getUserListenAll(chatId)]: [data?.listen_all || false] *)
Definition getUserListenAll (s : Store) (chatId : Z) : bool :=
  let data :=
    if reachable s then single (active_settings s chatId) else None in
  match data with
  | Some r => user_settings.listen_all r
  | None => false
  end.

Definition of_chat (chatId : Z) (r : user_settings.row) : bool :=
  bool_decide (user_settings.chat_id r = chatId).

(** [setUserListenAll(chatId, listenAll)]; [default_threshold] is the
    default of the [threshold] column. *)
Definition setUserListenAll (default_threshold : option float)
    (s : Store) (chatId : Z) (listenAll : bool) : Store :=
  if reachable s then
    with_settings
      (upsert (of_chat chatId)
              (λ r, user_settings.mk (user_settings.chat_id r)
                      (user_settings.threshold r) listenAll true)
              (user_settings.mk chatId default_threshold listenAll true)
              (settings s)) s
  else s.

(** [setUserThreshold(chatId, threshold)]; [default_listen_all] is the
    default of the [listen_all] column. *)
Definition setUserThreshold (default_listen_all : bool)
    (s : Store) (chatId : Z) (threshold : float) : Store :=
  if reachable s then
    with_settings
      (upsert (of_chat chatId)
              (λ r, user_settings.mk (user_settings.chat_id r)
                      (json_number threshold) (user_settings.listen_all r) true)
              (user_settings.mk chatId (json_number threshold)
                 default_listen_all true)
              (settings s)) s
  else s.

(** [clearUserData(chatId)]: three updates. *)
Definition clearUserData (s : Store) (chatId : Z) : Store :=
  if reachable s then
    mkStore
      (update (of_chat chatId)
              (λ r, user_settings.mk (user_settings.chat_id r)
                      (user_settings.threshold r) (user_settings.listen_all r)
                      false)
              (settings s))
      (update (λ r, bool_decide (user_snipers.chat_id r = chatId))
              (λ r, user_snipers.mk (user_snipers.chat_id r)
                      (user_snipers.currency r) (user_snipers.platform r)
                      (user_snipers.created_at r) false)
              (snipers s))
      (update (λ r, bool_decide (user_deposits.chat_id r = chatId))
              (λ r, user_deposits.mk (user_deposits.chat_id r)
                      (user_deposits.deposit_id r) false)
              (deposits s))
      (reachable s)
  else s.

(** [setUserSniper(chatId, currency, platform)] at the time [now]: the
    store and the returned flag. *)
Definition setUserSniper (s : Store) (now : Z) (chatId : Z)
    (currency : string) (platform : option string) : Store * bool :=
  if reachable s then
    (with_snipers
       (snipers s
        ++ [user_snipers.mk chatId (JS.toUpperCase currency)
              (match platform with
               | Some p => if JS.truthy_string p
                           then Some (JS.toLowerCase p) else None
               | None => None
               end)
              now true]) s,
     true)
  else (s, false).

(** The filters of the [removeUserSniper] update. *)
Definition unsnipe_query (chatId : Z) (currency platform : option string)
    (r : user_snipers.row) : bool :=
  bool_decide (user_snipers.chat_id r = chatId)
  && match currency with
     | Some c =>
         if JS.truthy_string c
         then bool_decide (user_snipers.currency r = JS.toUpperCase c)
         else true
     | None => true
     end
  && match platform with
     | Some p =>
         if JS.truthy_string p
         then bool_decide (user_snipers.platform r = Some (JS.toLowerCase p))
         else true
     | None => true
     end.

(** [removeUserSniper(chatId, currency, platform)] *)
Definition removeUserSniper (s : Store) (chatId : Z)
    (currency platform : option string) : Store :=
  if reachable s then
    with_snipers
      (update (unsnipe_query chatId currency platform)
              (λ r, user_snipers.mk (user_snipers.chat_id r)
                      (user_snipers.currency r) (user_snipers.platform r)
                      (user_snipers.created_at r) false)
              (snipers s)) s
  else s.

End DbWrites.


(** ** Deposit amounts ([storeDepositAmount], [getDepositAmount]) *)

Module Amounts.

(** Key equality of a [Map] on numbers (SameValueZero): equal as numbers,
    or both [NaN]. *)
Definition same_value_zero (a b : float) : bool :=
  PrimFloat.eqb a b || (PrimFloat.is_nan a && PrimFloat.is_nan b).

(** [depositAmounts], in insertion order. *)
Fixpoint amounts_get (k : float) (m : list (float * float)) : option float :=
  match m with
  | [] => None
  | (k', v) :: r => if same_value_zero k k' then Some v else amounts_get k r
  end.

Fixpoint amounts_set (k v : float) (m : list (float * float))
  : list (float * float) :=
  match m with
  | [] => [(k, v)]
  | (k', v') :: r =>
      if same_value_zero k k' then (k', v) :: r else (k', v') :: amounts_set k v r
  end.

(** What the [deposit_amounts] query of [getDepositAmount] gives: an
    error (no row, several rows, store out of reach) or the [amount] of
    the row. *)
Inductive AmountAnswer : Type :=
| AmountError
| AmountRow (amount : option float).

(** [storeDepositAmount(depositId, amount)] on the map, as the handlers
    call it: both arguments are numbers already.  The upsert into the
    table is awaited after the map is set, and its error is logged. *)
Definition storeDepositAmount (depositId amount : float)
    (depositAmounts : list (float * float)) : list (float * float) :=
  amounts_set depositId amount depositAmounts.

(** [getDepositAmount(depositId)] *)
Definition getDepositAmount (depositAmounts : list (float * float))
    (answer : AmountAnswer) (depositId : float) : float :=
  let fallback :=
    match answer with
    | AmountError => 0%float
    | AmountRow amount => JS.or_default amount 0
    end in
  match amounts_get depositId depositAmounts with
  | Some memoryAmount => if JS.truthy memoryAmount then memoryAmount else fallback
  | None => fallback
  end.

(** The [try { ... } catch (err) { ... }] around the body of a handler:
    a rejection is logged and the handler returns. *)
Definition caught (body : Async.M unit) : Async.M unit := λ w,
  match body w with
  | (e, w', _) => (e, w', Async.Returned ())
  end.

(** The [DepositCurrencyRateUpdated] and [DepositConversionRateUpdated]
    branches of [handleContractEvent]: the sniper check runs when the
    amount is positive. *)
Definition handleRateUpdated (env : Async.Env)
    (depositAmounts : list (float * float)) (answer : AmountAnswer)
    (depositId : Z) (currency : string) (conversionRate : Z) (verifier : string)
  : Async.M unit :=
  caught
    (let depositAmount :=
       getDepositAmount depositAmounts answer (JS.Number depositId) in
     if PrimFloat.ltb 0 depositAmount
     then Sniper.checkSniperOpportunity env depositId depositAmount currency
            conversionRate verifier
     else mret ()).

(** The [DepositCurrencyAdded] branch: the check runs whatever the
    amount. *)
Definition handleCurrencyAdded (env : Async.Env)
    (depositAmounts : list (float * float)) (answer : AmountAnswer)
    (depositId : Z) (currency : string) (conversionRate : Z) (verifier : string)
  : Async.M unit :=
  caught
    (let depositAmount :=
       getDepositAmount depositAmounts answer (JS.Number depositId) in
     Sniper.checkSniperOpportunity env depositId depositAmount currency
       conversionRate verifier).

End Amounts.

(** ** The details of signaled intents *)

Module Signals.
Import Async Pending.

(** What the [IntentSignaled] branch of [handleOrchestratorEvent] stores
    before its first [await]: the details of the intent in
    [orchestratorIntentDetails] and, for the sniper logic, in
    [intentDetails], both under the hash in lower case. *)
Definition recordOrchestratorSignal (intentHash : string)
    (details : OrchestratorIntentDetails) (w : World) : World :=
  let intentHashLower := JS.toLowerCase intentHash in
  set_intentDetails
    (<[intentHashLower :=
         mkIntentDetails (od_fiatCurrency details) (od_conversionRate details)
                         (od_escrow details)]> (intentDetails w))
    (set_orchestratorIntentDetails
       (<[intentHashLower := details]> (orchestratorIntentDetails w)) w).

(** The store after the three awaited writes of [initializeBot]; the
    [users] table of [initUser] is not among the tables the queries
    read. *)
Definition initializeBot_writes (default_threshold : option float)
    (default_listen_all : bool) (s : Db.Store) : Db.Store :=
  DbWrites.setUserThreshold default_listen_all
    (DbWrites.setUserListenAll default_threshold s Tables.ZKP2P_GROUP_ID true)
    Tables.ZKP2P_GROUP_ID 0.1.

End Signals.


(** ** The snipers of a chat ([getUserSnipers]) *)

Module SniperList.
Import Db.

(** The filters of the query: the rows of the chat that are active and
    of the last thirty days. *)
Definition own_query (thirtyDaysAgo chatId : Z) (r : user_snipers.row) : bool :=
  bool_decide (user_snipers.chat_id r = chatId)
  && user_snipers.is_active r
  && bool_decide (thirtyDaysAgo ≤ user_snipers.created_at r).

(** The rows come ordered by [created_at], newest first; the order of
    rows of the same instant is up to the store. *)
Fixpoint newest_first (data : list user_snipers.row) : Prop :=
  match data with
  | [] => True
  | r :: rest =>
      Forall (λ b, user_snipers.created_at b ≤ user_snipers.created_at r) rest
      ∧ newest_first rest
  end.

Definition answers (s : Store) (thirtyDaysAgo chatId : Z)
    (data : list user_snipers.row) : Prop :=
  data ≡ₚ List.filter (own_query thirtyDaysAgo chatId) (snipers s)
  ∧ newest_first data.

(** [`${row.currency}-${row.platform ?? 'all'}`] *)
Definition combo (row : user_snipers.row) : string :=
  user_snipers.currency row +:+ "-"
    +:+ default "all" (user_snipers.platform row).

(** The body of the [forEach]. *)
Definition keep_combo (unique : list (string * user_snipers.row))
    (row : user_snipers.row) : list (string * user_snipers.row) :=
  match JS.map_get (combo row) unique with
  | Some existing =>
      if bool_decide (user_snipers.created_at existing < user_snipers.created_at row)
      then JS.map_set (combo row) row unique
      else unique
  | None => JS.map_set (combo row) row unique
  end.

(** [getUserSnipers(chatId)] on the answer [data] of its query; an
    error gives the empty list. *)
Definition getUserSnipers (s : Store) (data : list user_snipers.row)
  : list user_snipers.row :=
  if reachable s then (foldl keep_combo [] data).*2 else [].

End SniperList.


(** * Properties *)

(** ** Rate cache *)

Module RateCacheFacts.
Import RateCache.

(** A read of the general slot inside the freshness window of the fetch
    at [t0]; reads of the other slot are not constrained. *)
Definition rates_read_within (t0 : Z) (r : Read) : Prop :=
  match r with
  | ReadRates now _ => now - t0 < RATES_CACHE_DURATION
  | ReadARS _ _ => True
  end.

Definition ars_read_within (t0 : Z) (r : Read) : Prop :=
  match r with
  | ReadARS now _ => now - t0 < ARS_CACHE_DURATION
  | ReadRates _ _ => True
  end.

(** What a cached read of the general slot looks like in the output of
    [reads]; a read of the other slot never sends a general request. *)
Definition rates_served (rates : gmap string float) (o : ReadResult * list Request) : Prop :=
  match o with
  | (RatesResult v, reqs) => v = Some rates ∧ reqs = []
  | (ARSResult _, reqs) => GET_exchange_api ∉ reqs
  end.

Definition ars_served (rate : float) (o : ReadResult * list Request) : Prop :=
  match o with
  | (ARSResult v, reqs) => v = Some rate ∧ reqs = []
  | (RatesResult _, reqs) => GET_criptoya ∉ reqs
  end.

Lemma getARSRate_keeps_rates now resp c :
  exchangeRatesCache (getARSRate now resp c).1.2 = exchangeRatesCache c
  ∧ lastRatesFetch (getARSRate now resp c).1.2 = lastRatesFetch c
  ∧ GET_exchange_api ∉ (getARSRate now resp c).2.
Proof.
  unfold getARSRate, ars_fresh, ars_refresh, ars_settle.
  destruct (_ && _); [split_and!; [done..|apply not_elem_of_nil]|].
  destruct resp as [|[ask|] [bid|]]; simpl;
    try (split_and!; [done..|by intros ?%list_elem_of_singleton]).
  destruct (_ && _); simpl; split_and!; try done;
    by intros ?%list_elem_of_singleton.
Qed.

Lemma getExchangeRates_keeps_ars now resp c :
  arsRateCache (getExchangeRates now resp c).1.2 = arsRateCache c
  ∧ lastARSFetch (getExchangeRates now resp c).1.2 = lastARSFetch c
  ∧ GET_criptoya ∉ (getExchangeRates now resp c).2.
Proof.
  unfold getExchangeRates, rates_fresh, exchange_refresh, exchange_settle.
  destruct (_ && _); [split_and!; [done..|apply not_elem_of_nil]|].
  destruct resp as [|[] r]; simpl; split_and!; try done;
    by intros ?%list_elem_of_singleton.
Qed.

Lemma getExchangeRates_cached now resp c rates :
  exchangeRatesCache c = Some rates →
  now - lastRatesFetch c < RATES_CACHE_DURATION →
  getExchangeRates now resp c = (Some rates, c, []).
Proof.
  intros Hc Hw. unfold getExchangeRates, rates_fresh. rewrite Hc.
  rewrite !bool_decide_eq_true_2; [done|done|by eexists].
Qed.

Lemma getARSRate_cached now resp c rate :
  arsRateCache c = Some rate → JS.truthy rate = true →
  now - lastARSFetch c < ARS_CACHE_DURATION →
  getARSRate now resp c = (Some rate, c, []).
Proof.
  intros Hc Ht Hw. unfold getARSRate, ars_fresh. rewrite Hc. simpl. rewrite Ht.
  by rewrite bool_decide_eq_true_2.
Qed.

Lemma getExchangeRates_expired now resp c :
  RATES_CACHE_DURATION ≤ now - lastRatesFetch c →
  (getExchangeRates now resp c).2 = [GET_exchange_api].
Proof.
  intros Hw. unfold getExchangeRates, rates_fresh.
  rewrite (bool_decide_eq_false_2 (now - _ < _)); [|lia].
  rewrite andb_false_r. unfold exchange_refresh, exchange_settle.
  by destruct resp as [|[] r].
Qed.

Lemma getARSRate_expired now resp c :
  ARS_CACHE_DURATION ≤ now - lastARSFetch c →
  (getARSRate now resp c).2 = [GET_criptoya].
Proof.
  intros Hw. unfold getARSRate, ars_fresh.
  rewrite (bool_decide_eq_false_2 (now - _ < _)); [|lia].
  rewrite andb_false_r. unfold ars_refresh, ars_settle.
  destruct resp as [|[ask|] [bid|]]; try done. by destruct (_ && _).
Qed.

(** A read that fetched and returned a table stored it with its time. *)
Lemma getExchangeRates_fetched now resp c rates c1 :
  getExchangeRates now resp c = (Some rates, c1, [GET_exchange_api]) →
  exchangeRatesCache c1 = Some rates ∧ lastRatesFetch c1 = now.
Proof.
  unfold getExchangeRates, rates_fresh, exchange_refresh, exchange_settle.
  destruct (_ && _); [intros [= _ _]|].
  destruct resp as [|[] r]; intros [= ? ?]; by subst.
Qed.

Lemma getARSRate_fetched now resp c rate c1 :
  getARSRate now resp c = (Some rate, c1, [GET_criptoya]) →
  arsRateCache c1 = Some rate ∧ lastARSFetch c1 = now.
Proof.
  unfold getARSRate, ars_fresh, ars_refresh, ars_settle.
  destruct (_ && _); [intros [= _ _]|].
  destruct resp as [|[ask|] [bid|]]; try (intros [= ? ?]; done).
  destruct (_ && _); intros [= ? ?]; by subst.
Qed.

(** Reads inside the window leave the general slot as the fetch left it
    and are all served from it. *)
Lemma reads_within_rates t0 rates rs : ∀ c,
  exchangeRatesCache c = Some rates → lastRatesFetch c = t0 →
  Forall (rates_read_within t0) rs →
  Forall (rates_served rates) (reads rs c).1
  ∧ exchangeRatesCache (reads rs c).2 = Some rates
  ∧ lastRatesFetch (reads rs c).2 = t0.
Proof.
  induction rs as [|r rs IH]; intros c Hc Ht Hall; simpl; [by split_and!|].
  inversion Hall as [|? ? Hr Hrs]; subst.
  destruct r as [now resp|now resp]; simpl in *.
  - rewrite (getExchangeRates_cached now resp c rates) by done.
    destruct (IH c Hc eq_refl Hrs) as (IH1 & IH2 & IH3).
    destruct (reads rs c) as [out c2]; simpl in *.
    split_and!; try done. by constructor.
  - destruct (getARSRate_keeps_rates now resp c) as (K1 & K2 & K3).
    destruct (getARSRate now resp c) as [[v c1] reqs]; simpl in *.
    destruct (IH c1) as (IH1 & IH2 & IH3); [congruence..|done|].
    destruct (reads rs c1) as [out c2]; simpl in *.
    split_and!; try done. by constructor.
Qed.

Lemma reads_within_ars t0 rate rs : ∀ c,
  arsRateCache c = Some rate → JS.truthy rate = true → lastARSFetch c = t0 →
  Forall (ars_read_within t0) rs →
  Forall (ars_served rate) (reads rs c).1
  ∧ arsRateCache (reads rs c).2 = Some rate
  ∧ lastARSFetch (reads rs c).2 = t0.
Proof.
  induction rs as [|r rs IH]; intros c Hc Htr Ht Hall; simpl; [by split_and!|].
  inversion Hall as [|? ? Hr Hrs]; subst.
  destruct r as [now resp|now resp]; simpl in *.
  - destruct (getExchangeRates_keeps_ars now resp c) as (K1 & K2 & K3).
    destruct (getExchangeRates now resp c) as [[v c1] reqs]; simpl in *.
    destruct (IH c1) as (IH1 & IH2 & IH3); [congruence|done|congruence|done|].
    destruct (reads rs c1) as [out c2]; simpl in *.
    split_and!; try done. by constructor.
  - rewrite (getARSRate_cached now resp c rate) by done.
    destruct (IH c Hc Htr eq_refl Hrs) as (IH1 & IH2 & IH3).
    destruct (reads rs c) as [out c2]; simpl in *.
    split_and!; try done. by constructor.
Qed.

(** *** Calls that overlap *)

Lemma run_app es1 es2 s :
  run (es1 ++ es2) s
  = ((run es2 (run es1 s).1).1, (run es1 s).2 ++ (run es2 (run es1 s).1).2).
Proof.
  revert s. induction es1 as [|e es1 IH]; intros s; simpl.
  - by destruct (run es2 s).
  - destruct (step e s) as [s1 o]. rewrite IH.
    destruct (run es1 s1) as [s2 o2]; simpl.
    destruct (run es2 s2) as [s3 o3]; simpl. by rewrite app_assoc.
Qed.

(** What a read that is not overlapped shows, step by step. *)
Definition outputs_of (id : nat) (o : ReadResult * list Request) : list Output :=
  (Sends id <$> o.2) ++ [Returns id o.1].

Fixpoint outputs_from (id : nat) (os : list (ReadResult * list Request))
  : list Output :=
  match os with
  | [] => []
  | o :: rest => outputs_of id o ++ outputs_from (S id) rest
  end.

Lemma schedule_of_run id r c :
  run (schedule_of id r) (idle c)
  = (idle (read r c).1.2, outputs_of id ((read r c).1.1, (read r c).2)).
Proof.
  destruct r as [now resp|now resp]; simpl.
  - unfold getExchangeRates, exchange_refresh.
    destruct (rates_fresh now c); simpl; [done|].
    rewrite lookup_insert_eq.
    destruct (exchange_settle now resp c) as [v c']; simpl.
    unfold idle. by rewrite delete_insert_id.
  - unfold getARSRate, ars_refresh.
    destruct (ars_fresh now c); simpl; [done|].
    rewrite lookup_insert_eq.
    destruct (ars_settle now resp c) as [v c']; simpl.
    unfold idle. by rewrite delete_insert_id.
Qed.

(** Reads that do not overlap are the run of their schedule: the same
    values, the same requests, the same cache. *)
Lemma sequential_run rs : ∀ id c,
  run (sequential id rs) (idle c)
  = (idle (reads rs c).2, outputs_from id (reads rs c).1).
Proof.
  induction rs as [|r rs IH]; intros id c; [done|].
  change (sequential id (r :: rs)) with (schedule_of id r ++ sequential (S id) rs).
  rewrite run_app, schedule_of_run. simpl.
  rewrite IH.
  destruct (read r c) as [[v c1] reqs]; simpl.
  by destruct (reads rs c1) as [out c2].
Qed.

(** An answer that overwrites the general slot, or the ARS slot. *)
Definition stores_rates (e : Event) : bool :=
  match e with
  | AnswerRates _ (ExchangeJson true _) => true
  | _ => false
  end.

Definition stores_ars (e : Event) : bool :=
  match e with
  | AnswerARS _ (ArsJson (Some ask) (Some bid)) => JS.truthy ask && JS.truthy bid
  | _ => false
  end.

Lemma step_keeps_rates e s :
  stores_rates e = false →
  exchangeRatesCache (cache (step e s).1) = exchangeRatesCache (cache s)
  ∧ lastRatesFetch (cache (step e s).1) = lastRatesFetch (cache s).
Proof.
  destruct e as [id now|id resp|id now|id resp]; simpl; intros Hs.
  - by destruct (rates_fresh now (cache s)).
  - destruct (rates_calls s !! id) as [now|]; [|done].
    unfold exchange_settle. by destruct resp as [|[] r].
  - by destruct (ars_fresh now (cache s)).
  - destruct (ars_calls s !! id) as [now|]; [|done].
    unfold ars_settle. destruct resp as [|[ask|] [bid|]]; try done.
    by destruct (_ && _).
Qed.

Lemma step_keeps_ars e s :
  stores_ars e = false →
  arsRateCache (cache (step e s).1) = arsRateCache (cache s)
  ∧ lastARSFetch (cache (step e s).1) = lastARSFetch (cache s).
Proof.
  destruct e as [id now|id resp|id now|id resp]; simpl; intros Hs.
  - by destruct (rates_fresh now (cache s)).
  - destruct (rates_calls s !! id) as [now|]; [|done].
    unfold exchange_settle. by destruct resp as [|[] r].
  - by destruct (ars_fresh now (cache s)).
  - destruct (ars_calls s !! id) as [now|]; [|done].
    unfold ars_settle. destruct resp as [|[ask|] [bid|]]; try done.
    by rewrite Hs.
Qed.

Lemma run_keeps_rates es : ∀ s,
  Forall (λ e, stores_rates e = false) es →
  exchangeRatesCache (cache (run es s).1) = exchangeRatesCache (cache s)
  ∧ lastRatesFetch (cache (run es s).1) = lastRatesFetch (cache s).
Proof.
  induction es as [|e es IH]; intros s Hall; [done|].
  inversion Hall as [|? ? He Hes]; subst. simpl.
  destruct (step_keeps_rates e s He) as [H1 H2].
  destruct (step e s) as [s1 o]; simpl in *.
  destruct (IH s1 Hes) as [H3 H4].
  destruct (run es s1) as [s2 o2]; simpl in *. split; congruence.
Qed.

Lemma run_keeps_ars es : ∀ s,
  Forall (λ e, stores_ars e = false) es →
  arsRateCache (cache (run es s).1) = arsRateCache (cache s)
  ∧ lastARSFetch (cache (run es s).1) = lastARSFetch (cache s).
Proof.
  induction es as [|e es IH]; intros s Hall; [done|].
  inversion Hall as [|? ? He Hes]; subst. simpl.
  destruct (step_keeps_ars e s He) as [H1 H2].
  destruct (step e s) as [s1 o]; simpl in *.
  destruct (IH s1 Hes) as [H3 H4].
  destruct (run es s1) as [s2 o2]; simpl in *. split; congruence.
Qed.

(** Reads that do not overlap, after a read that fetched at [t0]. *)
Lemma reads_window_rates c t0 resp rates c1 rs :
  getExchangeRates t0 resp c = (Some rates, c1, [GET_exchange_api]) →
  Forall (rates_read_within t0) rs →
  Forall (rates_served rates) (reads rs c1).1
  ∧ ∀ now resp', RATES_CACHE_DURATION ≤ now - t0 →
      (getExchangeRates now resp' (reads rs c1).2).2 = [GET_exchange_api].
Proof.
  intros Hfetch Hrs.
  destruct (getExchangeRates_fetched _ _ _ _ _ Hfetch) as [Hc Ht].
  destruct (reads_within_rates t0 rates rs c1 Hc Ht Hrs) as (H1 & H2 & H3).
  split; [done|]. intros now resp' Hexp.
  apply getExchangeRates_expired. by rewrite H3.
Qed.

Lemma reads_window_ars c t0 resp rate c1 rs :
  getARSRate t0 resp c = (Some rate, c1, [GET_criptoya]) →
  JS.truthy rate = true →
  Forall (ars_read_within t0) rs →
  Forall (ars_served rate) (reads rs c1).1
  ∧ ∀ now resp', ARS_CACHE_DURATION ≤ now - t0 →
      (getARSRate now resp' (reads rs c1).2).2 = [GET_criptoya].
Proof.
  intros Hfetch Htr Hrs.
  destruct (getARSRate_fetched _ _ _ _ _ Hfetch) as [Hc Ht].
  destruct (reads_within_ars t0 rate rs c1 Hc Htr Ht Hrs) as (H1 & H2 & H3).
  split; [done|]. intros now resp' Hexp.
  apply getARSRate_expired. by rewrite H3.
Qed.

(** C5 as it stands: once the fetch of a call has succeeded, a call that
    starts within 60000 ms of the time that call read from the clock is
    served from the cache and sends no request, whatever else is in
    flight. *)
Definition served_inside_the_window : Prop :=
  ∀ (before after : list Event) (id : nat) (t0 : Z)
    (rates : gmap string float) (j : nat) (now : Z),
    let s := (run before (idle initial)).1 in
    rates_calls s !! id = Some t0 →
    let s' := (run (AnswerRates id (ExchangeJson true (Some rates)) :: after) s).1 in
    t0 ≤ now → now - t0 < RATES_CACHE_DURATION →
    ∃ v, (step (CallRates j now) s').2 = [Returns j (RatesResult (Some v))].

Definition older_rates : gmap string float := {[ "EUR" := 0.91%float ]}.
Definition newer_rates : gmap string float := {[ "EUR" := 0.92%float ]}.

(** C5 does not hold as stated: call 1 starts at 0 and call 2 at 10,
    both send a request; the answer to call 2 arrives first and is
    stored with the time 10, then the answer to call 1 arrives and is
    stored with the time 0.  A call at 60005, less than 60000 ms after
    the fetch of call 2, finds the slot expired and sends a request. *)
Lemma late_answer_restamps_the_cache : ¬ served_inside_the_window.
Proof.
  intros H.
  destruct (H [CallRates 1 0; CallRates 2 10]
              [AnswerRates 1 (ExchangeJson true (Some older_rates))]
              2%nat 10 newer_rates 3%nat 60005
              ltac:(reflexivity) ltac:(lia) ltac:(vm_compute; reflexivity))
    as [v Hv].
  vm_compute in Hv. discriminate.
Qed.

(** C5.  After the answer to a call that fetched at [t0] is stored, and
    until another answer is stored in the same slot, every call of that
    slot with [now - t0 < 60000] returns the fetched value at once and
    sends no request, and a call with [now - t0 >= 60000] sends one
    request and returns nothing before its answer, whatever calls and
    answers of the other slot and whatever failed answers come in
    between.  When the reads do not overlap no other answer can be
    stored inside the window: every read of the slot with
    [now - t0 < 60000] after a read that fetched at [t0] returns that
    value without a request, and the first one after the window sends
    exactly one.  This holds for the general table and for the ARS rate
    (for a mid price other than 0 and [NaN]). *)
Theorem cache_window_one_fetch :
  (∀ s id t0 rates es j now,
      rates_calls s !! id = Some t0 →
      Forall (λ e, stores_rates e = false) es →
      (step (CallRates j now)
            (run (AnswerRates id (ExchangeJson true (Some rates)) :: es) s).1).2
      = if bool_decide (now - t0 < RATES_CACHE_DURATION)
        then [Returns j (RatesResult (Some rates))]
        else [Sends j GET_exchange_api])
  ∧ (∀ s id t0 ask bid es j now,
      ars_calls s !! id = Some t0 →
      (JS.truthy ask && JS.truthy bid)%bool = true →
      JS.truthy (ars_mid ask bid) = true →
      Forall (λ e, stores_ars e = false) es →
      (step (CallARS j now)
            (run (AnswerARS id (ArsJson (Some ask) (Some bid)) :: es) s).1).2
      = if bool_decide (now - t0 < ARS_CACHE_DURATION)
        then [Returns j (ARSResult (Some (ars_mid ask bid)))]
        else [Sends j GET_criptoya])
  ∧ (∀ c t0 resp rates c1 rs,
      getExchangeRates t0 resp c = (Some rates, c1, [GET_exchange_api]) →
      Forall (rates_read_within t0) rs →
      Forall (rates_served rates) (reads rs c1).1
      ∧ ∀ now resp', RATES_CACHE_DURATION ≤ now - t0 →
          (getExchangeRates now resp' (reads rs c1).2).2 = [GET_exchange_api])
  ∧ (∀ c t0 resp rate c1 rs,
      getARSRate t0 resp c = (Some rate, c1, [GET_criptoya]) →
      JS.truthy rate = true →
      Forall (ars_read_within t0) rs →
      Forall (ars_served rate) (reads rs c1).1
      ∧ ∀ now resp', ARS_CACHE_DURATION ≤ now - t0 →
          (getARSRate now resp' (reads rs c1).2).2 = [GET_criptoya]).
Proof.
  split_and!.
  - intros s id t0 rates es j now Hid Hes.
    change (run (?e :: es) s) with
      (match step e s with
       | (s1, out) => match run es s1 with (s2, outs) => (s2, out ++ outs) end
       end).
    cbn [step]. rewrite Hid. cbn [exchange_settle].
    set (s1 := mkInFlight _ _ _).
    destruct (run_keeps_rates es s1 Hes) as [H1 H2].
    destruct (run es s1) as [s2 o2]; simpl in *.
    unfold rates_fresh. rewrite H1, H2.
    rewrite (bool_decide_eq_true_2 (is_Some (Some rates))) by by eexists.
    simpl. by destruct (bool_decide (now - t0 < RATES_CACHE_DURATION)).
  - intros s id t0 ask bid es j now Hid Hab Hmid Hes.
    change (run (?e :: es) s) with
      (match step e s with
       | (s1, out) => match run es s1 with (s2, outs) => (s2, out ++ outs) end
       end).
    cbn [step]. rewrite Hid. cbn [ars_settle]. rewrite Hab.
    set (s1 := mkInFlight _ _ _).
    destruct (run_keeps_ars es s1 Hes) as [H1 H2].
    destruct (run es s1) as [s2 o2]; simpl in *.
    unfold ars_fresh. rewrite H1, H2. simpl. rewrite Hmid. simpl.
    by destruct (bool_decide (now - t0 < ARS_CACHE_DURATION)).
  - apply reads_window_rates.
  - apply reads_window_ars.
Qed.


Definition sample_rates : gmap string float := {[ "EUR" := 0.92%float ]}.

Definition sample_reads : list Read :=
  [ReadRates 2000 ExchangeRejects; ReadARS 2500 ArsRejects;
   ReadRates 60999 (ExchangeJson true None)].

Definition sample_ars_reads : list Read :=
  [ReadARS 2000 ArsRejects; ReadRates 2500 ExchangeRejects;
   ReadARS 60999 (ArsJson None None)].

(** Call 1 fetched at 1000 and its answer is stored while a call of the
    other slot is in flight. *)
Definition one_fetching : InFlight :=
  mkInFlight initial {[ 1%nat := 1000 ]} {[ 2%nat := 1500 ]}.

Definition while_fresh : list Event :=
  [AnswerARS 2 ArsRejects; CallRates 3 2000; AnswerRates 9 ExchangeRejects;
   CallARS 4 2500].

Lemma cache_window_one_fetch_witness :
  ((step (CallRates 5 60999)
         (run (AnswerRates 1 (ExchangeJson true (Some sample_rates)) :: while_fresh)
              one_fetching).1).2
   = [Returns 5 (RatesResult (Some sample_rates))]
   ∧ (step (CallRates 5 61000)
           (run (AnswerRates 1 (ExchangeJson true (Some sample_rates)) :: while_fresh)
                one_fetching).1).2
     = [Sends 5 GET_exchange_api])
  ∧ (Forall (rates_served sample_rates)
       (reads sample_reads (mkCache (Some sample_rates) 1000 None 0)).1
     ∧ ∀ now resp', RATES_CACHE_DURATION ≤ now - 1000 →
         (getExchangeRates now resp'
            (reads sample_reads (mkCache (Some sample_rates) 1000 None 0)).2).2
         = [GET_exchange_api])
  ∧ (Forall (ars_served 1300%float)
       (reads sample_ars_reads (mkCache None 0 (Some 1300%float) 1000)).1
     ∧ ∀ now resp', ARS_CACHE_DURATION ≤ now - 1000 →
         (getARSRate now resp'
            (reads sample_ars_reads (mkCache None 0 (Some 1300%float) 1000)).2).2
         = [GET_criptoya]).
Proof.
  assert (Forall (λ e, stores_rates e = false) while_fresh) as Hes
    by (repeat constructor).
  split; [split|split].
  - exact (proj1 cache_window_one_fetch one_fetching 1%nat 1000 sample_rates
             while_fresh 5%nat 60999 eq_refl Hes).
  - exact (proj1 cache_window_one_fetch one_fetching 1%nat 1000 sample_rates
             while_fresh 5%nat 61000 eq_refl Hes).
  - apply (proj1 (proj2 (proj2 cache_window_one_fetch)) initial 1000
             (ExchangeJson true (Some sample_rates))).
    + reflexivity.
    + repeat (constructor; [vm_compute; done|]). constructor.
  - apply (proj2 (proj2 (proj2 cache_window_one_fetch)) initial 1000
             (ArsJson (Some 1310%float) (Some 1290%float))).
    + reflexivity.
    + reflexivity.
    + repeat (constructor; [vm_compute; done|]). constructor.
Defined.

(** A response that does not yield a rate. *)
Definition exchange_failure (resp : ExchangeResponse) : Prop :=
  match resp with
  | ExchangeJson true (Some _) => False
  | _ => True
  end.

Definition ars_failure (resp : ArsResponse) : Prop :=
  match resp with
  | ArsJson (Some ask) (Some bid) => (JS.truthy ask && JS.truthy bid)%bool = false
  | _ => True
  end.

(** A refresh that fails returns [null] (or [undefined]), whatever the
    cache held. *)
Lemma getExchangeRates_failed_refresh now resp c :
  exchangeRatesCache c = None ∨ RATES_CACHE_DURATION ≤ now - lastRatesFetch c →
  exchange_failure resp →
  (getExchangeRates now resp c).1.1 = None
  ∧ (getExchangeRates now resp c).2 = [GET_exchange_api].
Proof.
  intros Hexp Hfail. unfold getExchangeRates, rates_fresh.
  assert ((bool_decide (is_Some (exchangeRatesCache c))
           && bool_decide (now - lastRatesFetch c < RATES_CACHE_DURATION))%bool
          = false) as ->.
  { destruct Hexp as [->|Hexp].
    - rewrite bool_decide_eq_false_2; [done|]. by intros [? ?].
    - rewrite (bool_decide_eq_false_2 (now - _ < _)); [|lia].
      apply andb_false_r. }
  unfold exchange_refresh, exchange_settle. by destruct resp as [|[] [r|]].
Qed.

Lemma getARSRate_failed_refresh now resp c :
  JS.truthy_opt (arsRateCache c) = false
  ∨ ARS_CACHE_DURATION ≤ now - lastARSFetch c →
  ars_failure resp →
  (getARSRate now resp c).1.1 = None
  ∧ (getARSRate now resp c).2 = [GET_criptoya].
Proof.
  intros Hexp Hfail. unfold getARSRate, ars_fresh.
  assert ((JS.truthy_opt (arsRateCache c)
           && bool_decide (now - lastARSFetch c < ARS_CACHE_DURATION))%bool
          = false) as ->.
  { destruct Hexp as [->|Hexp]; [done|].
    rewrite (bool_decide_eq_false_2 (now - _ < _)); [|lia].
    apply andb_false_r. }
  unfold ars_refresh, ars_settle. destruct resp as [|[ask|] [bid|]]; try done.
  simpl in Hfail. by rewrite Hfail.
Qed.

(** A returned value is the cached one inside its window, or the one
    fetched by this very read. *)
Lemma getExchangeRates_never_stale now resp c v c1 reqs :
  getExchangeRates now resp c = (Some v, c1, reqs) →
  (reqs = [] ∧ exchangeRatesCache c = Some v
   ∧ now - lastRatesFetch c < RATES_CACHE_DURATION)
  ∨ (reqs = [GET_exchange_api] ∧ resp = ExchangeJson true (Some v)
     ∧ lastRatesFetch c1 = now).
Proof.
  unfold getExchangeRates, rates_fresh.
  destruct (bool_decide (is_Some _)) eqn:E1; simpl.
  - destruct (bool_decide (now - _ < _)) eqn:E2.
    + intros [= ? ? ?]; subst. left. by apply bool_decide_eq_true in E2.
    + unfold exchange_refresh, exchange_settle.
      destruct resp as [|[] r]; intros [= ? ? ?]; subst.
      by right.
  - unfold exchange_refresh, exchange_settle.
    destruct resp as [|[] r]; intros [= ? ? ?]; subst.
    by right.
Qed.

Lemma getARSRate_never_stale now resp c v c1 reqs :
  getARSRate now resp c = (Some v, c1, reqs) →
  (reqs = [] ∧ arsRateCache c = Some v
   ∧ now - lastARSFetch c < ARS_CACHE_DURATION)
  ∨ (reqs = [GET_criptoya] ∧ (∃ ask bid, resp = ArsJson (Some ask) (Some bid)
                                         ∧ v = ars_mid ask bid)
     ∧ lastARSFetch c1 = now).
Proof.
  unfold getARSRate, ars_fresh.
  destruct (JS.truthy_opt _) eqn:E1; simpl.
  - destruct (bool_decide (now - _ < _)) eqn:E2.
    + intros [= ? ? ?]; subst. left. by apply bool_decide_eq_true in E2.
    + unfold ars_refresh, ars_settle. destruct resp as [|[ask|] [bid|]]; try done.
      destruct (_ && _); intros [= ? ? ?]; subst. right.
      split_and!; [done|by eexists _, _|done].
  - unfold ars_refresh, ars_settle. destruct resp as [|[ask|] [bid|]]; try done.
    destruct (_ && _); intros [= ? ? ?]; subst. right.
      split_and!; [done|by eexists _, _|done].
Qed.

End RateCacheFacts.

(** ** Subscriber thresholds *)

Module ThresholdFacts.
Import Async.

Lemma or_default_truthy (x : option float) (d : float) :
  JS.truthy d = true → JS.truthy (JS.or_default x d) = true.
Proof.
  intros Hd. destruct x as [v|]; simpl; [|done].
  by destruct (JS.truthy v) eqn:E.
Qed.

Lemma truthy_not_zero (x : float) :
  JS.truthy x = true → PrimFloat.eqb x 0 = false.
Proof.
  unfold JS.truthy. destruct (PrimFloat.eqb x 0); [done|done].
Qed.

Lemma zero_not_truthy (x : float) :
  PrimFloat.eqb x 0 = true → JS.truthy x = false.
Proof. unfold JS.truthy. by intros ->. Qed.

(** C9.  [getUserThreshold] reads the threshold of the single active row
    of the chat and returns it when it is a number other than 0 and
    [NaN]; in every other case it answers 0.2: when the read fails, when
    the chat has no active row or several, when the row has no threshold
    and also when the stored threshold is zero.  Its answer is never
    zero, so [checkSniperOpportunity] never compares against a threshold
    of 0: a subscriber whose stored threshold is 0 gets no alert for a
    difference that is at least 0 but below 0.2. *)
Theorem getUserThreshold_never_zero :
  (∀ s chatId, Db.reachable s = false →
      Db.getUserThreshold s chatId = 0.2%float)
  ∧ (∀ s chatId, Db.active_settings s chatId = [] →
      Db.getUserThreshold s chatId = 0.2%float)
  ∧ (∀ s chatId r, Db.active_settings s chatId = [r] →
      user_settings.threshold r = None →
      Db.getUserThreshold s chatId = 0.2%float)
  ∧ (∀ s chatId r v, Db.active_settings s chatId = [r] →
      user_settings.threshold r = Some v → PrimFloat.eqb v 0 = true →
      Db.getUserThreshold s chatId = 0.2%float)
  ∧ (∀ s chatId, PrimFloat.eqb (Db.getUserThreshold s chatId) 0 = false)
  ∧ (∀ env a chatId r v w, Db.active_settings (db env) chatId = [r] →
      user_settings.threshold r = Some v → PrimFloat.eqb v 0 = true →
      JS.ge (percentDiff a) v = true →
      JS.ge (percentDiff a) 0.2%float = false →
      Sniper.alert_user env a chatId w = ([], w, Returned ()))
  ∧ (∀ s chatId r v, Db.reachable s = true →
      Db.active_settings s chatId = [r] →
      user_settings.threshold r = Some v → JS.truthy v = true →
      Db.getUserThreshold s chatId = v)
  ∧ (∀ s chatId r r' rows, Db.active_settings s chatId = r :: r' :: rows →
      Db.getUserThreshold s chatId = 0.2%float).
Proof.
  assert (Hzero : ∀ s chatId r v, Db.active_settings s chatId = [r] →
      user_settings.threshold r = Some v → PrimFloat.eqb v 0 = true →
      Db.getUserThreshold s chatId = 0.2%float).
  { intros s chatId r v Hrows Hthr Hv. unfold Db.getUserThreshold.
    rewrite Hrows. destruct (Db.reachable s); simpl; [|done].
    rewrite Hthr. simpl. by rewrite (zero_not_truthy v Hv). }
  split_and!.
  - intros s chatId Hr. unfold Db.getUserThreshold. by rewrite Hr.
  - intros s chatId Hrows. unfold Db.getUserThreshold. rewrite Hrows.
    by destruct (Db.reachable s).
  - intros s chatId r Hrows Hthr. unfold Db.getUserThreshold. rewrite Hrows.
    destruct (Db.reachable s); simpl; [|done]. by rewrite Hthr.
  - exact Hzero.
  - intros s chatId. apply truthy_not_zero. unfold Db.getUserThreshold.
    by apply or_default_truthy.
  - intros env a chatId r v w Hrows Hthr Hv Hge Hlt. unfold Sniper.alert_user.
    rewrite (Hzero _ _ _ _ Hrows Hthr Hv). by rewrite Hlt.
  - intros s chatId r v Hr Hrows Hthr Hv. unfold Db.getUserThreshold.
    rewrite Hr, Hrows. simpl. rewrite Hthr. simpl. by rewrite Hv.
  - intros s chatId r r' rows Hrows. unfold Db.getUserThreshold. rewrite Hrows.
    by destruct (Db.reachable s).
Qed.

Definition zero_threshold_store : Db.Store :=
  Db.mkStore [user_settings.mk 42 (Some 0%float) false true] [] [] true.

Definition zero_threshold_env : Env :=
  mkEnv zero_threshold_store 0 0 RateCache.ExchangeRejects RateCache.ArsRejects
        true true (λ _, true).

Definition small_discount : SniperAlert :=
  mkSniperAlert 7 "USD" "venmo" 0.999%float 1%float 0.1%float 1000000%float.

Definition stored_threshold_store : Db.Store :=
  Db.mkStore [user_settings.mk 42 (Some 5.01%float) false true] [] [] true.

(** The theorem at a subscriber who stored the threshold 0: the answer is
    0.2 and a difference of 0.1 raises no alert; and at one who stored
    5.01: the answer is 5.01. *)
Lemma getUserThreshold_never_zero_witness :
  Db.getUserThreshold zero_threshold_store 42 = 0.2%float
  ∧ (∀ w, Sniper.alert_user zero_threshold_env small_discount 42 w
          = ([], w, Returned ()))
  ∧ Db.getUserThreshold stored_threshold_store 42 = 5.01%float.
Proof.
  destruct getUserThreshold_never_zero
    as (_ & _ & _ & Hzero & _ & Halert & Hstored & _).
  split_and!.
  - apply (Hzero zero_threshold_store 42
             (user_settings.mk 42 (Some 0%float) false true) 0%float);
      reflexivity.
  - intros w.
    apply (Halert zero_threshold_env small_discount 42
             (user_settings.mk 42 (Some 0%float) false true) 0%float w);
      reflexivity.
  - apply (Hstored stored_threshold_store 42
             (user_settings.mk 42 (Some 5.01%float) false true) 5.01%float);
      reflexivity.
Defined.

End ThresholdFacts.

(** ** The WebSocket provider *)

Module ConnFacts.
Import Conn.

(** The transport reports the connection open: the provider has a socket
    whose [readyState] is 1. *)
Definition transport_open (s : State) : Prop :=
  ∃ p, provider s = Some p ∧ readyState p = Some 1.

(** C8.  [isConnected] is true only when the transport reports open and
    the last activity is less than 120000 ms old (and it is true then);
    with 120000 ms or more without activity it is false, open or not. *)
Theorem isConnected_open_and_recent (s : State) (now : Z) :
  (isConnected s now = true →
     transport_open s ∧ now - lastActivityTime s < 120000)
  ∧ (120000 ≤ now - lastActivityTime s → isConnected s now = false)
  ∧ (transport_open s → now - lastActivityTime s < 120000 →
     isConnected s now = true).
Proof.
  unfold isConnected, transport_open. split_and!.
  - destruct (provider s) as [p|]; [|done].
    destruct (readyState p) as [rs|] eqn:Hrs; [|done].
    intros [H1 H2]%andb_true_iff.
    apply bool_decide_eq_true in H1, H2. subst. split; [|done].
    exists p. by rewrite Hrs.
  - intros Hidle. destruct (provider s) as [p|]; [|done].
    destruct (readyState p) as [rs|]; [|done].
    rewrite (bool_decide_eq_false_2 (now - _ < _)); [|lia].
    apply andb_false_r.
  - intros (p & -> & ->) Hrecent.
    by rewrite !bool_decide_eq_true_2.
Qed.

(** An instance whose socket is open and whose last activity was at
    time 0. *)
Definition open_idle : State :=
  mkState 1000 30000 0 50 false false (Some (mkProvider (Some 1) true))
          None true 0 [] 0.

(** The theorem at that instance: not connected at 120000, connected at
    119999. *)
Lemma isConnected_open_and_recent_witness :
  isConnected open_idle 120000 = false ∧ isConnected open_idle 119999 = true.
Proof.
  split.
  - apply (proj1 (proj2 (isConnected_open_and_recent open_idle 120000))).
    vm_compute. discriminate.
  - apply (proj2 (proj2 (isConnected_open_and_recent open_idle 119999))).
    + exists (mkProvider (Some 1) true). split; reflexivity.
    + reflexivity.
Defined.

(** The fields the constructor fixes and nothing changes afterwards. *)
Definition configured (s : State) : Prop :=
  reconnectDelay s = 1000%float
  ∧ maxReconnectDelay s = 30000%float
  ∧ maxReconnectAttempts s = 50%nat.

Ltac by_cases :=
  repeat (simpl in *;
          match goal with
          | |- context [if ?b then _ else _] => destruct b eqn:?
          | |- context [match ?x with _ => _ end] => destruct x eqn:?
          end);
  simpl in *.

Lemma connect_configured s : configured s → configured (connect s).1.
Proof. unfold configured, connect. intros (? & ? & ?). by by_cases. Qed.

Lemma scheduleReconnect_configured s :
  configured s → configured (scheduleReconnect s).1.
Proof. unfold configured, scheduleReconnect. intros (? & ? & ?). by by_cases. Qed.

Lemma restart_configured s : configured s → configured (restart s).1.
Proof. unfold configured, restart. by intros (? & ? & ?). Qed.

Lemma step_configured e s : configured s → configured (step e s).1.
Proof.
  intros Hs. destruct e; simpl.
  - destruct (List.find _ _) as [t|]; [|done]. unfold fire. simpl.
    destruct (isDestroyed s); [done|].
    destruct (timer_action t);
      (apply connect_configured || apply scheduleReconnect_configured);
      exact Hs.
  - destruct (isConnecting s); [|done]. destruct Hs as (? & ? & ?). done.
  - destruct (isConnecting s); [|done]. unfold handshake_failed. simpl.
    destruct (isDestroyed s); [exact Hs|].
    apply scheduleReconnect_configured. exact Hs.
  - destruct (socket_listening s); [|done]. simpl.
    destruct (isDestroyed s); exact Hs.
  - destruct (socket_listening s); [|done]. simpl.
    destruct (isDestroyed s); [exact Hs|].
    apply scheduleReconnect_configured. exact Hs.
  - destruct (provider_listening s); [|done].
    destruct (isDestroyed s); [done|]. by apply scheduleReconnect_configured.
  - destruct (provider_listening s); [|done]. exact Hs.
  - destruct (provider s) as [[[rs'|] l]|]; done.
  - destruct (keepAliveTimer s); [|done]. unfold keepAlive.
    destruct (provider s) as [[[rs|] l]|]; try done.
    destruct (bool_decide (rs = 1)); [|done].
    destruct ping_ok; [|by apply scheduleReconnect_configured].
    destruct (bool_decide _); [by apply scheduleReconnect_configured|done].
  - destruct (isConnected s now); [done|]. by apply restart_configured.
  - by apply restart_configured.
  - exact Hs.
Qed.

Lemma reachable_configured s : reachable s → configured s.
Proof.
  induction 1 as [now|e s Hs IH].
  - by vm_compute.
  - by apply step_configured.
Qed.

(** The delay as the text has it: [min(1000 * 1.5^n, 30000)] over the
    rationals. *)
Definition exact_backoff (n : nat) : Q :=
  Qmin (1000 * Qpower (3 # 2) (Z.of_nat n)) 30000.

Definition backoff_is_exact (n : nat) : bool :=
  match JS.to_Q (backoff 1000 30000 n) with
  | Some q => Qeq_bool q (exact_backoff n)
  | None => false
  end.

Definition backoff_is_monotone (n : nat) : bool :=
  forallb (λ m, PrimFloat.leb (backoff 1000 30000 n) (backoff 1000 30000 m))
          (seq n (51 - n)).

Lemma backoff_checked :
  forallb (λ n, backoff_is_exact n && backoff_is_monotone n) (seq 1 50) = true.
Proof. vm_compute. reflexivity. Qed.

Lemma backoff_checked_at n :
  (1 ≤ n ≤ 50)%nat → backoff_is_exact n = true ∧ backoff_is_monotone n = true.
Proof.
  intros Hn. apply andb_true_iff.
  apply (proj1 (forallb_forall _ _) backoff_checked n).
  apply in_seq. lia.
Qed.

(** Timer ids are fresh: every pending timer was numbered before
    [next_id]. *)
Definition fresh_ids (s : State) : Prop :=
  Forall (λ t, (timer_id t < next_id s)%nat) (pending s).

Lemma Forall_clearTimeout (P : Timer → Prop) i l :
  Forall P l → Forall P (clearTimeout i l).
Proof.
  intros H. destruct i as [i|]; simpl; [|done].
  induction H as [|t l Ht Hl IH]; simpl; [done|].
  destruct (negb _); [by constructor|done].
Qed.

Lemma Forall_id_weaken n l :
  Forall (λ t, (timer_id t < n)%nat) l →
  Forall (λ t, (timer_id t < S n)%nat) l.
Proof. intros H. eapply Forall_impl; [exact H|]. simpl. intros t. lia. Qed.

Lemma connect_fresh s : fresh_ids s → fresh_ids (connect s).1.
Proof. unfold fresh_ids, connect. intros H. by by_cases. Qed.

Lemma scheduleReconnect_fresh s :
  fresh_ids s → fresh_ids (scheduleReconnect s).1.
Proof.
  unfold fresh_ids, scheduleReconnect. intros H.
  destruct (_ || _); [done|]. destruct (_ <? _)%nat; simpl.
  - by apply Forall_clearTimeout.
  - apply Forall_app. split.
    + by apply Forall_id_weaken, Forall_clearTimeout.
    + repeat constructor.
Qed.

Lemma restart_fresh s : fresh_ids s → fresh_ids (restart s).1.
Proof.
  unfold fresh_ids, restart. intros H. simpl.
  apply Forall_app. split.
  - by apply Forall_id_weaken, Forall_clearTimeout.
  - repeat constructor.
Qed.

Lemma step_fresh e s : fresh_ids s → fresh_ids (step e s).1.
Proof.
  intros Hs. destruct e; simpl.
  - destruct (List.find _ _) as [t|]; [|done]. unfold fire. simpl.
    assert (fresh_ids (set_pending (clearTimeout (Some id) (pending s)) s))
      as Hs' by (by apply (Forall_clearTimeout _ (Some id))).
    destruct (isDestroyed s); [done|].
    destruct (timer_action t);
      (by apply connect_fresh) || (by apply scheduleReconnect_fresh).
  - by destruct (isConnecting s).
  - destruct (isConnecting s); [|done]. unfold handshake_failed. simpl.
    destruct (isDestroyed s); [done|]. by apply scheduleReconnect_fresh.
  - destruct (socket_listening s); [|done]. simpl.
    destruct (isDestroyed s); [done|]. unfold fresh_ids. simpl.
    apply Forall_app. split; [by apply Forall_id_weaken|repeat constructor].
  - destruct (socket_listening s); [|done]. simpl.
    destruct (isDestroyed s); [done|]. by apply scheduleReconnect_fresh.
  - destruct (provider_listening s); [|done].
    destruct (isDestroyed s); [done|]. by apply scheduleReconnect_fresh.
  - by destruct (provider_listening s).
  - by destruct (provider s) as [[[rs'|] l]|].
  - destruct (keepAliveTimer s); [|done]. unfold keepAlive.
    destruct (provider s) as [[[rs|] l]|]; try done.
    destruct (bool_decide (rs = 1)); [|done].
    destruct ping_ok; [|by apply scheduleReconnect_fresh].
    destruct (bool_decide _); [by apply scheduleReconnect_fresh|done].
  - destruct (isConnected s now); [done|]. by apply restart_fresh.
  - by apply restart_fresh.
  - by apply (Forall_clearTimeout _ (reconnectTimer s)).
Qed.

Lemma reachable_fresh s : reachable s → fresh_ids s.
Proof.
  induction 1 as [now|e s Hs IH].
  - constructor.
  - by apply step_fresh.
Qed.

(** A timer appended under a fresh id is the one [find] returns and the
    one [clearTimeout] removes. *)
Lemma find_fresh_timer l t :
  Forall (λ x, (timer_id x < timer_id t)%nat) l →
  List.find (λ x, Nat.eqb (timer_id x) (timer_id t)) (l ++ [t]) = Some t.
Proof.
  induction 1 as [|x l Hx Hl IH]; simpl.
  - by rewrite Nat.eqb_refl.
  - destruct (Nat.eqb_spec (timer_id x) (timer_id t)); [lia|done].
Qed.

(** C7.  When [scheduleReconnect] runs on an instance that is neither
    connecting nor destroyed and the incremented counter [n] is between 1
    and 50, it sets one timer whose delay is exactly
    [min(1000 * 1.5^n, 30000)] ms, and when that timer fires the instance
    re-enters Connecting.  The delays never decrease with [n]; they grow
    strictly up to attempt 9, where they reach 30000 and stay. *)
Theorem reconnect_delay_is_capped_backoff :
  (∀ s n, reachable s → isConnecting s = false → isDestroyed s = false →
      n = S (reconnectAttempts s) → (1 ≤ n ≤ 50)%nat →
      ∃ d q, scheduleReconnect s
             = (mkState (reconnectDelay s) (maxReconnectDelay s) n
                  (maxReconnectAttempts s) false false (provider s)
                  (Some (next_id s)) false (lastActivityTime s)
                  (clearTimeout (reconnectTimer s) (pending s)
                     ++ [mkTimer (next_id s) d reconnect_timeout])
                  (S (next_id s)),
                [ReconnectScheduled n d])
           ∧ JS.to_Q d = Some q ∧ (q == exact_backoff n)%Q
           ∧ (step (TimerFires (next_id s)) (scheduleReconnect s).1).2
             = [Connecting])
  ∧ (∀ n m, (1 ≤ n)%nat → (n ≤ m)%nat → (m ≤ 50)%nat →
      PrimFloat.leb (backoff 1000 30000 n) (backoff 1000 30000 m) = true)
  ∧ (∀ n, (1 ≤ n)%nat → (n < 9)%nat →
      PrimFloat.ltb (backoff 1000 30000 n) (backoff 1000 30000 (S n)) = true)
  ∧ (∀ n, (9 ≤ n)%nat → (n ≤ 50)%nat →
      PrimFloat.eqb (backoff 1000 30000 n) 30000 = true).
Proof.
  split_and!.
  - intros s n Hreach Hc Hd -> Hn.
    destruct (reachable_configured s Hreach) as (Hrd & Hmd & Hma).
    pose proof (reachable_fresh s Hreach) as Hfresh.
    destruct (backoff_checked_at _ Hn) as [Hex _].
    unfold backoff_is_exact in Hex.
    destruct (JS.to_Q (backoff 1000 30000 (S (reconnectAttempts s))))
      as [q|] eqn:Hq; [|done].
    exists (backoff 1000 30000 (S (reconnectAttempts s))), q.
    assert (scheduleReconnect s
            = (mkState (reconnectDelay s) (maxReconnectDelay s)
                 (S (reconnectAttempts s)) (maxReconnectAttempts s) false false
                 (provider s) (Some (next_id s)) false (lastActivityTime s)
                 (clearTimeout (reconnectTimer s) (pending s)
                    ++ [mkTimer (next_id s)
                          (backoff 1000 30000 (S (reconnectAttempts s)))
                          reconnect_timeout])
                 (S (next_id s)),
               [ReconnectScheduled (S (reconnectAttempts s))
                  (backoff 1000 30000 (S (reconnectAttempts s)))])) as Heq.
    { unfold scheduleReconnect. rewrite Hc, Hd, Hma, Hrd, Hmd. simpl orb. cbv iota.
      destruct (Nat.ltb_spec 50 (S (reconnectAttempts s))); [lia|done]. }
    split_and!; [exact Heq|done|by apply Qeq_bool_iff|].
    rewrite Heq. simpl.
    rewrite (find_fresh_timer _ (mkTimer (next_id s) _ reconnect_timeout))
      by (by apply Forall_clearTimeout).
    reflexivity.
  - intros n m H1 Hnm Hm.
    destruct (backoff_checked_at n) as [_ Hmono]; [lia|].
    apply (proj1 (forallb_forall _ _) Hmono m). apply in_seq. lia.
  - intros n H1 H9.
    assert (In n (seq 1 8)) as Hin by (apply in_seq; lia).
    clear H1 H9. revert n Hin. apply List.Forall_forall.
    repeat (constructor; [vm_compute; reflexivity|]). constructor.
  - intros n H9 H50.
    assert (In n (seq 9 42)) as Hin by (apply in_seq; lia).
    clear H9 H50. revert n Hin. apply List.Forall_forall.
    repeat (constructor; [vm_compute; reflexivity|]). constructor.
Qed.

(** The first handshake failed once: the instance is idle with one
    reconnect pending. *)
Definition after_first_failure : State :=
  (step HandshakeFails (constructor 0).1).1.

(** The theorem at that instance, whose next attempt is the second. *)
Lemma reconnect_delay_is_capped_backoff_witness :
  ∃ d q, scheduleReconnect after_first_failure
         = (mkState (reconnectDelay after_first_failure)
              (maxReconnectDelay after_first_failure) 2%nat
              (maxReconnectAttempts after_first_failure) false false
              (provider after_first_failure)
              (Some (next_id after_first_failure)) false
              (lastActivityTime after_first_failure)
              (clearTimeout (reconnectTimer after_first_failure)
                 (pending after_first_failure)
                 ++ [mkTimer (next_id after_first_failure) d reconnect_timeout])
              (S (next_id after_first_failure)),
            [ReconnectScheduled 2%nat d])
       ∧ JS.to_Q d = Some q ∧ (q == exact_backoff 2%nat)%Q
       ∧ (step (TimerFires (next_id after_first_failure))
            (scheduleReconnect after_first_failure).1).2
         = [Connecting].
Proof.
  apply (proj1 reconnect_delay_is_capped_backoff after_first_failure 2%nat).
  - apply reachable_step, reachable_new.
  - reflexivity.
  - reflexivity.
  - reflexivity.
  - lia.
Defined.















Lemma run_reachable es : ∀ s, reachable s → reachable (run es s).1.
Proof.
  induction es as [|e es IH]; intros s Hs; simpl; [done|].
  pose proof (reachable_step e s Hs) as H1.
  destruct (step e s) as [s1 t1]; simpl in *.
  specialize (IH s1 H1). by destruct (run es s1).
Qed.




End ConnFacts.

(** ** Asynchronous computations *)

Module AsyncFacts.
Import Async.

Lemma bind_run {A B : Type} (m : M A) (f : A → M B) (w : World) :
  (m ≫= f) w
  = match m w with
    | (e1, w1, Returned a) =>
        match f a w1 with
        | (e2, w2, r) => (e1 ++ e2, w2, r)
        end
    | (e1, w1, Rejected) => (e1, w1, Rejected)
    end.
Proof. reflexivity. Qed.

Lemma for_of_cons {A : Type} (x : A) (xs : list A) (body : A → M unit) (w : World) :
  for_of (x :: xs) body w
  = match body x w with
    | (e1, w1, Returned _) =>
        match for_of xs body w1 with
        | (e2, w2, r) => (e1 ++ e2, w2, r)
        end
    | (e1, w1, Rejected) => (e1, w1, Rejected)
    end.
Proof. reflexivity. Qed.

(** Whether a script ends with a rejected request. *)
Fixpoint post_rejects (sc : WebhookScript) : bool :=
  match sc with
  | WebhookRejects => true
  | WebhookResponds _ => false
  | WebhookRateLimited next => post_rejects next
  end.

Definition is_post (e : Effect) : Prop :=
  match e with
  | DiscordPost _ _ => True
  | _ => False
  end.

Lemma run_webhook_spec hook content sc :
  Forall is_post (run_webhook hook content sc).1
  ∧ (run_webhook hook content sc).2
    = if post_rejects sc then Rejected else Returned ().
Proof.
  induction sc as [|ok|next [IH1 IH2]]; simpl.
  - split; [by repeat constructor|done].
  - split; [by repeat constructor|done].
  - destruct (run_webhook hook content next) as [e r]; simpl in *.
    split; [by constructor|done].
Qed.

(** The script a configured [postToDiscord] call runs against. *)
Definition next_script (w : World) : WebhookScript :=
  default (WebhookResponds true) (head (webhook w)).

Lemma postToDiscord_spec configured hook content w :
  Forall is_post (postToDiscord configured hook content w).1.1
  ∧ (postToDiscord configured hook content w).1.2
    = (if configured then set_webhook (tail (webhook w)) w else w)
  ∧ (postToDiscord configured hook content w).2
    = if (configured && post_rejects (next_script w))%bool
      then Rejected else Returned ().
Proof.
  unfold postToDiscord, next_script. destruct configured; simpl; [|done].
  destruct (run_webhook_spec hook content
              (default (WebhookResponds true) (head (webhook w)))) as [H1 H2].
  destruct (run_webhook _ _ _) as [e r]; simpl in *. done.
Qed.

End AsyncFacts.

(** ** Sniper alerts *)

Module SniperFacts.
Import Async AsyncFacts Sniper.

(** The comparison [percentageDiff >= userThreshold] for a candidate. *)
Definition passes (env : Env) (a : SniperAlert) (chatId : Z) : bool :=
  JS.ge (percentDiff a) (Db.getUserThreshold (db env) chatId).

(** The candidates that get their alert, given the candidates that pass
    and how the webhook answers the successive posts: all of them up to
    the first post that is rejected. *)
Fixpoint deliverable (q : list WebhookScript) (passing : list Z) {struct passing}
  : list Z :=
  match passing with
  | [] => []
  | c :: r =>
      match q with
      | [] => c :: r
      | sc :: q' => if post_rejects sc then [] else c :: deliverable q' r
      end
  end.

Definition alerted (env : Env) (a : SniperAlert) (q : list WebhookScript)
    (users : list Z) : list Z :=
  if sniper_webhook_configured env
  then deliverable q (List.filter (passes env a) users)
  else List.filter (passes env a) users.

Lemma recipients_app t1 t2 : recipients (t1 ++ t2) = recipients t1 ++ recipients t2.
Proof. apply omap_app. Qed.

Lemma alerts_app t1 t2 : alerts (t1 ++ t2) = alerts t1 ++ alerts t2.
Proof. apply omap_app. Qed.

Lemma posts_silent t : Forall is_post t → recipients t = [] ∧ alerts t = [].
Proof.
  induction 1 as [|e t He Ht [IH1 IH2]]; [done|].
  destruct e; try done.
Qed.

(** One iteration of the loop. *)
Lemma alert_user_spec env a c w :
  let rejected := (sniper_webhook_configured env && post_rejects (next_script w))%bool in
  let sent := if (passes env a c && negb rejected)%bool then [c] else [] in
  recipients (alert_user env a c w).1.1 = sent
  ∧ alerts (alert_user env a c w).1.1 = (λ c, (c, a)) <$> sent
  ∧ webhook (alert_user env a c w).1.2
    = (if (passes env a c && sniper_webhook_configured env)%bool
       then tail (webhook w) else webhook w)
  ∧ (alert_user env a c w).2
    = if (passes env a c && rejected)%bool then Rejected else Returned ().
Proof.
  unfold alert_user, passes. destruct (JS.ge _ _); simpl; [|done].
  rewrite bind_run. simpl. rewrite bind_run.
  destruct (postToDiscord_spec (sniper_webhook_configured env)
              DISCORD_SNIPER_WEBHOOK_URL (SniperAlertMessage a) w)
    as (Hp & Hw & Hr).
  destruct (postToDiscord _ _ _ w) as [[e w1] r]; simpl in *. subst w1 r.
  destruct (posts_silent e Hp) as [He1 He2].
  destruct (sniper_webhook_configured env); simpl.
  - destruct (post_rejects (next_script w)); simpl.
    + by rewrite He1, He2.
    + rewrite recipients_app, alerts_app, He1, He2. done.
  - rewrite recipients_app, alerts_app, He1, He2. done.
Qed.

(** The whole loop: the alerts go to the passing candidates, in order,
    up to the first rejected post. *)
Lemma alert_loop_spec env a users : ∀ w,
  recipients (for_of users (alert_user env a) w).1.1
  = alerted env a (webhook w) users
  ∧ alerts (for_of users (alert_user env a) w).1.1
    = (λ c, (c, a)) <$> alerted env a (webhook w) users
  ∧ ((for_of users (alert_user env a) w).2 = Returned ()
     ↔ alerted env a (webhook w) users = List.filter (passes env a) users).
Proof.
  induction users as [|c users IH]; intros w.
  - unfold alerted. simpl. by destruct (sniper_webhook_configured env).
  - rewrite for_of_cons.
    destruct (alert_user_spec env a c w) as (H1 & H2 & H3 & H4).
    destruct (alert_user env a c w) as [[e1 w1] r1]; simpl in *.
    destruct (IH w1) as (IH1 & IH2 & IH3).
    unfold alerted in *. simpl.
    destruct (passes env a c) eqn:Hpass; simpl in *.
    + destruct (sniper_webhook_configured env) eqn:Hconf; simpl in *.
      * unfold next_script in *.
        destruct (webhook w) as [|sc q] eqn:Hq; simpl in *.
        -- subst r1. rewrite ?H3 in *.
           destruct (for_of users (alert_user env a) w1) as [[e2 w2] r2];
             simpl in *.
           rewrite recipients_app, alerts_app, H1, H2, IH1, IH2.
           assert (∀ l, deliverable [] l = l) as Hnil by (by intros []).
           rewrite !Hnil in *. split_and!; [done|done|].
           
             split; [intros Hr; apply IH3 in Hr; congruence
                    |intros Hr; apply IH3; congruence].
        -- destruct (post_rejects sc); simpl in *; subst r1.
           ++ simpl. rewrite H1, H2. split_and!; [done|done|]. split; done.
           ++ rewrite ?H3 in *.
              destruct (for_of users (alert_user env a) w1) as [[e2 w2] r2];
                simpl in *.
              rewrite recipients_app, alerts_app, H1, H2, IH1, IH2.
              split_and!; [done|done|]. 
             split; [intros Hr; apply IH3 in Hr; congruence
                    |intros Hr; apply IH3; congruence].
      * subst r1. rewrite ?H3 in *.
        destruct (for_of users (alert_user env a) w1) as [[e2 w2] r2];
          simpl in *.
        rewrite recipients_app, alerts_app, H1, H2, IH1, IH2.
        split_and!; [done|done|]. 
             split; [intros Hr; apply IH3 in Hr; congruence
                    |intros Hr; apply IH3; congruence].
    + subst r1. rewrite ?H3 in *.
      destruct (for_of users (alert_user env a) w1) as [[e2 w2] r2];
        simpl in *.
      rewrite recipients_app, alerts_app, H1, H2, IH1, IH2.
      destruct (sniper_webhook_configured env); by rewrite ?H3 in *.
Qed.

(** Numbers: [a < b] excludes [a >= b]. *)
Lemma SFcompare_Lt_antisym a b :
  SFcompare a b = Some Lt → SFcompare b a = Some Gt.
Proof.
  destruct a as [[]|[]| |[] m1 e1], b as [[]|[]| |[] m2 e2]; simpl;
    try congruence.
  all: rewrite (Z.compare_antisym e1 e2); destruct (e1 ?= e2)%Z; simpl;
    try congruence.
  all: change (Pos.compare_cont Eq m2 m1) with (m2 ?= m1)%positive;
    change (Pos.compare_cont Eq m1 m2) with (m1 ?= m2)%positive;
    rewrite (Pos.compare_antisym m1 m2); destruct (m1 ?= m2)%positive; simpl;
    try congruence.
Qed.

Lemma lt_not_ge (a b : float) : JS.lt a b = true → JS.ge a b = false.
Proof.
  unfold JS.lt, JS.ge. rewrite ltb_spec, leb_spec. unfold SFltb, SFleb.
  destruct (SFcompare (Prim2SF a) (Prim2SF b)) as [[]|] eqn:E; try discriminate.
  intros _. by rewrite (SFcompare_Lt_antisym _ _ E).
Qed.

(** The candidates are pairwise distinct. *)
Lemma map_set_keys {V : Type} (k : Z) (v : V) (m : list (Z * V)) :
  JS.map_keys (JS.map_set k v m)
  = if bool_decide (k ∈ JS.map_keys m) then JS.map_keys m else JS.map_keys m ++ [k].
Proof.
  unfold JS.map_keys. induction m as [|[k' v'] m IH]; simpl; [done|].
  destruct (decide (k = k')) as [->|Hne]; simpl.
  - rewrite bool_decide_eq_true_2; [done|]. apply list_elem_of_here.
  - change (list_fmap (Z * V)%type Z fst) with (fmap (M:=list) (@fst Z V)).
    rewrite IH. destruct (bool_decide (k ∈ m.*1)) eqn:E.
    + rewrite bool_decide_eq_true_2; [done|].
      apply list_elem_of_further. by apply bool_decide_eq_true in E.
    + rewrite bool_decide_eq_false_2; [done|].
      apply bool_decide_eq_false in E. intros [?|?]%elem_of_cons; done.
Qed.

Lemma map_set_NoDup {V : Type} (k : Z) (v : V) (m : list (Z * V)) :
  NoDup (JS.map_keys m) → NoDup (JS.map_keys (JS.map_set k v m)).
Proof.
  intros Hm. rewrite map_set_keys. destruct (bool_decide _) eqn:E; [done|].
  apply bool_decide_eq_false in E. apply NoDup_app. split_and!; [done| |].
  - intros x Hx ->%list_elem_of_singleton. done.
  - apply NoDup_singleton.
Qed.

Lemma getUsersWithSniper_NoDup s cutoff currency platform :
  NoDup (Db.getUsersWithSniper s cutoff currency platform).
Proof.
  unfold Db.getUsersWithSniper. destruct (Db.reachable s); [|apply NoDup_nil_2].
  generalize (List.filter (Db.sniper_query cutoff currency platform) (Db.snipers s)).
  intros data.
  assert (∀ m : list (Z * user_snipers.row), NoDup (JS.map_keys m) →
            NoDup (JS.map_keys (foldl Db.keep_newest m data))) as H.
  { induction data as [|r data IH]; intros m Hm; simpl; [done|].
    apply IH. unfold Db.keep_newest.
    destruct (JS.map_get _ m); [destruct (bool_decide _)|];
      try done; by apply map_set_NoDup. }
  apply H. apply NoDup_nil_2.
Qed.

Lemma candidates_NoDup env currencyCode platformName :
  NoDup (candidates env currencyCode platformName).
Proof.
  unfold candidates.
  pose proof (getUsersWithSniper_NoDup (db env) (thirtyDaysAgo env)
                currencyCode (Some platformName)) as H.
  destruct (bool_decide _) eqn:E; [done|].
  apply bool_decide_eq_false in E. apply NoDup_app. split_and!; [done| |].
  - intros x Hx ->%list_elem_of_singleton. done.
  - apply NoDup_singleton.
Qed.

(** Resolving the market rate sends rate requests only and leaves the
    webhook alone. *)
Definition is_http (e : Effect) : Prop :=
  match e with
  | HttpGet _ => True
  | _ => False
  end.

Lemma http_silent t : Forall is_http t → recipients t = [] ∧ alerts t = [].
Proof.
  induction 1 as [|e t He Ht [IH1 IH2]]; [done|].
  destruct e; try done.
Qed.

Lemma Forall_http_fmap reqs : Forall is_http (HttpGet <$> reqs).
Proof. induction reqs; simpl; by constructor. Qed.

Lemma resolve_market_rate_spec env currencyCode w :
  ∃ t0 w0 v, resolve_market_rate env currencyCode w = (t0, w0, Returned v)
             ∧ Forall is_http t0 ∧ webhook w0 = webhook w.
Proof.
  unfold resolve_market_rate.
  destruct (bool_decide (currencyCode = "ARS")).
  - rewrite bind_run. unfold getARSRate.
    destruct (RateCache.getARSRate _ _ _) as [[v c] reqs]. simpl.
    eexists _, _, _. split; [done|]. split; [|done].
    rewrite app_nil_r. apply Forall_http_fmap.
  - destruct (bool_decide (currencyCode = "USD")).
    + eexists _, _, _. split; [done|]. by split; [constructor|].
    + rewrite bind_run. unfold getExchangeRates.
      destruct (RateCache.getExchangeRates _ _ _) as [[[rates|] c] reqs]; simpl;
        eexists _, _, _; (split; [done|]); (split; [|done]);
        rewrite app_nil_r; apply Forall_http_fmap.
Qed.

Lemma getPlatformName_Some identifier :
  ∃ name, Tables.getPlatformName (Some identifier) = Some name.
Proof.
  unfold Tables.getPlatformName. destruct (JS.map_get _ _); by eexists.
Qed.

(** [checkSniperOpportunity] once the currency and its market rate are
    resolved: the loop over the candidates. *)
Lemma checkSniperOpportunity_resolved env w depositId depositAmount currencyHash
    conversionRate verifierAddress currencyCode name t0 w0 marketRate :
  JS.map_get (JS.toLowerCase currencyHash) Tables.currencyHashToCode
  = Some currencyCode →
  Tables.getPlatformName (Some verifierAddress) = Some name →
  resolve_market_rate env currencyCode w = (t0, w0, Returned (Some marketRate)) →
  let a := mkSniperAlert depositId currencyCode (JS.toLowerCase name)
             (depositRate_of conversionRate) marketRate
             (percentageDiff_of marketRate (depositRate_of conversionRate))
             depositAmount in
  checkSniperOpportunity env depositId depositAmount currencyHash conversionRate
                         verifierAddress w
  = match for_of (candidates env currencyCode (JS.toLowerCase name))
                 (alert_user env a) w0 with
    | (t1, w1, r) => (t0 ++ t1, w1, r)
    end.
Proof.
  intros Hcode Hname Hrate a. unfold checkSniperOpportunity.
  rewrite Hcode, Hname, bind_run, Hrate. done.
Qed.

(** When no rate is available the function returns after the rate
    request, if any. *)
Lemma checkSniperOpportunity_unavailable env w depositId depositAmount currencyHash
    conversionRate verifierAddress currencyCode t0 w0 :
  JS.map_get (JS.toLowerCase currencyHash) Tables.currencyHashToCode
  = Some currencyCode →
  resolve_market_rate env currencyCode w = (t0, w0, Returned None) →
  checkSniperOpportunity env depositId depositAmount currencyHash conversionRate
                         verifierAddress w
  = (t0, w0, Returned ()).
Proof.
  intros Hcode Hrate. unfold checkSniperOpportunity.
  destruct (getPlatformName_Some verifierAddress) as [name Hname].
  rewrite Hcode, Hname, bind_run, Hrate. simpl. by rewrite ?app_nil_r.
Qed.

(** No post of the coming ones is rejected (when the sniper webhook is
    configured at all). *)
Definition no_post_rejected (env : Env) (w : World) : Prop :=
  sniper_webhook_configured env = true →
  Forall (λ sc, post_rejects sc = false) (webhook w).

Lemma deliverable_all q : ∀ l,
  Forall (λ sc, post_rejects sc = false) q → deliverable q l = l.
Proof.
  induction q as [|sc q IH]; intros l Hq; [by destruct l|].
  inversion Hq as [|? ? Hsc Hq']; subst.
  destruct l as [|c l]; simpl; [done|]. rewrite Hsc. by rewrite IH.
Qed.

Lemma deliverable_prefix q : ∀ l, deliverable q l `prefix_of` l.
Proof.
  induction q as [|sc q IH]; intros [|c l]; simpl; try done.
  destruct (post_rejects sc); [apply prefix_nil|]. by apply prefix_cons.
Qed.

Lemma alerted_all env a w users :
  no_post_rejected env w →
  alerted env a (webhook w) users = List.filter (passes env a) users.
Proof.
  intros H. unfold alerted.
  destruct (sniper_webhook_configured env) eqn:E; [|done].
  by apply deliverable_all, H.
Qed.

(** The alerts of a trace that went to the chat [c]. *)
Definition alerts_to (c : Z) (t : list Effect) : list (Z * SniperAlert) :=
  List.filter (λ x, bool_decide (x.1 = c)) (alerts t).

Lemma filter_tagged_notin (a : SniperAlert) (c : Z) (l : list Z) :
  c ∉ l →
  List.filter (λ x, bool_decide (x.1 = c)) ((λ c, (c, a)) <$> l) = [].
Proof.
  induction l as [|x l IH]; intros Hc; simpl; [done|].
  apply not_elem_of_cons in Hc as [Hne Hc].
  rewrite bool_decide_eq_false_2 by done. by apply IH.
Qed.

Lemma filter_tagged_NoDup (a : SniperAlert) (c : Z) (l : list Z) :
  NoDup l → c ∈ l →
  List.filter (λ x, bool_decide (x.1 = c)) ((λ c, (c, a)) <$> l) = [(c, a)].
Proof.
  induction 1 as [|x l Hx Hl IH]; intros Hc; [by apply elem_of_nil in Hc|].
  simpl. apply elem_of_cons in Hc as [->|Hc].
  - rewrite bool_decide_eq_true_2 by done. by rewrite filter_tagged_notin.
  - rewrite bool_decide_eq_false_2; [by apply IH|]. by intros ->.
Qed.

Lemma elem_of_filter_bool (f : Z → bool) (l : list Z) (c : Z) :
  c ∈ List.filter f l ↔ c ∈ l ∧ f c = true.
Proof.
  rewrite !list_elem_of_In. apply List.filter_In.
Qed.

Lemma NoDup_filter_bool (f : Z → bool) (l : list Z) :
  NoDup l → NoDup (List.filter f l).
Proof.
  induction 1 as [|x l Hx Hl IH]; simpl; [apply NoDup_nil_2|].
  destruct (f x); [|done]. apply NoDup_cons. split; [|done].
  rewrite elem_of_filter_bool. by intros [? _].
Qed.

(** The rate 0.95 as the contract reports it, scaled by 1e18. *)
Definition rate_095 : Z := 950000000000000000.

(** C2 does not hold as stated: in binary64 the deposit rate 0.95 against
    the market rate 1.0 gives 5.000000000000004, not 5.0. *)
Lemma percent_diff_of_095_is_not_5 :
  depositRate_of rate_095 = 0.95%float
  ∧ percentageDiff_of 1 (depositRate_of rate_095) ≠ 5%float.
Proof.
  split; [vm_compute; reflexivity|].
  intros H.
  assert (PrimFloat.eqb (percentageDiff_of 1 (depositRate_of rate_095)) 5 = true)
    as Heq by (by rewrite H).
  vm_compute in Heq. discriminate.
Qed.

(** C2, amended.  With [depositRate = Number(conversionRate) / 1e18] and
    [percentDiff = (marketRate - depositRate) / marketRate * 100] in
    binary64, and as long as no Discord post is rejected, every candidate
    whose threshold satisfies [percentDiff >= threshold] gets exactly one
    alert, carrying these numbers, and every candidate with
    [percentDiff < threshold] gets none; the threshold is 0.2 for a chat
    without a settings row.  The deposit rate 0.95 against the market
    rate 1.0 gives 5.000000000000004, which is [>= 5.0] and not
    [>= 5.01]. *)
Theorem threshold_decides_alert :
  (∀ env w depositId depositAmount currencyHash conversionRate verifierAddress
     currencyCode name t0 w0 marketRate c,
      JS.map_get (JS.toLowerCase currencyHash) Tables.currencyHashToCode
      = Some currencyCode →
      Tables.getPlatformName (Some verifierAddress) = Some name →
      resolve_market_rate env currencyCode w = (t0, w0, Returned (Some marketRate)) →
      no_post_rejected env w →
      c ∈ candidates env currencyCode (JS.toLowerCase name) →
      let depositRate := depositRate_of conversionRate in
      let percentDiff := percentageDiff_of marketRate depositRate in
      let threshold := Db.getUserThreshold (db env) c in
      let t := (checkSniperOpportunity env depositId depositAmount currencyHash
                  conversionRate verifierAddress w).1.1 in
      (JS.ge percentDiff threshold = true →
         alerts_to c t
         = [(c, mkSniperAlert depositId currencyCode (JS.toLowerCase name)
                  depositRate marketRate percentDiff depositAmount)])
      ∧ (JS.lt percentDiff threshold = true →
         alerts_to c t = [] ∧ c ∉ recipients t))
  ∧ (∀ s c, Db.active_settings s c = [] → Db.getUserThreshold s c = 0.2%float)
  ∧ (depositRate_of rate_095 = 0.95%float
     ∧ percentageDiff_of 1 (depositRate_of rate_095) = 0x1.4000000000005p+2%float
     ∧ JS.ge (percentageDiff_of 1 (depositRate_of rate_095)) 5 = true
     ∧ JS.ge (percentageDiff_of 1 (depositRate_of rate_095)) 5.01 = false).
Proof.
  split_and!.
  - intros env w depositId depositAmount currencyHash conversionRate
      verifierAddress currencyCode name t0 w0 marketRate c
      Hcode Hname Hrate Hquiet Hc depositRate percentDiff threshold t.
    set (a := mkSniperAlert depositId currencyCode (JS.toLowerCase name)
                depositRate marketRate percentDiff depositAmount).
    destruct (resolve_market_rate_spec env currencyCode w)
      as (t0' & w0' & v & Hres & Hhttp & Hweb).
    rewrite Hrate in Hres. injection Hres as <- <- <-.
    destruct (http_silent t0 Hhttp) as [Ht0r Ht0a].
    assert (no_post_rejected env w0) as Hquiet0
      by (unfold no_post_rejected; by rewrite Hweb).
    pose proof (checkSniperOpportunity_resolved env w depositId depositAmount
                  currencyHash conversionRate verifierAddress currencyCode name
                  t0 w0 marketRate Hcode Hname Hrate) as Hrun.
    simpl in Hrun. fold depositRate percentDiff a in Hrun.
    destruct (alert_loop_spec env a
                (candidates env currencyCode (JS.toLowerCase name)) w0)
      as (Hrec & Hal & _).
    rewrite (alerted_all env a w0 _ Hquiet0) in Hrec, Hal.
    destruct (for_of _ _ w0) as [[t1 w1] r1]; simpl in *.
    assert (recipients t
            = List.filter (passes env a)
                (candidates env currencyCode (JS.toLowerCase name))) as Hrt.
    { subst t. rewrite Hrun. simpl. by rewrite recipients_app, Ht0r, Hrec. }
    assert (alerts t
            = (λ c, (c, a)) <$> List.filter (passes env a)
                (candidates env currencyCode (JS.toLowerCase name))) as Hat.
    { subst t. rewrite Hrun. simpl. by rewrite alerts_app, Ht0a, Hal. }
    unfold alerts_to. rewrite Hrt, Hat. split.
    + intros Hge. apply filter_tagged_NoDup.
      * apply NoDup_filter_bool, candidates_NoDup.
      * apply elem_of_filter_bool. by split.
    + intros Hlt%lt_not_ge.
      assert (c ∉ List.filter (passes env a)
                (candidates env currencyCode (JS.toLowerCase name))) as Hnot.
      { rewrite elem_of_filter_bool. intros [_ Hp]. unfold passes in Hp.
        simpl in Hp. fold threshold in Hp. congruence. }
      split; [by apply filter_tagged_notin|done].
  - intros s c Hrows. unfold Db.getUserThreshold. rewrite Hrows.
    by destruct (Db.reachable s).
  - vm_compute. reflexivity.
  - vm_compute. reflexivity.
  - vm_compute. reflexivity.
  - vm_compute. reflexivity.
Qed.

(** Two subscribers to USD alerts, with thresholds 5.0 and 5.01. *)
Definition two_snipers : Db.Store :=
  Db.mkStore
    [user_settings.mk 7 (Some 5%float) false true;
     user_settings.mk 8 (Some 5.01%float) false true]
    [user_snipers.mk 7 "USD" None 100 true;
     user_snipers.mk 8 "USD" (Some "venmo") 100 true]
    [] true.

Definition two_snipers_env : Env :=
  mkEnv two_snipers 1000 0 RateCache.ExchangeRejects RateCache.ArsRejects
        true true (λ _, true).

Definition idle_world : World :=
  mkWorld RateCache.initial ∅ ∅ ∅ ∅ [] [].

Definition USD_hash : string :=
  "0xc4ae21aac0c6549d71dd96035b7e0bdb6c79ebdba8891b666115bc976d16a29e".

Definition venmo_verifier : string :=
  "0x9a733b55a875d0db4915c6b36350b24f8ab99df5".

Definition usd_095_trace : list Effect :=
  (checkSniperOpportunity two_snipers_env 12 1000000 USD_hash rate_095
                          venmo_verifier idle_world).1.1.

(** The theorem at a USD deposit at the rate 0.95: the subscriber with
    threshold 5.0 gets one alert, the one with 5.01 gets none. *)
Lemma threshold_decides_alert_witness :
  alerts_to 7 usd_095_trace
  = [(7, mkSniperAlert 12 "USD" "venmo" (depositRate_of rate_095) 1
           (percentageDiff_of 1 (depositRate_of rate_095)) 1000000)]
  ∧ alerts_to 8 usd_095_trace = [] ∧ 8 ∉ recipients usd_095_trace.
Proof.
  assert (no_post_rejected two_snipers_env idle_world) as Hquiet
    by (intros _; apply List.Forall_nil).
  assert (∀ c, c = 7 ∨ c = 8 → c ∈ candidates two_snipers_env "USD" "venmo")
    as Hcand.
  { intros c [-> | ->]; apply (bool_decide_unpack _); vm_compute; exact I. }
  split.
  - destruct (proj1 threshold_decides_alert two_snipers_env idle_world
                12 1000000%float USD_hash rate_095 venmo_verifier
                "USD" "venmo" [] idle_world 1%float 7
                eq_refl eq_refl eq_refl Hquiet (Hcand 7 (or_introl eq_refl)))
      as [Hone _].
    apply Hone. vm_compute. reflexivity.
  - destruct (proj1 threshold_decides_alert two_snipers_env idle_world
                12 1000000%float USD_hash rate_095 venmo_verifier
                "USD" "venmo" [] idle_world 1%float 8
                eq_refl eq_refl eq_refl Hquiet (Hcand 8 (or_intror eq_refl)))
      as [_ Hnone].
    apply Hnone. vm_compute. reflexivity.
Defined.









(** C6.  A read that has to refresh (nothing cached, or the cached value
    is 60000 ms old or more) and whose request fails or brings no rate
    returns [null], not the value it held; a value a read does return is
    either the cached one, less than 60000 ms old, or the one this very
    read fetched.  [checkSniperOpportunity] then returns right after the
    rate request: no threshold is read and no alert is sent. *)
Theorem failed_refresh_is_unavailable :
  (∀ now resp c,
      RateCache.exchangeRatesCache c = None
      ∨ RateCache.RATES_CACHE_DURATION ≤ now - RateCache.lastRatesFetch c →
      RateCacheFacts.exchange_failure resp →
      (RateCache.getExchangeRates now resp c).1.1 = None)
  ∧ (∀ now resp c,
      JS.truthy_opt (RateCache.arsRateCache c) = false
      ∨ RateCache.ARS_CACHE_DURATION ≤ now - RateCache.lastARSFetch c →
      RateCacheFacts.ars_failure resp →
      (RateCache.getARSRate now resp c).1.1 = None)
  ∧ (∀ now resp c v c1 reqs,
      RateCache.getExchangeRates now resp c = (Some v, c1, reqs) →
      (reqs = [] ∧ RateCache.exchangeRatesCache c = Some v
       ∧ now - RateCache.lastRatesFetch c < RateCache.RATES_CACHE_DURATION)
      ∨ (reqs = [RateCache.GET_exchange_api]
         ∧ resp = RateCache.ExchangeJson true (Some v)
         ∧ RateCache.lastRatesFetch c1 = now))
  ∧ (∀ now resp c v c1 reqs,
      RateCache.getARSRate now resp c = (Some v, c1, reqs) →
      (reqs = [] ∧ RateCache.arsRateCache c = Some v
       ∧ now - RateCache.lastARSFetch c < RateCache.ARS_CACHE_DURATION)
      ∨ (reqs = [RateCache.GET_criptoya]
         ∧ (∃ ask bid, resp = RateCache.ArsJson (Some ask) (Some bid)
                       ∧ v = RateCache.ars_mid ask bid)
         ∧ RateCache.lastARSFetch c1 = now))
  ∧ (∀ env w depositId depositAmount currencyHash conversionRate verifierAddress
       currencyCode,
      JS.map_get (JS.toLowerCase currencyHash) Tables.currencyHashToCode
      = Some currencyCode →
      currencyCode ≠ "ARS" → currencyCode ≠ "USD" →
      RateCache.exchangeRatesCache (rates w) = None
      ∨ RateCache.RATES_CACHE_DURATION
        ≤ now env - RateCache.lastRatesFetch (rates w) →
      RateCacheFacts.exchange_failure (exchange_response env) →
      ∃ w', checkSniperOpportunity env depositId depositAmount currencyHash
              conversionRate verifierAddress w
            = ([HttpGet RateCache.GET_exchange_api], w', Returned ()))
  ∧ (∀ env w depositId depositAmount currencyHash conversionRate verifierAddress,
      JS.map_get (JS.toLowerCase currencyHash) Tables.currencyHashToCode
      = Some "ARS" →
      JS.truthy_opt (RateCache.arsRateCache (rates w)) = false
      ∨ RateCache.ARS_CACHE_DURATION
        ≤ now env - RateCache.lastARSFetch (rates w) →
      RateCacheFacts.ars_failure (ars_response env) →
      ∃ w', checkSniperOpportunity env depositId depositAmount currencyHash
              conversionRate verifierAddress w
            = ([HttpGet RateCache.GET_criptoya], w', Returned ())).
Proof.
  split_and!.
  - intros now resp c H1 H2.
    apply (RateCacheFacts.getExchangeRates_failed_refresh now resp c H1 H2).
  - intros now resp c H1 H2.
    apply (RateCacheFacts.getARSRate_failed_refresh now resp c H1 H2).
  - apply RateCacheFacts.getExchangeRates_never_stale.
  - apply RateCacheFacts.getARSRate_never_stale.
  - intros env w depositId depositAmount currencyHash conversionRate
      verifierAddress currencyCode Hcode Hars Husd Hexp Hfail.
    destruct (RateCacheFacts.getExchangeRates_failed_refresh
                (now env) (exchange_response env) (rates w) Hexp Hfail)
      as [Hv Hreq].
    exists (set_rates (RateCache.getExchangeRates
                         (now env) (exchange_response env) (rates w)).1.2 w).
    eapply checkSniperOpportunity_unavailable; [done|].
    unfold resolve_market_rate.
    rewrite !bool_decide_eq_false_2 by done.
    rewrite bind_run. unfold getExchangeRates.
    destruct (RateCache.getExchangeRates _ _ _) as [[v c'] reqs].
    simpl in Hv, Hreq. subst. reflexivity.
  - intros env w depositId depositAmount currencyHash conversionRate
      verifierAddress Hcode Hexp Hfail.
    destruct (RateCacheFacts.getARSRate_failed_refresh
                (now env) (ars_response env) (rates w) Hexp Hfail)
      as [Hv Hreq].
    exists (set_rates (RateCache.getARSRate
                         (now env) (ars_response env) (rates w)).1.2 w).
    eapply checkSniperOpportunity_unavailable; [done|].
    unfold resolve_market_rate.
    rewrite bool_decide_eq_true_2 by done.
    rewrite bind_run. unfold getARSRate.
    destruct (RateCache.getARSRate _ _ _) as [[v c'] reqs].
    simpl in Hv, Hreq. subst. reflexivity.
Qed.

Definition EUR_hash : string :=
  "0xfff16d60be267153303bbfa66e593fb8d06e24ea5ef24b6acca5224c2ca6b907".

Definition ARS_hash : string :=
  "0x8fd50654b7dd2dc839f7cab32800ba0c6f7f66e1ccf89b21c09405469c2175ec".

(** The cache holds rates fetched at time 0; the clock of
    [two_snipers_env] shows 1000, that of the late environment 61000, and
    both providers reject the request. *)
Definition stale_world : World :=
  mkWorld (RateCache.mkCache (Some {[ "EUR" := 0.5%float ]}) 0
             (Some 700%float) 0)
          ∅ ∅ ∅ ∅ [] [].

Definition late_env : Env :=
  mkEnv two_snipers 61000 0 RateCache.ExchangeRejects RateCache.ArsRejects
        true true (λ _, true).

(** The theorem at a EUR and an ARS deposit checked at time 61000 while
    the providers are down: one request each and nothing else, although
    the expired rates would make both deposits look like bargains. *)
Lemma failed_refresh_is_unavailable_witness :
  (∃ w', checkSniperOpportunity late_env 12 1000000 EUR_hash
           400000000000000000 venmo_verifier stale_world
         = ([HttpGet RateCache.GET_exchange_api], w', Returned ()))
  ∧ (∃ w', checkSniperOpportunity late_env 12 1000000 ARS_hash
             400000000000000000 venmo_verifier stale_world
           = ([HttpGet RateCache.GET_criptoya], w', Returned ())).
Proof.
  split.
  - apply (proj1 (proj2 (proj2 (proj2 (proj2 failed_refresh_is_unavailable))))
             late_env stale_world 12 1000000%float EUR_hash
             400000000000000000 venmo_verifier "EUR").
    + reflexivity.
    + discriminate.
    + discriminate.
    + right. vm_compute. discriminate.
    + exact I.
  - apply (proj2 (proj2 (proj2 (proj2 (proj2 failed_refresh_is_unavailable))))
             late_env stale_world 12 1000000%float ARS_hash
             400000000000000000 venmo_verifier).
    + reflexivity.
    + right. vm_compute. discriminate.
    + exact I.
Defined.

End SniperFacts.

(** ** Transaction reconciliation *)

Module ReconcileFacts.
Import Async AsyncFacts Pending Reconcile.

(** *** Insertion-ordered sets and maps *)

Lemma set_add_elem {A : Type} `{EqDecision A} (k x : A) (s : list A) :
  x ∈ JS.set_add k s ↔ x = k ∨ x ∈ s.
Proof.
  unfold JS.set_add, JS.set_has. destruct (bool_decide (k ∈ s)) eqn:E.
  - apply bool_decide_eq_true in E. split; [by right|]. by intros [->|?].
  - rewrite elem_of_app, list_elem_of_singleton. tauto.
Qed.

Lemma set_add_NoDup {A : Type} `{EqDecision A} (k : A) (s : list A) :
  NoDup s → NoDup (JS.set_add k s).
Proof.
  intros Hs. unfold JS.set_add, JS.set_has.
  destruct (bool_decide (k ∈ s)) eqn:E; [done|].
  apply bool_decide_eq_false in E. apply NoDup_app. split_and!; [done| |].
  - intros x Hx ->%list_elem_of_singleton. done.
  - apply NoDup_singleton.
Qed.

Lemma map_get_set {V : Type} (k k' : string) (v : V) (m : list (string * V)) :
  JS.map_get k' (JS.map_set k v m)
  = if decide (k' = k) then Some v else JS.map_get k' m.
Proof.
  induction m as [|[k0 v0] m IH]; simpl.
  - by destruct (decide (k' = k)).
  - destruct (decide (k = k0)) as [->|Hne]; simpl.
    + by destruct (decide (k' = k0)).
    + destruct (decide (k' = k0)) as [->|Hne'].
      * by rewrite decide_False by done.
      * done.
Qed.

(** *** What the handlers record *)



(** The entry after a sequence of events of one transaction. *)
Definition recorded (blockNumber : Z) (ps : list ParsedLog) : TxData :=
  foldl (λ d p, record_intent p d) (mkTxData [] [] blockNumber []) ps.

(** Every stored payload sits under the lower-cased hash it carries, the
    two sets have no duplicates and every member of a set has a
    payload. *)
Definition well_formed (d : TxData) : Prop :=
  NoDup (fulfilled d) ∧ NoDup (pruned d)
  ∧ (∀ k raw, JS.map_get k (rawIntents d) = Some raw →
       JS.toLowerCase (intentHash raw) = k)
  ∧ (∀ k, k ∈ fulfilled d ∨ k ∈ pruned d → is_Some (JS.map_get k (rawIntents d))).

Lemma record_intent_well_formed p d :
  well_formed d → well_formed (record_intent p d).
Proof.
  intros (Hf & Hp & Hraw & Hsome).
  destruct p as [h dep v|h dep|h|h]; simpl;
    (split_and!; simpl;
     [by (try apply set_add_NoDup)
     |by (try apply set_add_NoDup)
     |intros k raw; rewrite map_get_set;
      destruct (decide (k = JS.toLowerCase h)) as [->|Hne];
      [by intros [= <-]|apply Hraw]
     |intros k; rewrite ?set_add_elem, map_get_set;
      destruct (decide (k = JS.toLowerCase h)) as [->|Hne];
      [by eexists|intros Hk; apply Hsome; tauto]]).
Qed.

Lemma recorded_well_formed bn ps : well_formed (recorded bn ps).
Proof.
  unfold recorded.
  assert (well_formed (mkTxData [] [] bn [])) as H0.
  { split_and!; simpl; [apply NoDup_nil_2|apply NoDup_nil_2|done|].
    intros k [H|H]; by apply elem_of_nil in H. }
  revert H0. generalize (mkTxData [] [] bn []).
  induction ps as [|p ps IH]; intros d Hd; simpl; [done|].
  by apply IH, record_intent_well_formed.
Qed.


(** *** The handlers *)

Lemma handleIntentEvent_spec l w :
  let tx := transactionHash l in
  let w' := handleIntentEvent l w in
  pendingTransactions w'
  = <[tx := record_intent (parsed l)
              (default (mkTxData [] [] (log_blockNumber l) [])
                       (pendingTransactions w !! tx))]> (pendingTransactions w)
  ∧ timers w' = (if bool_decide (tx ∈ processingScheduled w)
                 then timers w else timers w ++ [tx])
  ∧ tx ∈ processingScheduled w'
  ∧ intentDetails w' = intentDetails w
  ∧ orchestratorIntentDetails w' = orchestratorIntentDetails w
  ∧ webhook w' = webhook w.
Proof.
  unfold handleIntentEvent, scheduleTransactionProcessing. simpl.
  destruct (bool_decide (transactionHash l ∈ processingScheduled w)) eqn:E;
    simpl; split_and!; try done.
  - by apply bool_decide_eq_true in E.
  - apply elem_of_union. left. by apply elem_of_singleton.
Qed.

(** Further events of a transaction that is pending and scheduled only
    grow its entry. *)
Lemma handle_more tx ls : ∀ w d,
  Forall (λ l, transactionHash l = tx) ls →
  pendingTransactions w !! tx = Some d → tx ∈ processingScheduled w →
  let w' := foldl (λ w l, handleIntentEvent l w) w ls in
  pendingTransactions w' !! tx
  = Some (foldl (λ d p, record_intent p d) d (parsed <$> ls))
  ∧ timers w' = timers w
  ∧ tx ∈ processingScheduled w'
  ∧ intentDetails w' = intentDetails w
  ∧ orchestratorIntentDetails w' = orchestratorIntentDetails w
  ∧ webhook w' = webhook w.
Proof.
  induction ls as [|l ls IH]; intros w d Hall Hd Hs; simpl; [done|].
  inversion Hall as [|? ? Hl Hls]; subst.
  destruct (handleIntentEvent_spec l w) as (Hp & Ht & Hs' & Hi & Ho & Hw).
  simpl in *. rewrite Hd in Hp. simpl in Hp.
  rewrite bool_decide_eq_true_2 in Ht by done.
  destruct (IH (handleIntentEvent l w) (record_intent (parsed l) d) Hls)
    as (IH1 & IH2 & IH3 & IH4 & IH5 & IH6).
  - rewrite Hp. apply lookup_insert_eq.
  - done.
  - split_and!; first [done|congruence].
Qed.

(** The events of a transaction that was not pending: one entry, one
    timer. *)
Lemma handle_first tx l ls w :
  Forall (λ l, transactionHash l = tx) (l :: ls) →
  pendingTransactions w !! tx = None → tx ∉ processingScheduled w →
  let w' := foldl (λ w l, handleIntentEvent l w) w (l :: ls) in
  pendingTransactions w' !! tx
  = Some (recorded (log_blockNumber l) (parsed <$> (l :: ls)))
  ∧ timers w' = timers w ++ [tx]
  ∧ intentDetails w' = intentDetails w
  ∧ orchestratorIntentDetails w' = orchestratorIntentDetails w
  ∧ webhook w' = webhook w.
Proof.
  intros Hall Hnone Hns. inversion Hall as [|? ? Hl Hls]; subst. simpl.
  destruct (handleIntentEvent_spec l w) as (Hp & Ht & Hs' & Hi & Ho & Hw).
  simpl in *. rewrite Hnone in Hp. simpl in Hp.
  rewrite bool_decide_eq_false_2 in Ht by done.
  destruct (handle_more (transactionHash l) ls (handleIntentEvent l w)
              (record_intent (parsed l)
                 (mkTxData [] [] (log_blockNumber l) [])) Hls)
    as (H1 & H2 & H3 & H4 & H5 & H6).
  - rewrite Hp. apply lookup_insert_eq.
  - done.
  - unfold recorded. simpl. split_and!; first [done|congruence].
Qed.

(** *** Notices in a trace *)

Lemma telegram_notices_app k t1 t2 :
  telegram_notices k (t1 ++ t2) = telegram_notices k t1 ++ telegram_notices k t2.
Proof. apply omap_app. Qed.




Lemma posts_no_telegram k t : Forall is_post t → telegram_notices k t = [].
Proof.
  induction 1 as [|e t He Ht IH]; [done|]. by destruct e.
Qed.



Lemma for_of_Forall {A : Type} (P : Effect → Prop) (body : A → M unit) xs :
  (∀ x w, x ∈ xs → Forall P (body x w).1.1) →
  ∀ w, Forall P (for_of xs body w).1.1.
Proof.
  induction xs as [|x xs IH]; intros Hbody w; [constructor|].
  rewrite for_of_cons.
  pose proof (Hbody x w (list_elem_of_here _ _)) as Hx.
  destruct (body x w) as [[e1 w1] [[]|]]; simpl in *; [|done].
  assert (Forall P (for_of xs body w1).1.1) as Hxs.
  { apply IH. intros y w' Hy. apply Hbody. by apply list_elem_of_further. }
  destruct (for_of xs body w1) as [[e2 w2] r2]; simpl in *.
  by apply Forall_app.
Qed.

(** *** The notification functions when no post is rejected *)

Definition orders_quiet (env : Env) (w : World) : Prop :=
  orders_webhook_configured env = true →
  Forall (λ sc, post_rejects sc = false) (webhook w).

(** What a notification may change: the stored orchestrator details of
    the intents in [P] and the position in the webhook script. *)
Definition steps_over (P : string → Prop) (w w' : World) : Prop :=
  (∀ k, ¬ P k →
     orchestratorIntentDetails w' !! k = orchestratorIntentDetails w !! k)
  ∧ pendingTransactions w' = pendingTransactions w
  ∧ processingScheduled w' = processingScheduled w
  ∧ timers w' = timers w
  ∧ (∃ n, webhook w' = drop n (webhook w)).

Lemma steps_over_refl P w : steps_over P w w.
Proof. split_and!; try done. by exists 0%nat. Qed.

Lemma steps_over_trans (P Q R : string → Prop) w1 w2 w3 :
  (∀ k, P k → R k) → (∀ k, Q k → R k) →
  steps_over P w1 w2 → steps_over Q w2 w3 → steps_over R w1 w3.
Proof.
  intros HP HQ (A1 & A2 & A3 & A4 & n & A5) (B1 & B2 & B3 & B4 & m & B5).
  split_and!; try congruence.
  - intros k Hk. rewrite B1, A1; [done|naive_solver..].
  - exists (n + m)%nat. by rewrite B5, A5, drop_drop.
Qed.

Lemma steps_over_quiet env P w w' :
  steps_over P w w' → orders_quiet env w → orders_quiet env w'.
Proof.
  intros (_ & _ & _ & _ & n & Hw) Hq Hc. rewrite Hw. by apply Forall_drop, Hq.
Qed.

Lemma quiet_next env w :
  orders_quiet env w →
  (orders_webhook_configured env && post_rejects (next_script w))%bool = false.
Proof.
  intros Hq. destruct (orders_webhook_configured env) eqn:E; [|done]. simpl.
  specialize (Hq E). unfold next_script.
  destruct (webhook w) as [|sc q]; [done|]. simpl.
  by inversion Hq.
Qed.

(** The subscribers a notice about a deposit goes to. *)
Definition interested (env : Env) (depositId : Z) : list Z :=
  Db.getUsersInterestedInDeposit (db env) depositId.

(** The Telegram notices about [k] of a notification with message [msg]
    sent to [users]. *)
Definition notices_of (msg : Message) (users : list Z) (k : string)
  : list (Z * Notice) :=
  match notice_of_message msg with
  | Some (n, k0) => if bool_decide (k0 = k) then (λ c, (c, n)) <$> users else []
  | None => []
  end.

Lemma notify_users_spec env depositId st h msg k users : ∀ w,
  ∃ t, for_of users (notify_user env depositId st h msg) w = (t, w, Returned ())
       ∧ telegram_notices k t = notices_of msg users k.
Proof.
  induction users as [|c users IH]; intros w.
  - exists []. split; [done|]. unfold notices_of.
    destruct (notice_of_message msg) as [[n k0]|]; [|done].
    by destruct (bool_decide _).
  - destruct (IH w) as (t & Ht & Hn). rewrite for_of_cons.
    unfold notify_user at 1. rewrite !bind_run. simpl. rewrite Ht.
    eexists. split; [done|]. simpl. unfold telegram_notices at 1. simpl.
    fold (telegram_notices k t). rewrite Hn. unfold notices_of.
    destruct (notice_of_message msg) as [[n k0]|]; [|done].
    by destruct (bool_decide _).
Qed.

Lemma notify_interested_spec env depositId st h msg k w :
  orders_quiet env w →
  ∃ t w', notify_interested env depositId st h msg w = (t, w', Returned ())
          ∧ steps_over (λ _, False) w w'
          ∧ orchestratorIntentDetails w' = orchestratorIntentDetails w
          ∧ telegram_notices k t = notices_of msg (interested env depositId) k.
Proof.
  intros Hq. unfold notify_interested. fold (interested env depositId).
  destruct (bool_decide (interested env depositId = [])) eqn:E.
  - apply bool_decide_eq_true in E. rewrite E.
    exists [], w. split_and!; [done|apply steps_over_refl|done|].
    unfold notices_of. destruct (notice_of_message msg) as [[n k0]|]; [|done].
    by destruct (bool_decide _).
  - rewrite bind_run.
    destruct (postToDiscord_spec (orders_webhook_configured env)
                DISCORD_ORDERS_WEBHOOK_URL msg w) as (Hp & Hw & Hr).
    rewrite (quiet_next env w Hq) in Hr.
    destruct (postToDiscord _ _ _ w) as [[e w1] r]; simpl in *. subst r w1.
    destruct (notify_users_spec env depositId st h msg k
                (interested env depositId)
                (if orders_webhook_configured env
                 then set_webhook (tail (webhook w)) w else w))
      as (t & Ht & Hn).
    rewrite Ht. eexists _, _. split; [done|].
    split_and!.
    + destruct (orders_webhook_configured env); [|apply steps_over_refl].
      split_and!; try done. exists 1%nat. simpl. by destruct (webhook w).
    + by destruct (orders_webhook_configured env).
    + by rewrite telegram_notices_app, (posts_no_telegram k e Hp), Hn.
Qed.

Lemma notify_orchestrator_spec env depositId st h msg k w :
  orders_quiet env w →
  ∃ t w', notify_orchestrator env depositId st h msg w = (t, w', Returned ())
          ∧ steps_over (λ k', k' = JS.toLowerCase h) w w'
          ∧ telegram_notices k t = notices_of msg (interested env depositId) k.
Proof.
  intros Hq. unfold notify_orchestrator. fold (interested env depositId).
  destruct (bool_decide (interested env depositId = [])) eqn:E.
  - apply bool_decide_eq_true in E. rewrite E.
    exists [], w. split_and!; [done|apply steps_over_refl|].
    unfold notices_of. destruct (notice_of_message msg) as [[n k0]|]; [|done].
    by destruct (bool_decide _).
  - rewrite bind_run.
    destruct (postToDiscord_spec (orders_webhook_configured env)
                DISCORD_ORDERS_WEBHOOK_URL msg w) as (Hp & Hw & Hr).
    rewrite (quiet_next env w Hq) in Hr.
    destruct (postToDiscord _ _ _ w) as [[e w1] r]; simpl in *. subst r w1.
    rewrite bind_run.
    destruct (notify_users_spec env depositId st h msg k
                (interested env depositId)
                (if orders_webhook_configured env
                 then set_webhook (tail (webhook w)) w else w))
      as (t & Ht & Hn).
    rewrite Ht. simpl. eexists _, _. split; [done|].
    split.
    + split_and!; simpl.
      * intros k' Hk'. rewrite lookup_delete_ne by done.
        by destruct (orders_webhook_configured env).
      * by destruct (orders_webhook_configured env).
      * by destruct (orders_webhook_configured env).
      * by destruct (orders_webhook_configured env).
      * destruct (orders_webhook_configured env); [|by exists 0%nat].
        exists 1%nat. simpl. by destruct (webhook w).
    + rewrite app_nil_r.
      by rewrite telegram_notices_app, (posts_no_telegram k e Hp), Hn.
Qed.

(** The subscribers the notice of a payload goes to: those interested in
    its deposit, which for an orchestrator payload is the deposit of the
    stored details, if there are any. *)
Definition audience (env : Env) (w : World) (raw : RawIntent) : list Z :=
  match raw with
  | RawEscrowFulfilled d _ _ | RawEscrowPruned d _ => interested env d
  | RawOrchestratorFulfilled h | RawOrchestratorPruned h =>
      match orchestratorIntentDetails w !! JS.toLowerCase h with
      | Some det => interested env (od_depositId det)
      | None => []
      end
  end.

Definition escrow_pruned (raw : RawIntent) : bool :=
  match raw with
  | RawEscrowPruned _ _ => true
  | _ => false
  end.

Lemma steps_over_weaken (P Q : string → Prop) w w' :
  (∀ k, P k → Q k) → steps_over P w w' → steps_over Q w w'.
Proof.
  intros HPQ H. eapply (steps_over_trans P (λ _, False)); [done|done|exact H|].
  apply steps_over_refl.
Qed.

Lemma tagged_notices msg users n h k k' :
  notice_of_message msg = Some (n, JS.toLowerCase h) →
  JS.toLowerCase h = k →
  notices_of msg users k'
  = if decide (k' = k) then (λ c, (c, n)) <$> users else [].
Proof.
  intros Hmsg <-. unfold notices_of. rewrite Hmsg.
  destruct (decide (k' = JS.toLowerCase h)) as [->|Hne].
  - by rewrite bool_decide_eq_true_2.
  - by rewrite bool_decide_eq_false_2.
Qed.

(** The dispatch of a fulfilled intent on its payload. *)
Lemma dispatch_fulfilled_spec env tx raw k k' w :
  JS.toLowerCase (intentHash raw) = k → escrow_pruned raw = false →
  orders_quiet env w →
  ∃ t w', match eventType raw with
          | orchestrator => sendOrchestratorFulfilledNotification env raw tx
          | undefined => sendFulfilledNotification env raw tx
          end w = (t, w', Returned ())
          ∧ steps_over (λ x, x = k) w w'
          ∧ telegram_notices k' t
            = if decide (k' = k)
              then (λ c, (c, fulfilled_notice)) <$> audience env w raw else [].
Proof.
  intros Hk Hslip Hq.
  destruct raw as [dep v h|dep h|h|h]; simpl in Hk, Hslip; try done;
    cbn [eventType audience].
  - unfold sendFulfilledNotification.
    destruct (SniperFacts.getPlatformName_Some v) as [name ->].
    rewrite bind_run. simpl. rewrite bind_run.
    assert (∀ w2, steps_over (λ _, False) w w2 →
      ∃ t w', (let (p, r) :=
                 notify_interested env dep status_fulfilled h
                                   (OrderFulfilled dep h) w2 in
               let (e2, w3) := p in (@nil Effect ++ e2, w3, r))
              = (t, w', Returned ())
              ∧ steps_over (λ x, x = k) w w'
              ∧ telegram_notices k' t
                = if decide (k' = k)
                  then (λ c, (c, fulfilled_notice)) <$> interested env dep
                  else []) as Hrest.
    { intros w2 Hs2.
      destruct (notify_interested_spec env dep status_fulfilled h
                  (OrderFulfilled dep h) k' w2) as (t & w' & Ht & Hs & Ho & Hn).
      { by eapply steps_over_quiet. }
      rewrite Ht. eexists _, _. split; [done|]. split.
      + eapply (steps_over_trans (λ _, False) (λ _, False)); [done|done|done|done].
      + simpl. rewrite Hn. by apply (tagged_notices _ _ _ h). }
    destruct (bool_decide (is_Some (intentDetails w !! JS.toLowerCase h))).
    + destruct (Hrest (set_intentDetails
                         (delete (JS.toLowerCase h) (intentDetails w)) w))
        as (t & w' & Ht & Hs & Hn).
      { split_and!; try done. by exists 0%nat. }
      simpl in *. rewrite Ht. by eexists _, _.
    + destruct (Hrest w (steps_over_refl _ w)) as (t & w' & Ht & Hs & Hn).
      simpl in *. rewrite Ht. by eexists _, _.
  - unfold sendOrchestratorFulfilledNotification. rewrite bind_run. simpl.
    destruct (orchestratorIntentDetails w !! JS.toLowerCase h) as [det|].
    + destruct (notify_orchestrator_spec env (od_depositId det)
                  status_fulfilled h (OrderFulfilled (od_depositId det) h)
                  k' w Hq) as (t & w' & Ht & Hs & Hn).
      rewrite Ht. eexists _, _. split; [done|]. split.
      * by rewrite <- Hk.
      * rewrite Hn. by apply (tagged_notices _ _ _ h).
    + eexists _, _. split; [done|]. split; [apply steps_over_refl|].
      by destruct (decide _).
  - unfold sendOrchestratorFulfilledNotification. rewrite bind_run. simpl.
    destruct (orchestratorIntentDetails w !! JS.toLowerCase h) as [det|].
    + destruct (notify_orchestrator_spec env (od_depositId det)
                  status_fulfilled h (OrderFulfilled (od_depositId det) h)
                  k' w Hq) as (t & w' & Ht & Hs & Hn).
      rewrite Ht. eexists _, _. split; [done|]. split.
      * by rewrite <- Hk.
      * rewrite Hn. by apply (tagged_notices _ _ _ h).
    + eexists _, _. split; [done|]. split; [apply steps_over_refl|].
      by destruct (decide _).
Qed.

(** The dispatch of a pruned intent on its payload. *)
Lemma dispatch_pruned_spec env tx raw k k' w :
  JS.toLowerCase (intentHash raw) = k → orders_quiet env w →
  ∃ t w', match eventType raw with
          | orchestrator => sendOrchestratorPrunedNotification env raw tx
          | undefined => sendPrunedNotification env raw tx
          end w = (t, w', Returned ())
          ∧ steps_over (λ x, x = k) w w'
          ∧ telegram_notices k' t
            = if decide (k' = k)
              then (λ c, (c, cancelled_notice)) <$> audience env w raw else [].
Proof.
  intros Hk Hq.
  assert (∀ dep h, JS.toLowerCase h = k →
    ∃ t w', notify_interested env dep status_pruned h (OrderCancelled dep h) w
            = (t, w', Returned ())
            ∧ steps_over (λ x, x = k) w w'
            ∧ telegram_notices k' t
              = if decide (k' = k)
                then (λ c, (c, cancelled_notice)) <$> interested env dep
                else []) as Hescrow.
  { intros dep h Hh.
    destruct (notify_interested_spec env dep status_pruned h
                (OrderCancelled dep h) k' w Hq) as (t & w' & Ht & Hs & Ho & Hn).
    exists t, w'. split; [done|]. split.
    - by apply (steps_over_weaken (λ _, False)).
    - rewrite Hn. by apply (tagged_notices _ _ _ h). }
  assert (∀ h, JS.toLowerCase h = k →
    ∃ t w', (get_world ≫= λ w0,
               match orchestratorIntentDetails w0 !! JS.toLowerCase h with
               | Some det =>
                   notify_orchestrator env (od_depositId det) status_pruned h
                     (OrderCancelled (od_depositId det) h)
               | None => mret ()
               end) w = (t, w', Returned ())
            ∧ steps_over (λ x, x = k) w w'
            ∧ telegram_notices k' t
              = if decide (k' = k)
                then (λ c, (c, cancelled_notice)) <$>
                       match orchestratorIntentDetails w !! JS.toLowerCase h with
                       | Some det => interested env (od_depositId det)
                       | None => []
                       end
                else []) as Horch.
  { intros h Hh. rewrite bind_run. simpl.
    destruct (orchestratorIntentDetails w !! JS.toLowerCase h) as [det|].
    + destruct (notify_orchestrator_spec env (od_depositId det)
                  status_pruned h (OrderCancelled (od_depositId det) h)
                  k' w Hq) as (t & w' & Ht & Hs & Hn).
      rewrite Ht. eexists _, _. split; [done|]. split.
      * by rewrite <- Hh.
      * rewrite Hn. by apply (tagged_notices _ _ _ h).
    + eexists _, _. split; [done|]. split; [apply steps_over_refl|].
      by destruct (decide _). }
  destruct raw as [dep v h|dep h|h|h]; simpl in Hk; cbn [eventType audience].
  - by apply Hescrow.
  - by apply Hescrow.
  - by apply Horch.
  - by apply Horch.
Qed.

(** *** The two loops *)

(** The notices about [k] its item sends when it is dispatched as [n]. *)
Definition expected (env : Env) (w : World) (d : TxData) (n : Notice) (k : string)
  : list (Z * Notice) :=
  match JS.map_get k (rawIntents d) with
  | Some raw => (λ c, (c, n)) <$> audience env w raw
  | None => []
  end.

(** No intent of the fulfilled set has the payload of an escrow
    [IntentPruned] event, that is, none had such an event recorded after
    its [IntentFulfilled]. *)
Definition fulfilled_payloads (d : TxData) : Prop :=
  ∀ k raw, k ∈ fulfilled d → JS.map_get k (rawIntents d) = Some raw →
           escrow_pruned raw = false.

Lemma expected_frame env w w2 d n k :
  well_formed d →
  orchestratorIntentDetails w2 !! k = orchestratorIntentDetails w !! k →
  expected env w2 d n k = expected env w d n k.
Proof.
  intros (_ & _ & Hraw & _) Hk. unfold expected.
  destruct (JS.map_get k (rawIntents d)) as [raw|] eqn:E; [|done].
  specialize (Hraw k raw E).
  destruct raw; simpl in *; try done; by rewrite Hraw, Hk.
Qed.

Lemma process_fulfilled_spec env d tx k k' w :
  well_formed d → fulfilled_payloads d → k ∈ fulfilled d → orders_quiet env w →
  ∃ t w', process_fulfilled env d tx k w = (t, w', Returned ())
          ∧ steps_over (λ x, x = k ∧ true = true) w w'
          ∧ telegram_notices k' t
            = if decide (k' = k)
              then (if true then expected env w d fulfilled_notice k else [])
              else [].
Proof.
  intros (_ & _ & Hraw & Hsome) Hslip Hk Hq.
  destruct (Hsome k (or_introl Hk)) as [raw Hget].
  unfold process_fulfilled, expected. rewrite Hget.
  destruct (dispatch_fulfilled_spec env tx raw k k' w)
    as (t & w' & Ht & Hs & Hn); [by apply Hraw|by eapply Hslip|done|].
  exists t, w'. split_and!; [done| |done].
  eapply steps_over_weaken; [|exact Hs]. by intros x ->.
Qed.

Lemma process_pruned_spec env d tx k k' w :
  well_formed d → k ∈ pruned d → orders_quiet env w →
  ∃ t w', process_pruned env d tx k w = (t, w', Returned ())
          ∧ steps_over (λ x, x = k ∧ negb (JS.set_has k (fulfilled d)) = true)
                       w w'
          ∧ telegram_notices k' t
            = if decide (k' = k)
              then (if negb (JS.set_has k (fulfilled d))
                    then expected env w d cancelled_notice k else [])
              else [].
Proof.
  intros (_ & _ & Hraw & Hsome) Hk Hq.
  destruct (Hsome k (or_intror Hk)) as [raw Hget].
  unfold process_pruned, expected. rewrite Hget.
  destruct (JS.set_has k (fulfilled d)); simpl.
  - exists [], w. split_and!; [done|apply steps_over_refl|].
    by destruct (decide _).
  - destruct (dispatch_pruned_spec env tx raw k k' w)
      as (t & w' & Ht & Hs & Hn); [by apply Hraw|done|].
    exists t, w'. split_and!; [done| |done].
    eapply steps_over_weaken; [|exact Hs]. by intros x ->.
Qed.

(** A loop whose items each send the notices [E] of their own key, when
    [A] holds of it, and touch the details of their own key only. *)
Lemma loop_spec env (body : string → M unit) (A : string → bool)
    (E : World → string → list (Z * Notice)) ks :
  (∀ k k' w, k ∈ ks → orders_quiet env w →
     ∃ t w', body k w = (t, w', Returned ())
             ∧ steps_over (λ x, x = k ∧ A k = true) w w'
             ∧ telegram_notices k' t
               = if decide (k' = k) then (if A k then E w k else []) else []) →
  (∀ w w2 k,
     orchestratorIntentDetails w2 !! k = orchestratorIntentDetails w !! k →
     E w2 k = E w k) →
  NoDup ks → ∀ w, orders_quiet env w →
  ∃ t w', for_of ks body w = (t, w', Returned ())
          ∧ steps_over (λ x, x ∈ ks ∧ A x = true) w w'
          ∧ ∀ k', telegram_notices k' t
                  = if decide (k' ∈ ks) then (if A k' then E w k' else []) else [].
Proof.
  intros Hbody HE. induction ks as [|k ks IH]; intros Hnd w Hq.
  - exists [], w. split_and!; [done|apply steps_over_refl|].
    intros k'. destruct (decide (k' ∈ [])) as [H|]; [|done].
    by apply elem_of_nil in H.
  - apply NoDup_cons in Hnd as [Hk Hnd].
    destruct (Hbody k k w (list_elem_of_here _ _) Hq) as (t1 & w1 & Ht1 & Hs1 & _).
    assert (orders_quiet env w1) as Hq1 by (by eapply steps_over_quiet).
    assert (∀ k0 k' w0, k0 ∈ ks → orders_quiet env w0 →
              ∃ t w', body k0 w0 = (t, w', Returned ())
                      ∧ steps_over (λ x, x = k0 ∧ A k0 = true) w0 w'
                      ∧ telegram_notices k' t
                        = if decide (k' = k0)
                          then (if A k0 then E w0 k0 else []) else [])
      as Hbody'.
    { intros k0 k' w0 Hk0. apply Hbody. by apply list_elem_of_further. }
    destruct (IH Hbody' Hnd w1 Hq1) as (t2 & w2 & Ht2 & Hs2 & Hn2).
    rewrite for_of_cons, Ht1, Ht2. eexists _, _. split; [done|]. split.
    + eapply steps_over_trans; [| |exact Hs1|exact Hs2].
      * intros x [-> HA]. split; [apply list_elem_of_here|done].
      * intros x [Hx HA]. split; [by apply list_elem_of_further|done].
    + intros k'.
      destruct (Hbody k k' w (list_elem_of_here _ _) Hq)
        as (t1' & w1' & Ht1' & _ & Hn1).
      rewrite Ht1 in Ht1'. injection Ht1' as <- <-.
      rewrite telegram_notices_app, Hn1, Hn2.
      destruct (decide (k' = k)) as [->|Hne].
      * rewrite (decide_True (P := k ∈ k :: ks)) by apply list_elem_of_here.
        rewrite (decide_False (P := k ∈ ks)) by done. by rewrite app_nil_r.
      * destruct (decide (k' ∈ ks)) as [Hin|Hnin].
        -- rewrite (decide_True (P := k' ∈ k :: ks))
             by (by apply list_elem_of_further).
           simpl. destruct (A k'); [|done]. apply HE.
           destruct Hs1 as (Hd & _). apply Hd. by intros [? _].
        -- rewrite (decide_False (P := k' ∈ k :: ks)); [done|].
           by intros [?|?]%elem_of_cons.
Qed.

(** *** The reconciliation *)

(** The notices about [k] the reconciliation of the entry [d] sends:
    those of a fulfilled intent if [k] is in the fulfilled set, else
    those of a cancelled one if it is in the pruned set, else none. *)
Definition expected_notices (env : Env) (w : World) (d : TxData) (k : string)
  : list (Z * Notice) :=
  if JS.set_has k (fulfilled d) then expected env w d fulfilled_notice k
  else if JS.set_has k (pruned d) then expected env w d cancelled_notice k
  else [].

Lemma processCompletedTransaction_spec env tx w d :
  pendingTransactions w !! tx = Some d →
  well_formed d → fulfilled_payloads d → orders_quiet env w →
  ∃ t w', processCompletedTransaction env tx w = (t, w', Returned ())
          ∧ pendingTransactions w' = delete tx (pendingTransactions w)
          ∧ processingScheduled w' = processingScheduled w
          ∧ timers w' = timers w
          ∧ ∀ k, telegram_notices k t = expected_notices env w d k.
Proof.
  intros Hd Hwf Hslip Hq. pose proof Hwf as (Hnf & Hnp & _ & _).
  unfold processCompletedTransaction. rewrite bind_run. simpl. rewrite Hd.
  destruct (loop_spec env (process_pruned env d tx)
              (λ k, negb (JS.set_has k (fulfilled d)))
              (λ w k, expected env w d cancelled_notice k) (pruned d))
    with (w := w) as (t1 & w1 & Ht1 & Hs1 & Hn1); [| |done|done|].
  { intros k k' w0 Hk Hq0. by apply process_pruned_spec. }
  { intros w0 w2 k Hk. by apply expected_frame. }
  assert (orders_quiet env w1) as Hq1 by (by eapply steps_over_quiet).
  destruct (loop_spec env (process_fulfilled env d tx) (λ _, true)
              (λ w k, expected env w d fulfilled_notice k) (fulfilled d))
    with (w := w1) as (t2 & w2 & Ht2 & Hs2 & Hn2); [| |done|done|].
  { intros k k' w0 Hk Hq0. by apply process_fulfilled_spec. }
  { intros w0 w3 k Hk. by apply expected_frame. }
  rewrite bind_run, Ht1. rewrite bind_run, Ht2. simpl.
  eexists _, _. split; [done|].
  destruct Hs1 as (Hd1 & Hp1 & Hsc1 & Htm1 & _).
  destruct Hs2 as (Hd2 & Hp2 & Hsc2 & Htm2 & _).
  split_and!; simpl; try congruence.
  intros k. rewrite app_nil_r, telegram_notices_app, Hn1, Hn2.
  unfold expected_notices, JS.set_has.
  destruct (decide (k ∈ fulfilled d)) as [Hf|Hf].
  - rewrite (bool_decide_eq_true_2 _ Hf). simpl.
    assert (expected env w1 d fulfilled_notice k
            = expected env w d fulfilled_notice k) as ->.
    { apply expected_frame; [done|]. apply Hd1. intros [_ H].
      unfold JS.set_has in H. by rewrite (bool_decide_eq_true_2 _ Hf) in H. }
    by destruct (decide (k ∈ pruned d)).
  - rewrite (bool_decide_eq_false_2 _ Hf). simpl. rewrite app_nil_r.
    destruct (decide (k ∈ pruned d)) as [Hp|Hp].
    + by rewrite (bool_decide_eq_true_2 _ Hp).
    + by rewrite (bool_decide_eq_false_2 _ Hp).
Qed.


(** *** What holds whatever the deliveries do *)

Lemma bind_Forall {A B : Type} (P : Effect → Prop) (m : M A) (f : A → M B) w :
  Forall P (m w).1.1 → (∀ a w', Forall P (f a w').1.1) →
  Forall P ((m ≫= f) w).1.1.
Proof.
  intros Hm Hf. rewrite bind_run.
  destruct (m w) as [[e1 w1] [a|]]; simpl in *; [|done].
  specialize (Hf a w1). destruct (f a w1) as [[e2 w2] r]; simpl in *.
  by apply Forall_app.
Qed.








Lemma fire_timer_spec env tx w d :
  tx ∈ timers w →
  pendingTransactions w !! tx = Some d →
  well_formed d → fulfilled_payloads d → orders_quiet env w →
  ∃ t w', fire_timer env tx w = (t, w', Returned ())
          ∧ pendingTransactions w' !! tx = None
          ∧ (tx ∉ processingScheduled w')
          ∧ timers w' = list_remove_first tx (timers w)
          ∧ ∀ k, telegram_notices k t = expected_notices env w d k.
Proof.
  intros Ht Hd Hwf Hslip Hq. unfold fire_timer.
  rewrite bool_decide_eq_true_2 by done.
  destruct (processCompletedTransaction_spec env tx
              (set_timers (list_remove_first tx (timers w)) w) d)
    as (t & w' & Hrun & Hp & Hs & Htm & Hn); [done..|].
  unfold timer_callback. rewrite bind_run, Hrun. simpl.
  eexists _, _. split; [done|]. split_and!; simpl.
  - rewrite Hp. apply lookup_delete_eq.
  - intros [_ Hx]%elem_of_difference. apply Hx. by apply elem_of_singleton.
  - done.
  - intros k. rewrite app_nil_r. apply Hn.
Qed.




#[global] Instance Notice_eq_dec : EqDecision Notice.
Proof. solve_decision. Defined.



(** The broadcast group listens to all deposits and chat 9 tracks
    deposit 12. *)
Definition listeners : Db.Store :=
  Db.mkStore [user_settings.mk Tables.ZKP2P_GROUP_ID (Some 0.1%float) true true]
             [] [user_deposits.mk 9 12 true] true.

Definition listeners_env : Env :=
  mkEnv listeners 1000 0 RateCache.ExchangeRejects RateCache.ArsRejects
        true true (λ _, true).

Definition quiet_world : World :=
  mkWorld RateCache.initial ∅ ∅ ∅ ∅ [] [].


(** An escrow intent is pruned and fulfilled in one transaction, in the
    order the contract emits the two events, and a second intent is
    pruned only; an orchestrator intent without stored details is
    fulfilled. *)
Definition mixed_logs : list Log :=
  [mkLog "0xtx" 5 (Escrow_IntentPruned "0xAB" 12);
   mkLog "0xtx" 5 (Escrow_IntentFulfilled "0xab" 12 SniperFacts.venmo_verifier);
   mkLog "0xtx" 5 (Escrow_IntentPruned "0xcd" 12);
   mkLog "0xtx" 5 (Orchestrator_IntentFulfilled "0xef")].

Definition mixed_world : World :=
  foldl (λ w x, handleIntentEvent x w) quiet_world mixed_logs.




(** The reverse order: the escrow [IntentPruned] arrives after the
    [IntentFulfilled] of the same intent and overwrites its payload.
    [sendFulfilledNotification] then raises on the missing verifier:
    nothing is sent, neither for this intent nor for the one after it,
    and the entry and its scheduling mark stay behind. *)
Definition reversed_logs : list Log :=
  [mkLog "0xtx" 5 (Escrow_IntentFulfilled "0xab" 12 SniperFacts.venmo_verifier);
   mkLog "0xtx" 5 (Escrow_IntentPruned "0xab" 12);
   mkLog "0xtx" 5 (Escrow_IntentFulfilled "0xcd" 12 SniperFacts.venmo_verifier)].

Definition reversed_world : World :=
  foldl (λ w x, handleIntentEvent x w) quiet_world reversed_logs.

Lemma pruned_after_fulfilled_raises :
  (fire_timer listeners_env "0xtx" reversed_world).1.1 = []
  ∧ (fire_timer listeners_env "0xtx" reversed_world).2 = Rejected
  ∧ is_Some (pendingTransactions
               (fire_timer listeners_env "0xtx" reversed_world).1.2 !! "0xtx")
  ∧ "0xtx" ∈ processingScheduled
               (fire_timer listeners_env "0xtx" reversed_world).1.2.
Proof.
  split_and!.
  - vm_compute. reflexivity.
  - vm_compute. reflexivity.
  - apply (bool_decide_unpack _). vm_compute. exact I.
  - apply (bool_decide_unpack _). vm_compute. exact I.
Qed.

(** C10.  When [orchestratorIntentDetails] has no entry for an intent,
    [sendOrchestratorFulfilledNotification] and
    [sendOrchestratorPrunedNotification] return at once: no effect, no
    change of state.  So the item of such an intent in either loop of the
    reconciliation does nothing, and the firing sends no notice about it
    to anybody, where an intent with details gets one per interested
    subscriber. *)
Theorem orchestrator_intent_without_details_is_skipped :
  (∀ env raw tx w,
      orchestratorIntentDetails w !! JS.toLowerCase (intentHash raw) = None →
      sendOrchestratorFulfilledNotification env raw tx w = ([], w, Returned ())
      ∧ sendOrchestratorPrunedNotification env raw tx w = ([], w, Returned ()))
  ∧ (∀ env d tx k raw w,
      JS.map_get k (rawIntents d) = Some raw →
      eventType raw = orchestrator →
      orchestratorIntentDetails w !! JS.toLowerCase (intentHash raw) = None →
      process_fulfilled env d tx k w = ([], w, Returned ())
      ∧ process_pruned env d tx k w = ([], w, Returned ()))
  ∧ (∀ env w0 tx l ls k raw,
      Forall (λ x, transactionHash x = tx) (l :: ls) →
      pendingTransactions w0 !! tx = None →
      tx ∉ processingScheduled w0 → tx ∉ timers w0 →
      let w := foldl (λ w x, handleIntentEvent x w) w0 (l :: ls) in
      let d := recorded (log_blockNumber l) (parsed <$> l :: ls) in
      orders_quiet env w0 → fulfilled_payloads d →
      JS.map_get k (rawIntents d) = Some raw →
      eventType raw = orchestrator →
      orchestratorIntentDetails w0 !! k = None →
      telegram_notices k (fire_timer env tx w).1.1 = []).
Proof.
  assert (∀ env raw tx w,
      orchestratorIntentDetails w !! JS.toLowerCase (intentHash raw) = None →
      sendOrchestratorFulfilledNotification env raw tx w = ([], w, Returned ())
      ∧ sendOrchestratorPrunedNotification env raw tx w = ([], w, Returned ()))
    as Hfun.
  { intros env raw tx w Hnone.
    unfold sendOrchestratorFulfilledNotification,
      sendOrchestratorPrunedNotification.
    rewrite !bind_run. simpl. by rewrite Hnone. }
  split_and!.
  - exact Hfun.
  - intros env d tx k raw w Hget Horch Hnone.
    destruct (Hfun env raw tx w Hnone) as [Hf Hp].
    unfold process_fulfilled, process_pruned. rewrite Hget, Horch.
    split; [done|]. by destruct (JS.set_has k (fulfilled d)).
  - intros env w0 tx l ls k raw Hall Hnone Hns Hnt w d Hq Hslip Hget Horch Hdet.
    destruct (handle_first tx l ls w0 Hall Hnone Hns)
      as (Hp & Ht & _ & Ho & Hw).
    fold w in Hp, Ht, Ho, Hw. fold d in Hp.
    pose proof (recorded_well_formed (log_blockNumber l) (parsed <$> l :: ls))
      as Hwf.
    fold d in Hwf.
    destruct (fire_timer_spec env tx w d) as (t & w' & Hrun & _ & _ & _ & Hn).
    { rewrite Ht. apply elem_of_app. right. by apply list_elem_of_singleton. }
    { done. }
    { done. }
    { done. }
    { unfold orders_quiet. rewrite Hw. exact Hq. }
    rewrite Hrun. simpl. rewrite Hn.
    destruct Hwf as (_ & _ & Hraw & _). specialize (Hraw k raw Hget).
    assert (audience env w raw = []) as Haud.
    { destruct raw; simpl in *; try done; by rewrite Hraw, Ho, Hdet. }
    unfold expected_notices, expected. rewrite Hget, Haud.
    by repeat destruct (JS.set_has _ _).
Qed.

(** The orchestrator emits the fulfilment of one intent whose details
    were stored (for deposit 12) and of one whose details were not. *)
Definition orchestrator_logs : list Log :=
  [mkLog "0xtx" 5 (Orchestrator_IntentFulfilled "0xaa");
   mkLog "0xtx" 5 (Orchestrator_IntentFulfilled "0xbb")].

Definition signaled_world : World :=
  mkWorld RateCache.initial ∅
          {[ "0xaa" := mkOrchestratorIntentDetails 12 "0xescrow"
                         "0xpaymentmethod" SniperFacts.USD_hash 1000000000000000000 ]}
          ∅ ∅ [] [].

(** The theorem at these events: the unknown intent gets no notice, and
    its notification returns at once; the known one is announced to both
    subscribers. *)
Lemma orchestrator_intent_without_details_is_skipped_witness :
  telegram_notices "0xbb"
    (fire_timer listeners_env "0xtx"
       (foldl (λ w x, handleIntentEvent x w) signaled_world orchestrator_logs)).1.1
  = []
  ∧ telegram_notices "0xaa"
      (fire_timer listeners_env "0xtx"
         (foldl (λ w x, handleIntentEvent x w) signaled_world orchestrator_logs)).1.1
    = [(Tables.ZKP2P_GROUP_ID, fulfilled_notice); (9, fulfilled_notice)]
  ∧ sendOrchestratorFulfilledNotification listeners_env
      (RawOrchestratorFulfilled "0xbb") "0xtx" signaled_world
    = ([], signaled_world, Returned ()).
Proof.
  split_and!.
  - apply (proj2 (proj2 orchestrator_intent_without_details_is_skipped)
             listeners_env signaled_world "0xtx"
             (mkLog "0xtx" 5 (Orchestrator_IntentFulfilled "0xaa"))
             (tail orchestrator_logs) "0xbb" (RawOrchestratorFulfilled "0xbb")).
    + by repeat constructor.
    + done.
    + apply not_elem_of_empty.
    + apply not_elem_of_nil.
    + intros _. apply List.Forall_nil.
    + intros k raw Hk Hget.
      assert (fulfilled (recorded 5 (parsed <$> orchestrator_logs))
              = ["0xaa"; "0xbb"]) as Hf by (vm_compute; reflexivity).
      simpl in Hk. change (k ∈ fulfilled (recorded 5 (parsed <$> orchestrator_logs)))
        in Hk.
      rewrite Hf in Hk.
      apply elem_of_cons in Hk as [->|Hk];
        [|apply list_elem_of_singleton in Hk as ->];
        vm_compute in Hget; injection Hget as <-; reflexivity.
    + vm_compute. reflexivity.
    + reflexivity.
    + vm_compute. reflexivity.
  - vm_compute. reflexivity.
  - apply (proj1 (proj1 orchestrator_intent_without_details_is_skipped
                    listeners_env (RawOrchestratorFulfilled "0xbb") "0xtx"
                    signaled_world ltac:(vm_compute; reflexivity))).
Defined.

End ReconcileFacts.


(** ** The rate cache over sequences of reads *)

Module RateHistory.
Import RateCache RateCacheFacts.

Lemma reads_app rs1 : ∀ rs2 c,
  reads (rs1 ++ rs2) c
  = ((reads rs1 c).1 ++ (reads rs2 (reads rs1 c).2).1,
     (reads rs2 (reads rs1 c).2).2).
Proof.
  induction rs1 as [|r rs1 IH]; intros rs2 c; simpl.
  - by destruct (reads rs2 c).
  - destruct (read r c) as [[v c1] reqs]. rewrite IH.
    by destruct (reads rs1 c1).
Qed.

Lemma reads_length rs : ∀ c, length (reads rs c).1 = length rs.
Proof.
  induction rs as [|r rs IH]; intros c; simpl; [done|].
  destruct (read r c) as [[v c1] reqs]. specialize (IH c1).
  destruct (reads rs c1). simpl in *. by rewrite IH.
Qed.

(** The read number [j] of the sequence asked the provider at time [t],
    was answered with the value [v] and returned it. *)
Definition fetched_rates (rs : list Read) (c : Cache) (j : nat) (t : Z)
    (v : gmap string float) : Prop :=
  rs !! j = Some (ReadRates t (ExchangeJson true (Some v)))
  ∧ (reads rs c).1 !! j = Some (RatesResult (Some v), [GET_exchange_api]).

Definition fetched_ars (rs : list Read) (c : Cache) (j : nat) (t : Z)
    (v : float) : Prop :=
  (∃ ask bid, rs !! j = Some (ReadARS t (ArsJson (Some ask) (Some bid)))
              ∧ v = ars_mid ask bid)
  ∧ (reads rs c).1 !! j = Some (ARSResult (Some v), [GET_criptoya]).

Lemma fetched_rates_snoc rs r c j t v :
  fetched_rates rs c j t v → fetched_rates (rs ++ [r]) c j t v.
Proof.
  intros [H1 H2]. split.
  - by apply lookup_app_l_Some.
  - rewrite reads_app. simpl. by apply lookup_app_l_Some.
Qed.

Lemma fetched_ars_snoc rs r c j t v :
  fetched_ars rs c j t v → fetched_ars (rs ++ [r]) c j t v.
Proof.
  intros [(ask & bid & H1 & Hv) H2]. split.
  - exists ask, bid. split; [|done]. by apply lookup_app_l_Some.
  - rewrite reads_app. simpl. by apply lookup_app_l_Some.
Qed.

Lemma lookup_snoc_inv {A} (l : list A) (x y : A) (i : nat) :
  (l ++ [x]) !! i = Some y →
  l !! i = Some y ∨ (i = length l ∧ y = x).
Proof.
  intros H. destruct (decide (i < length l)%nat) as [Hlt|Hge].
  - left. by rewrite lookup_app_l in H.
  - right. rewrite lookup_app_r in H by lia.
    destruct (i - length l)%nat as [|n] eqn:E; simpl in H; [|done].
    split; [lia|congruence].
Qed.

(** What the general slot holds was fetched at [lastRatesFetch]; what a
    read returned was fetched less than a window before. *)
Lemma rates_history rs : ∀ c,
  exchangeRatesCache c = None →
  (∀ v, exchangeRatesCache (reads rs c).2 = Some v →
     ∃ j, fetched_rates rs c j (lastRatesFetch (reads rs c).2) v)
  ∧ (∀ i now resp v reqs,
       rs !! i = Some (ReadRates now resp) →
       (reads rs c).1 !! i = Some (RatesResult (Some v), reqs) →
       ∃ j t, (j ≤ i)%nat ∧ fetched_rates rs c j t v
              ∧ now - t < RATES_CACHE_DURATION).
Proof.
  induction rs as [|r rs IH] using rev_ind; intros c Hc.
  - split; [simpl; congruence|]. intros i ? ? ? ? H. done.
  - destruct (IH c Hc) as [Hinv Hout]. rewrite reads_app. simpl.
    pose proof (reads_length rs c) as Hlen.
    destruct (reads rs c) as [outs c1] eqn:Ers. simpl in *.
    destruct r as [now0 resp0|now0 resp0]; simpl.
    + destruct (getExchangeRates now0 resp0 c1) as [[v0 c2] reqs0] eqn:E. simpl.
      assert (∀ v, v0 = Some v →
                ∃ j t, (j ≤ length rs)%nat
                       ∧ fetched_rates (rs ++ [ReadRates now0 resp0]) c j t v
                       ∧ now0 - t < RATES_CACHE_DURATION
                       ∧ (reqs0 = [GET_exchange_api] → j = length rs ∧ t = now0))
        as Hthis.
      { intros v ->.
        destruct (getExchangeRates_never_stale _ _ _ _ _ _ E)
          as [(-> & Hcv & Hw)|(-> & -> & Hl)].
        - destruct (Hinv v Hcv) as [j Hj].
          exists j, (lastRatesFetch c1). split_and!; [|by apply fetched_rates_snoc|done|done].
          destruct Hj as [Hj _]. apply lookup_lt_Some in Hj. lia.
        - exists (length rs), now0. split_and!; [done| |unfold RATES_CACHE_DURATION; lia|done].
          split.
          + by rewrite lookup_app_r, Nat.sub_diag by lia.
          + rewrite reads_app, Ers. simpl. rewrite E. simpl.
            by rewrite lookup_app_r, Hlen, Nat.sub_diag by lia. }
      split.
      * intros v Hv.
        unfold getExchangeRates, rates_fresh, exchange_refresh,
          exchange_settle in E.
        destruct (_ && _) eqn:Eb.
        { injection E as <- <- <-. destruct (Hinv v Hv) as [j Hj].
          exists j. by apply fetched_rates_snoc. }
        destruct resp0 as [|[] r0]; injection E as <- <- <-; simpl in *.
        -- destruct (Hinv v Hv) as [j Hj]. exists j. by apply fetched_rates_snoc.
        -- subst r0. destruct (Hthis v eq_refl) as (j & t & _ & Hj & _ & Heq).
           destruct (Heq eq_refl) as [-> ->]. by exists (length rs).
        -- destruct (Hinv v Hv) as [j Hj]. exists j. by apply fetched_rates_snoc.
      * intros i now resp v reqs Hi Ho.
        apply lookup_snoc_inv in Hi. apply lookup_snoc_inv in Ho.
        destruct Hi as [Hi|[-> Hi]].
        -- destruct Ho as [Ho|[Ho _]]; [|apply lookup_lt_Some in Hi; lia].
           destruct (Hout i now resp v reqs Hi Ho) as (j & t & Hji & Hj & Hw).
           exists j, t. split_and!; [done|by apply fetched_rates_snoc|done].
        -- destruct Ho as [Ho|[_ Ho]]; [apply lookup_lt_Some in Ho; lia|].
           injection Hi as -> ->. injection Ho as Hv Hr.
           destruct (Hthis v (eq_sym Hv)) as (j & t & Hj1 & Hj2 & Hj3 & _).
           by exists j, t.
    + destruct (getARSRate_keeps_rates now0 resp0 c1) as (K1 & K2 & _).
      destruct (getARSRate now0 resp0 c1) as [[v0 c2] reqs0] eqn:E. simpl in *.
      split.
      * intros v Hv. rewrite K1 in Hv. rewrite K2.
        destruct (Hinv v Hv) as [j Hj]. exists j. by apply fetched_rates_snoc.
      * intros i now resp v reqs Hi Ho.
        apply lookup_snoc_inv in Hi. apply lookup_snoc_inv in Ho.
        destruct Hi as [Hi|[-> Hi]]; [|done].
        destruct Ho as [Ho|[Ho _]]; [|apply lookup_lt_Some in Hi; lia].
        destruct (Hout i now resp v reqs Hi Ho) as (j & t & Hji & Hj & Hw).
        exists j, t. split_and!; [done|by apply fetched_rates_snoc|done].
Qed.


Lemma ars_history rs : ∀ c,
  arsRateCache c = None →
  (∀ v, arsRateCache (reads rs c).2 = Some v →
     ∃ j, fetched_ars rs c j (lastARSFetch (reads rs c).2) v)
  ∧ (∀ i now resp v reqs,
       rs !! i = Some (ReadARS now resp) →
       (reads rs c).1 !! i = Some (ARSResult (Some v), reqs) →
       ∃ j t, (j ≤ i)%nat ∧ fetched_ars rs c j t v
              ∧ now - t < ARS_CACHE_DURATION).
Proof.
  induction rs as [|r rs IH] using rev_ind; intros c Hc.
  - split; [simpl; congruence|]. intros i ? ? ? ? H. done.
  - destruct (IH c Hc) as [Hinv Hout]. rewrite reads_app. simpl.
    pose proof (reads_length rs c) as Hlen.
    destruct (reads rs c) as [outs c1] eqn:Ers. simpl in *.
    destruct r as [now0 resp0|now0 resp0]; simpl.
    + destruct (getExchangeRates_keeps_ars now0 resp0 c1) as (K1 & K2 & _).
      destruct (getExchangeRates now0 resp0 c1) as [[v0 c2] reqs0] eqn:E.
      simpl in *. split.
      * intros v Hv. rewrite K1 in Hv. rewrite K2.
        destruct (Hinv v Hv) as [j Hj]. exists j. by apply fetched_ars_snoc.
      * intros i now resp v reqs Hi Ho.
        apply lookup_snoc_inv in Hi. apply lookup_snoc_inv in Ho.
        destruct Hi as [Hi|[-> Hi]]; [|done].
        destruct Ho as [Ho|[Ho _]]; [|apply lookup_lt_Some in Hi; lia].
        destruct (Hout i now resp v reqs Hi Ho) as (j & t & Hji & Hj & Hw).
        exists j, t. split_and!; [done|by apply fetched_ars_snoc|done].
    + destruct (getARSRate now0 resp0 c1) as [[v0 c2] reqs0] eqn:E. simpl.
      assert (∀ v, v0 = Some v →
                ∃ j t, (j ≤ length rs)%nat
                       ∧ fetched_ars (rs ++ [ReadARS now0 resp0]) c j t v
                       ∧ now0 - t < ARS_CACHE_DURATION
                       ∧ (reqs0 = [GET_criptoya] → j = length rs ∧ t = now0))
        as Hthis.
      { intros v ->.
        destruct (getARSRate_never_stale _ _ _ _ _ _ E)
          as [(-> & Hcv & Hw)|(-> & (ask & bid & -> & ->) & Hl)].
        - destruct (Hinv v Hcv) as [j Hj].
          exists j, (lastARSFetch c1).
          split_and!; [|by apply fetched_ars_snoc|done|done].
          destruct Hj as [_ Hj]. apply lookup_lt_Some in Hj.
          rewrite reads_length in Hj. lia.
        - exists (length rs), now0.
          split_and!; [done| |unfold ARS_CACHE_DURATION; lia|done].
          split.
          + exists ask, bid. split; [|done].
            by rewrite lookup_app_r, Nat.sub_diag by lia.
          + rewrite reads_app, Ers. simpl. rewrite E. simpl.
            by rewrite lookup_app_r, Hlen, Nat.sub_diag by lia. }
      split.
      * intros v Hv.
        unfold getARSRate, ars_fresh in E.
        destruct (_ && _) eqn:Eb.
        { injection E as <- <- <-. destruct (Hinv v Hv) as [j Hj].
          exists j. by apply fetched_ars_snoc. }
        assert (c2 = c1 ∨ (v0 = Some v ∧ reqs0 = [GET_criptoya]
                           ∧ lastARSFetch c2 = now0)) as [->|(-> & -> & ->)].
        { unfold ars_refresh, ars_settle in E.
          destruct resp0 as [|[ask|] [bid|]]; try (injection E as <- <- <-; by left).
          destruct (JS.truthy ask && JS.truthy bid)%bool;
            injection E as <- <- <-; [|by left].
          right. simpl in Hv. simpl. split_and!; [congruence|done|done]. }
        -- destruct (Hinv v Hv) as [j Hj]. exists j. by apply fetched_ars_snoc.
        -- destruct (Hthis v eq_refl) as (j & t & _ & Hj & _ & Heq).
           destruct (Heq eq_refl) as [-> ->]. by exists (length rs).
      * intros i now resp v reqs Hi Ho.
        apply lookup_snoc_inv in Hi. apply lookup_snoc_inv in Ho.
        destruct Hi as [Hi|[-> Hi]].
        -- destruct Ho as [Ho|[Ho _]]; [|apply lookup_lt_Some in Hi; lia].
           destruct (Hout i now resp v reqs Hi Ho) as (j & t & Hji & Hj & Hw).
           exists j, t. split_and!; [done|by apply fetched_ars_snoc|done].
        -- destruct Ho as [Ho|[_ Ho]]; [apply lookup_lt_Some in Ho; lia|].
           injection Hi as -> ->. injection Ho as Hv Hr.
           destruct (Hthis v (eq_sym Hv)) as (j & t & Hj1 & Hj2 & Hj3 & _).
           by exists j, t.
Qed.

(** X1.  Starting with empty slots, every value a read returns was
    delivered by the provider to this read or to an earlier one that
    asked it less than 60000 ms before (by the clock the reads see): no
    sequence of reads, successful or failed, of either slot, makes the
    cache hand out a value older than its window or a value no response
    carried.  For the ARS slot the value is the mid price of the ask and
    bid of that response. *)
Theorem served_rates_are_fresh (rs : list Read) (c : Cache) :
  exchangeRatesCache c = None → arsRateCache c = None →
  (∀ i now resp v reqs,
      rs !! i = Some (ReadRates now resp) →
      (reads rs c).1 !! i = Some (RatesResult (Some v), reqs) →
      ∃ j t, (j ≤ i)%nat ∧ fetched_rates rs c j t v
             ∧ now - t < RATES_CACHE_DURATION)
  ∧ (∀ i now resp v reqs,
      rs !! i = Some (ReadARS now resp) →
      (reads rs c).1 !! i = Some (ARSResult (Some v), reqs) →
      ∃ j t, (j ≤ i)%nat ∧ fetched_ars rs c j t v
             ∧ now - t < ARS_CACHE_DURATION).
Proof.
  intros H1 H2. split.
  - apply rates_history, H1.
  - apply ars_history, H2.
Qed.

(** A fetch, a cached read, a failed refresh after expiry, a read of the
    other slot and a successful refresh. *)
Definition mixed_reads : list Read :=
  [ ReadRates 1000 (ExchangeJson true (Some sample_rates));
    ReadRates 30000 ExchangeRejects;
    ReadRates 70000 (ExchangeJson false None);
    ReadARS 71000 (ArsJson (Some 1310%float) (Some 1290%float));
    ReadRates 72000 (ExchangeJson true (Some (<["EUR" := 0.93%float]> sample_rates)));
    ReadARS 100000 ArsRejects ].

Lemma served_rates_are_fresh_witness :
  (∀ i now resp v reqs,
      mixed_reads !! i = Some (ReadRates now resp) →
      (reads mixed_reads initial).1 !! i = Some (RatesResult (Some v), reqs) →
      ∃ j t, (j ≤ i)%nat ∧ fetched_rates mixed_reads initial j t v
             ∧ now - t < RATES_CACHE_DURATION)
  ∧ (∀ i now resp v reqs,
      mixed_reads !! i = Some (ReadARS now resp) →
      (reads mixed_reads initial).1 !! i = Some (ARSResult (Some v), reqs) →
      ∃ j t, (j ≤ i)%nat ∧ fetched_ars mixed_reads initial j t v
             ∧ now - t < ARS_CACHE_DURATION).
Proof.
  apply served_rates_are_fresh; reflexivity.
Defined.

(** *** Reads during an outage *)

(** The request is rejected or answered with an error body. *)
Definition exchange_down (resp : ExchangeResponse) : Prop :=
  match resp with
  | ExchangeJson true _ => False
  | _ => True
  end.

(** The read has to refresh and its request brings no rate. *)
Definition starved (c : Cache) (r : Read) : Prop :=
  match r with
  | ReadRates now resp =>
      (exchangeRatesCache c = None
       ∨ RATES_CACHE_DURATION ≤ now - lastRatesFetch c)
      ∧ exchange_failure resp
  | ReadARS now resp =>
      (JS.truthy_opt (arsRateCache c) = false
       ∨ ARS_CACHE_DURATION ≤ now - lastARSFetch c)
      ∧ ars_failure resp
  end.

(** No answer says [success] without a table. *)
Definition plain_failure (r : Read) : Prop :=
  match r with
  | ReadRates _ resp => exchange_down resp
  | ReadARS _ _ => True
  end.

Definition unavailable (r : Read) : ReadResult * list Request :=
  match r with
  | ReadRates _ _ => (RatesResult None, [GET_exchange_api])
  | ReadARS _ _ => (ARSResult None, [GET_criptoya])
  end.

(** The same for the steps of calls that overlap: a call finds the slot
    of [c] unusable, an answer brings no rate. *)
Definition outage_step (c : Cache) (e : Event) : Prop :=
  match e with
  | CallRates _ now =>
      exchangeRatesCache c = None
      ∨ RATES_CACHE_DURATION ≤ now - lastRatesFetch c
  | AnswerRates _ resp => exchange_failure resp
  | CallARS _ now =>
      JS.truthy_opt (arsRateCache c) = false
      ∨ ARS_CACHE_DURATION ≤ now - lastARSFetch c
  | AnswerARS _ resp => ars_failure resp
  end.

(** The requests a run sent and those its calls stand for, with the
    number of the call. *)
Definition sent (outs : list Output) : list (nat * Request) :=
  omap (λ o, match o with Sends id req => Some (id, req) | _ => None end) outs.

Definition calls (es : list Event) : list (nat * Request) :=
  omap (λ e, match e with
             | CallRates id _ => Some (id, GET_exchange_api)
             | CallARS id _ => Some (id, GET_criptoya)
             | _ => None
             end) es.

Definition returns_nothing (o : Output) : Prop :=
  match o with
  | Sends _ _ => True
  | Returns _ v => v = RatesResult None ∨ v = ARSResult None
  end.

(** What the failures of an outage can do to the cache [c] it started
    with: nothing to the ARS slot, and the general slot is as it was or
    emptied by an answer that said [success] without a table. *)
Definition starving (c c' : Cache) : Prop :=
  arsRateCache c' = arsRateCache c ∧ lastARSFetch c' = lastARSFetch c
  ∧ (exchangeRatesCache c' = None
     ∨ (exchangeRatesCache c' = exchangeRatesCache c
        ∧ lastRatesFetch c' = lastRatesFetch c)).

Lemma starving_refl c : starving c c.
Proof. split_and!; try done. by right. Qed.

Lemma starving_rates_stale c c' now :
  starving c c' →
  exchangeRatesCache c = None ∨ RATES_CACHE_DURATION ≤ now - lastRatesFetch c →
  rates_fresh now c' = false.
Proof.
  intros (_ & _ & Hr) Hexp. unfold rates_fresh.
  destruct Hr as [Hr|[Hr Ht]].
  - rewrite Hr. rewrite bool_decide_eq_false_2; [done|]. by intros [? ?].
  - rewrite Hr, Ht. destruct Hexp as [->|Hexp].
    + rewrite bool_decide_eq_false_2; [done|]. by intros [? ?].
    + rewrite (bool_decide_eq_false_2 (now - _ < _)); [|lia].
      apply andb_false_r.
Qed.

Lemma starving_ars_stale c c' now :
  starving c c' →
  JS.truthy_opt (arsRateCache c) = false
  ∨ ARS_CACHE_DURATION ≤ now - lastARSFetch c →
  ars_fresh now c' = false.
Proof.
  intros (Ha & Ht & _) Hexp. unfold ars_fresh. rewrite Ha, Ht.
  destruct Hexp as [->|Hexp]; [done|].
  rewrite (bool_decide_eq_false_2 (now - _ < _)); [|lia].
  apply andb_false_r.
Qed.

Lemma exchange_settle_failure c c' now resp :
  starving c c' → exchange_failure resp →
  (exchange_settle now resp c').1 = None
  ∧ starving c (exchange_settle now resp c').2
  ∧ (exchange_down resp → (exchange_settle now resp c').2 = c').
Proof.
  intros Hc Hfail. unfold exchange_settle.
  destruct resp as [|[] [r|]]; simpl in *; try done.
  destruct Hc as (Ha & Ht & Hr).
  split; [done|]. split; [|done]. split_and!; simpl; try done. by left.
Qed.

Lemma ars_settle_failure now resp c' :
  ars_failure resp → ars_settle now resp c' = (None, c').
Proof.
  intros Hfail. unfold ars_settle.
  destruct resp as [|[ask|] [bid|]]; try done.
  simpl in Hfail. by rewrite Hfail.
Qed.

Lemma outage_read c c' r :
  starving c c' → starved c r →
  ((read r c').1.1, (read r c').2) = unavailable r
  ∧ starving c (read r c').1.2
  ∧ (plain_failure r → (read r c').1.2 = c').
Proof.
  intros Hc Hr. destruct r as [now resp|now resp]; destruct Hr as [Hexp Hfail];
    simpl.
  - unfold getExchangeRates, exchange_refresh.
    rewrite (starving_rates_stale c c' now Hc Hexp).
    destruct (exchange_settle_failure c c' now resp Hc Hfail) as (H1 & H2 & H3).
    destruct (exchange_settle now resp c') as [v c1]; simpl in *.
    by subst.
  - unfold getARSRate, ars_refresh.
    rewrite (starving_ars_stale c c' now Hc Hexp).
    by rewrite (ars_settle_failure now resp c' Hfail).
Qed.

Lemma outage_reads c rs : ∀ c',
  starving c c' → Forall (starved c) rs →
  (reads rs c').1 = unavailable <$> rs
  ∧ starving c (reads rs c').2
  ∧ (Forall plain_failure rs → (reads rs c').2 = c').
Proof.
  induction rs as [|r rs IH]; intros c' Hc Hall.
  - by split_and!.
  - inversion Hall as [|? ? Hr Hrs]; subst.
    change (reads (r :: rs) c')
      with (match read r c' with
            | (v, c1, reqs) =>
                match reads rs c1 with
                | (out, c2) => ((v, reqs) :: out, c2)
                end
            end).
    rewrite fmap_cons.
    destruct (outage_read c c' r Hc Hr) as (H1 & H2 & H3).
    destruct (read r c') as [[v c1] reqs]; cbn [fst snd] in *.
    destruct (IH c1 H2 Hrs) as (I1 & I2 & I3).
    destruct (reads rs c1) as [out c2]; cbn [fst snd] in *.
    rewrite <- H1, I1. split_and!; [done|done|].
    intros Hp. inversion Hp as [|? ? Hp1 Hp2]; subst.
    rewrite (I3 Hp2). by apply H3.
Qed.

Lemma outage_event c e s :
  starving c (cache s) → outage_step c e →
  Forall returns_nothing (step e s).2
  ∧ sent (step e s).2 = calls [e]
  ∧ starving c (cache (step e s).1)
  ∧ (stores_rates e = false → cache (step e s).1 = cache s).
Proof.
  intros Hc He. destruct e as [id now|id resp|id now|id resp]; simpl in *.
  - rewrite (starving_rates_stale c (cache s) now Hc He). simpl.
    split_and!; try done; by repeat constructor.
  - destruct (rates_calls s !! id) as [now|].
    2: { split_and!; try done; constructor. }
    destruct (exchange_settle_failure c (cache s) now resp Hc He)
      as (H1 & H2 & H3).
    destruct (exchange_settle now resp (cache s)) as [v c1]; simpl in *.
    subst v. split_and!; [| |done|].
    + repeat constructor; by left.
    + done.
    + intros Hs. apply H3. by destruct resp as [|[] r].
  - rewrite (starving_ars_stale c (cache s) now Hc He). simpl.
    split_and!; try done; by repeat constructor.
  - destruct (ars_calls s !! id) as [now|].
    2: { split_and!; try done; constructor. }
    rewrite (ars_settle_failure now resp (cache s) He). simpl.
    split_and!; try done; repeat constructor; by right.
Qed.

Lemma sent_app o1 o2 : sent (o1 ++ o2) = sent o1 ++ sent o2.
Proof. apply omap_app. Qed.

Lemma calls_cons e es : calls (e :: es) = calls [e] ++ calls es.
Proof. apply (omap_app _ [e] es). Qed.

Lemma outage_run c es : ∀ s,
  starving c (cache s) → Forall (outage_step c) es →
  Forall returns_nothing (run es s).2
  ∧ sent (run es s).2 = calls es
  ∧ starving c (cache (run es s).1)
  ∧ (Forall (λ e, stores_rates e = false) es → cache (run es s).1 = cache s).
Proof.
  induction es as [|e es IH]; intros s Hc Hall.
  - split_and!; try done; constructor.
  - inversion Hall as [|? ? He Hes]; subst.
    change (run (e :: es) s)
      with (match step e s with
            | (s1, out) =>
                match run es s1 with (s2, outs) => (s2, out ++ outs) end
            end).
    rewrite calls_cons.
    destruct (outage_event c e s Hc He) as (H1 & H2 & H3 & H4).
    destruct (step e s) as [s1 o1]; cbn [fst snd] in *.
    destruct (IH s1 H3 Hes) as (I1 & I2 & I3 & I4).
    destruct (run es s1) as [s2 o2]; cbn [fst snd] in *.
    split_and!.
    + by apply Forall_app.
    + by rewrite sent_app, H2, I2.
    + done.
    + intros Hq. inversion Hq as [|? ? Hq1 Hq2]; subst.
      rewrite (I4 Hq2). by apply H4.
Qed.

(** X2.  While the providers are down (every request is rejected or
    answered without a rate) and the slots are empty or expired, every
    call sends a request of its own and returns nothing, however the
    calls overlap: [n] calls send [n] requests.  The failures are not
    recorded: an answer that fails leaves the cache, time stamps
    included, exactly as it was, with one exception, an answer of the
    exchange API that says [success] and carries no table, which empties
    the general slot and stamps it; the next call fetches all the same.
    For reads that do not overlap: each of them returns nothing after one
    request. *)
Theorem every_read_of_an_outage_fetches (c : Cache) :
  (∀ es s, cache s = c → Forall (outage_step c) es →
     Forall returns_nothing (run es s).2
     ∧ sent (run es s).2 = calls es
     ∧ starving c (cache (run es s).1)
     ∧ (Forall (λ e, stores_rates e = false) es → cache (run es s).1 = c))
  ∧ (∀ rs, Forall (starved c) rs →
       (reads rs c).1 = unavailable <$> rs
       ∧ starving c (reads rs c).2
       ∧ (Forall plain_failure rs → (reads rs c).2 = c)).
Proof.
  split.
  - intros es s Hs Hall.
    assert (starving c (cache s)) as Hc by (rewrite Hs; apply starving_refl).
    destruct (outage_run c es s Hc Hall) as (H1 & H2 & H3 & H4).
    split_and!; try done. intros Hq. by rewrite (H4 Hq).
  - intros rs Hall. apply outage_reads; [apply starving_refl|done].
Qed.

(** The general table went stale at 61000 and the provider is down. *)
Definition stale_cache : Cache := mkCache (Some sample_rates) 1000 None 0.

Definition outage : list Read :=
  [ ReadRates 61000 ExchangeRejects;
    ReadRates 61001 (ExchangeJson false None);
    ReadARS 61002 (ArsJson (Some 1310%float) None);
    ReadRates 61003 (ExchangeJson true None);
    ReadRates 61004 ExchangeRejects ].

(** Three calls in flight at once. *)
Definition overlapping_outage : list Event :=
  [ CallRates 1 61000; CallRates 2 61001; CallARS 3 61002;
    AnswerRates 2 ExchangeRejects; AnswerARS 3 ArsRejects;
    AnswerRates 1 (ExchangeJson false None) ].

Lemma every_read_of_an_outage_fetches_witness :
  (reads outage stale_cache).1 = unavailable <$> outage
  ∧ sent (run overlapping_outage (idle stale_cache)).2
    = [(1%nat, GET_exchange_api); (2%nat, GET_exchange_api); (3%nat, GET_criptoya)]
  ∧ cache (run overlapping_outage (idle stale_cache)).1 = stale_cache.
Proof.
  assert (Forall (starved stale_cache) outage) as Hrs.
  { unfold outage.
    apply List.Forall_cons. { split; [right; vm_compute; discriminate|exact I]. }
    apply List.Forall_cons. { split; [right; vm_compute; discriminate|exact I]. }
    apply List.Forall_cons. { split; [left; reflexivity|exact I]. }
    apply List.Forall_cons. { split; [right; vm_compute; discriminate|exact I]. }
    apply List.Forall_cons. { split; [right; vm_compute; discriminate|exact I]. }
    apply List.Forall_nil. }
  assert (Forall (outage_step stale_cache) overlapping_outage) as Hes.
  { unfold overlapping_outage.
    apply List.Forall_cons. { right; vm_compute; discriminate. }
    apply List.Forall_cons. { right; vm_compute; discriminate. }
    apply List.Forall_cons. { left; reflexivity. }
    apply List.Forall_cons. { exact I. }
    apply List.Forall_cons. { exact I. }
    apply List.Forall_cons. { exact I. }
    apply List.Forall_nil. }
  destruct (proj1 (every_read_of_an_outage_fetches stale_cache)
              overlapping_outage (idle stale_cache) eq_refl Hes)
    as (_ & H2 & _ & H4).
  split_and!.
  - exact (proj1 (proj2 (every_read_of_an_outage_fetches stale_cache) outage Hrs)).
  - exact H2.
  - apply H4. repeat constructor.
Defined.

End RateHistory.


(** ** The life cycle of the WebSocket provider *)

Module ConnLifecycle.
Import Conn ConnFacts.

Definition is_reconnect (t : Timer) : bool :=
  match timer_action t with
  | reconnect_timeout => true
  | _ => false
  end.

(** The pending timers [scheduleReconnect] has set. *)
Definition reconnects (l : list Timer) : list Timer := List.filter is_reconnect l.

(** [reconnectTimer] refers to every pending reconnect timer, and there is
    at most one. *)
Definition one_reconnect (s : State) : Prop :=
  (∀ t, In t (reconnects (pending s)) → reconnectTimer s = Some (timer_id t))
  ∧ (length (reconnects (pending s)) ≤ 1)%nat.

Lemma reconnects_app l1 l2 : reconnects (l1 ++ l2) = reconnects l1 ++ reconnects l2.
Proof. apply List.filter_app. Qed.

Lemma reconnects_clearTimeout_In i l t :
  In t (reconnects (clearTimeout i l)) → In t (reconnects l).
Proof.
  unfold reconnects. destruct i as [i|]; simpl; [|done].
  rewrite !filter_In. tauto.
Qed.

Lemma reconnects_clearTimeout_length i l :
  (length (reconnects (clearTimeout i l)) ≤ length (reconnects l))%nat.
Proof.
  unfold reconnects. destruct i as [i|]; simpl; [|done].
  induction l as [|t l IH]; simpl; [done|].
  destruct (negb _); simpl; destruct (is_reconnect t); simpl; lia.
Qed.

Lemma reconnects_cleared s :
  one_reconnect s → reconnects (clearTimeout (reconnectTimer s) (pending s)) = [].
Proof.
  intros [Href _].
  destruct (reconnects (clearTimeout (reconnectTimer s) (pending s)))
    as [|t r] eqn:E; [done|exfalso].
  assert (In t (reconnects (clearTimeout (reconnectTimer s) (pending s)))) as Hin
    by (rewrite E; by left).
  pose proof (Href t (reconnects_clearTimeout_In _ _ _ Hin)) as Hid.
  rewrite Hid in Hin. unfold reconnects, clearTimeout in Hin.
  rewrite !filter_In in Hin. destruct Hin as [[_ Hne] _].
  by rewrite Nat.eqb_refl in Hne.
Qed.

Lemma one_reconnect_pending s l :
  one_reconnect s →
  (∀ t, In t (reconnects l) → In t (reconnects (pending s))) →
  (length (reconnects l) ≤ length (reconnects (pending s)))%nat →
  one_reconnect (set_pending l s).
Proof.
  intros [Href Hlen] Hin Hle. split; simpl; [|lia].
  intros t Ht. by apply Href, Hin.
Qed.

Lemma connect_one_reconnect s : one_reconnect s → one_reconnect (connect s).1.
Proof. unfold connect. by destruct (_ || _). Qed.

Lemma scheduleReconnect_one_reconnect s :
  one_reconnect s → one_reconnect (scheduleReconnect s).1.
Proof.
  intros Hs. pose proof (reconnects_cleared s Hs) as Hclear.
  unfold scheduleReconnect. destruct (_ || _); [done|].
  destruct (_ <? _)%nat; unfold one_reconnect; simpl.
  - rewrite Hclear. split; [done|simpl; lia].
  - rewrite reconnects_app, Hclear. simpl. split; [|lia].
    by intros t [<-|[]].
Qed.

Lemma restart_one_reconnect s : one_reconnect s → one_reconnect (restart s).1.
Proof.
  intros Hs. pose proof (reconnects_cleared s Hs) as Hclear.
  unfold restart, one_reconnect. simpl.
  rewrite reconnects_app, Hclear. simpl. split; [done|lia].
Qed.

Lemma destroy_one_reconnect s : one_reconnect s → one_reconnect (destroy s).1.
Proof.
  intros Hs. pose proof (reconnects_cleared s Hs) as Hclear.
  unfold destroy, one_reconnect. simpl. rewrite Hclear. split; [done|simpl; lia].
Qed.

Lemma step_one_reconnect e s : one_reconnect s → one_reconnect (step e s).1.
Proof.
  intros Hs. destruct e; simpl.
  - destruct (List.find _ _) as [t|]; [|done]. unfold fire. simpl.
    assert (one_reconnect (set_pending (clearTimeout (Some id) (pending s)) s))
      as Hs'.
    { apply one_reconnect_pending; [done| |].
      - apply reconnects_clearTimeout_In.
      - apply reconnects_clearTimeout_length. }
    destruct (isDestroyed s); [done|].
    destruct (timer_action t);
      (by apply connect_one_reconnect) || (by apply scheduleReconnect_one_reconnect).
  - by destruct (isConnecting s).
  - destruct (isConnecting s); [|done]. unfold handshake_failed. simpl.
    destruct (isDestroyed s); [done|]. by apply scheduleReconnect_one_reconnect.
  - destruct (socket_listening s); [|done]. simpl.
    destruct (isDestroyed s); [done|]. unfold one_reconnect. simpl.
    rewrite reconnects_app. simpl. rewrite app_nil_r. exact Hs.
  - destruct (socket_listening s); [|done]. simpl.
    destruct (isDestroyed s); [done|]. by apply scheduleReconnect_one_reconnect.
  - destruct (provider_listening s); [|done].
    destruct (isDestroyed s); [done|]. by apply scheduleReconnect_one_reconnect.
  - by destruct (provider_listening s).
  - by destruct (provider s) as [[[rs'|] l]|].
  - destruct (keepAliveTimer s); [|done]. unfold keepAlive.
    destruct (provider s) as [[[rs|] l]|]; try done.
    destruct (bool_decide (rs = 1)); [|done].
    destruct ping_ok; [|by apply scheduleReconnect_one_reconnect].
    destruct (bool_decide _); [by apply scheduleReconnect_one_reconnect|done].
  - destruct (isConnected s now); [done|]. by apply restart_one_reconnect.
  - by apply restart_one_reconnect.
  - by apply destroy_one_reconnect.
Qed.

Lemma reachable_one_reconnect s : reachable s → one_reconnect s.
Proof.
  induction 1 as [now|e s Hs IH].
  - split; simpl; [done|lia].
  - by apply step_one_reconnect.
Qed.


(** *** After [destroy()] *)

Definition destroyed (s : State) : Prop :=
  isDestroyed s = true ∧ provider s = None.

Definition only_restart_scheduled (ts : list Transition) : Prop :=
  Forall (λ t, t = RestartScheduled) ts.

Lemma run_cons e es s :
  run (e :: es) s
  = ((run es (step e s).1).1, (step e s).2 ++ (run es (step e s).1).2).
Proof. simpl. destruct (step e s) as [s1 t1]. simpl. by destruct (run es s1). Qed.

Lemma reconnects_nil_clearTimeout i l :
  reconnects l = [] → reconnects (clearTimeout i l) = [].
Proof.
  intros H. destruct (reconnects (clearTimeout i l)) as [|t r] eqn:E; [done|].
  assert (In t (reconnects l)) as Hin.
  { apply (reconnects_clearTimeout_In i). rewrite E. by left. }
  by rewrite H in Hin.
Qed.

(** A destroyed instance stays destroyed, sets no reconnect timer and
    shows no transition but the scheduling of a restart. *)
Lemma step_destroyed e s :
  destroyed s →
  destroyed (step e s).1
  ∧ only_restart_scheduled (step e s).2
  ∧ (reconnects (pending s) = [] → reconnects (pending (step e s).1) = []).
Proof.
  intros (Hd & Hp). unfold destroyed, only_restart_scheduled.
  destruct e; simpl;
    unfold socket_listening, provider_listening, isConnected, keepAlive;
    rewrite ?Hp, ?Hd; simpl; try by repeat split.
  - destruct (List.find _ _) as [t|]; [|by repeat split].
    unfold fire. simpl. rewrite Hd. simpl.
    split_and!; try done. apply (reconnects_nil_clearTimeout (Some id)).
  - destruct (isConnecting s); by repeat split.
  - destruct (isConnecting s); [|by repeat split].
    unfold handshake_failed. simpl. rewrite Hd. by repeat split.
  - destruct (keepAliveTimer s); by repeat split.
  - rewrite ?Hp, ?Hd. simpl. split_and!; try done; [by repeat constructor|].
    intros Hr. by rewrite reconnects_app, reconnects_nil_clearTimeout.
  - rewrite ?Hp, ?Hd. simpl. split_and!; try done; [by repeat constructor|].
    intros Hr. by rewrite reconnects_app, reconnects_nil_clearTimeout.
  - split_and!; try done. apply reconnects_nil_clearTimeout.
Qed.

Lemma run_destroyed es : ∀ s,
  destroyed s →
  destroyed (run es s).1
  ∧ only_restart_scheduled (run es s).2
  ∧ (reconnects (pending s) = [] → reconnects (pending (run es s).1) = []).
Proof.
  induction es as [|e es IH]; intros s Hs; [by split_and!; [|constructor|]|].
  rewrite run_cons. simpl.
  destruct (step_destroyed e s Hs) as (H1 & H2 & H3).
  destruct (IH _ H1) as (H4 & H5 & H6).
  split_and!; [done|by apply Forall_app|auto].
Qed.

(** *** While a handshake is pending *)

Definition is_handshake_result (e : Event) : bool :=
  match e with
  | HandshakeSucceeds _ | HandshakeFails => true
  | _ => false
  end.

Lemma step_connecting e s :
  isConnecting s = true → is_handshake_result e = false →
  isConnecting (step e s).1 = true ∧ only_restart_scheduled (step e s).2.
Proof.
  intros Hc He. unfold only_restart_scheduled.
  assert (∀ s', isConnecting s' = true → scheduleReconnect s' = (s', [])) as Hsr.
  { intros s' H. unfold scheduleReconnect. by rewrite H. }
  assert (∀ s', isConnecting s' = true → connect s' = (s', [])) as Hco.
  { intros s' H. unfold connect. by rewrite H. }
  destruct e; simpl in *; try done.
  - destruct (List.find _ _) as [t|]; [|by repeat split].
    unfold fire. simpl. destruct (isDestroyed s); [by repeat split|].
    destruct (timer_action t); rewrite ?Hsr, ?Hco by done; by repeat split.
  - destruct (socket_listening s); [|by repeat split]. simpl.
    destruct (isDestroyed s); by repeat split.
  - destruct (socket_listening s); [|by repeat split]. simpl.
    destruct (isDestroyed s); [by repeat split|].
    rewrite Hsr by done. by repeat split.
  - destruct (provider_listening s); [|by repeat split].
    destruct (isDestroyed s); [by repeat split|].
    rewrite Hsr by done. by repeat split.
  - destruct (provider_listening s); by repeat split.
  - destruct (provider s) as [[[rs'|] l]|]; by repeat split.
  - destruct (keepAliveTimer s); [|by repeat split]. unfold keepAlive.
    destruct (provider s) as [[[rs|] l]|]; try by repeat split.
    destruct (bool_decide (rs = 1)); [|by repeat split].
    destruct ping_ok; [|rewrite Hsr by done; by repeat split].
    destruct (bool_decide _); [rewrite Hsr by done|]; by repeat split.
  - destruct (isConnected s now); [by repeat split|].
    split; [done|]. by repeat constructor.
  - split; [done|]. by repeat constructor.
Qed.


Lemma run_connecting es : ∀ s,
  isConnecting s = true →
  Forall (λ e, is_handshake_result e = false) es →
  isConnecting (run es s).1 = true ∧ only_restart_scheduled (run es s).2.
Proof.
  induction es as [|e es IH]; intros s Hc Hes; [by split; [|constructor]|].
  inversion Hes as [|? ? He Hes']; subst.
  rewrite run_cons. simpl.
  destruct (step_connecting e s Hc He) as [H1 H2].
  destruct (IH _ H1 Hes') as [H3 H4].
  split; [done|]. by apply Forall_app.
Qed.

(** X3.  In every state the instance can reach, at most one timer set by
    [scheduleReconnect] is pending, and it is the one [reconnectTimer]
    refers to: a further call replaces the timer of the call before, so
    a burst of transport errors leaves one reconnection scheduled. *)
Theorem at_most_one_reconnect_timer (s : State) :
  reachable s →
  (length (reconnects (pending s)) ≤ 1)%nat
  ∧ (∀ t, t ∈ pending s → timer_action t = reconnect_timeout →
       reconnectTimer s = Some (timer_id t))
  ∧ (isConnecting s = false → isDestroyed s = false →
     (reconnectAttempts s < maxReconnectAttempts s)%nat →
     ∃ t, reconnects (pending (scheduleReconnect s).1) = [t]
          ∧ reconnectTimer (scheduleReconnect s).1 = Some (timer_id t)).
Proof.
  intros Hreach. pose proof (reachable_one_reconnect s Hreach) as [Href Hlen].
  split_and!; [done| |].
  - intros t Ht Ha. apply Href. apply filter_In. split.
    + by apply list_elem_of_In.
    + unfold is_reconnect. by rewrite Ha.
  - intros Hc Hd Hn.
    pose proof (reconnects_cleared s (conj Href Hlen)) as Hclear.
    unfold scheduleReconnect. rewrite Hc, Hd. simpl.
    destruct (Nat.ltb_spec (maxReconnectAttempts s) (S (reconnectAttempts s)));
      [lia|]. simpl.
    eexists. rewrite reconnects_app, Hclear. simpl. done.
Qed.

(** Four failures in a row: the handshake, two provider errors and a
    socket error. *)
Definition after_burst : State :=
  (run [HandshakeFails; ProviderError; ProviderError; WebSocketError]
       (constructor 0).1).1.

Lemma at_most_one_reconnect_timer_witness :
  (length (reconnects (pending after_burst)) ≤ 1)%nat
  ∧ (∀ t, t ∈ pending after_burst → timer_action t = reconnect_timeout →
       reconnectTimer after_burst = Some (timer_id t))
  ∧ (isConnecting after_burst = false → isDestroyed after_burst = false →
     (reconnectAttempts after_burst < maxReconnectAttempts after_burst)%nat →
     ∃ t, reconnects (pending (scheduleReconnect after_burst).1) = [t]
          ∧ reconnectTimer (scheduleReconnect after_burst).1 = Some (timer_id t)).
Proof.
  apply at_most_one_reconnect_timer.
  apply run_reachable, reachable_new.
Defined.

(** X4.  [destroy()] is final.  Whatever the instance was doing and
    whatever happens afterwards (timers firing, late handshake results,
    transport events, health checks, [restart()]), it stays destroyed
    without a provider, reports not connected, and never enters
    Connecting nor schedules a reconnection: the only transition left is
    the scheduling of a restart whose timer then does nothing.  On an
    instance the constructor built, [destroy()] also leaves no reconnect
    timer pending. *)
Theorem destroy_is_final :
  (∀ s es,
      isDestroyed (run (Destroy :: es) s).1 = true
      ∧ provider (run (Destroy :: es) s).1 = None
      ∧ (∀ now, isConnected (run (Destroy :: es) s).1 now = false)
      ∧ only_restart_scheduled (run (Destroy :: es) s).2)
  ∧ (∀ s es, reachable s →
      reconnects (pending (run (Destroy :: es) s).1) = []).
Proof.
  assert (∀ s, destroyed (step Destroy s).1) as Hd by done.
  split.
  - intros s es. rewrite run_cons.
    destruct (run_destroyed es _ (Hd s)) as ((H1 & H2) & H3 & _).
    split_and!; [done|done| |by apply Forall_app].
    intros now. unfold isConnected. cbn [fst]. by rewrite H2.
  - intros s es Hreach. rewrite run_cons.
    destruct (run_destroyed es _ (Hd s)) as (_ & _ & H). apply H.
    apply (reconnects_cleared s). by apply reachable_one_reconnect.
Qed.

Lemma destroy_is_final_witness :
  reconnects (pending (run [Destroy; TimerFires 3; HealthCheck 5; TimerFires 4]
                           after_burst).1) = [].
Proof.
  apply (proj2 destroy_is_final).
  apply run_reachable, reachable_new.
Defined.

(** X5.  While a handshake is pending nothing starts a second one: until
    the handshake succeeds or fails, no timer, transport event, health
    check or [restart()] makes the instance enter Connecting or schedule
    a reconnection ([connect()] and [scheduleReconnect()] return at their
    guard); the restart timer a [restart()] sets in the meantime finds
    the instance still connecting and does nothing. *)
Theorem pending_handshake_blocks_attempts (s : State) (es : list Event) :
  isConnecting s = true →
  Forall (λ e, is_handshake_result e = false) es →
  isConnecting (run es s).1 = true
  ∧ only_restart_scheduled (run es s).2.
Proof.
  intros Hc Hes. by apply run_connecting.
Qed.

(** The first handshake is still pending. *)
Lemma pending_handshake_blocks_attempts_witness :
  isConnecting
    (run [ProviderError; WebSocketClose; TimerFires 0; Restart; TimerFires 1;
          KeepAliveTick 40000 false; HealthCheck 130000]
         (constructor 0).1).1 = true
  ∧ only_restart_scheduled
      (run [ProviderError; WebSocketClose; TimerFires 0; Restart; TimerFires 1;
            KeepAliveTick 40000 false; HealthCheck 130000]
           (constructor 0).1).2.
Proof.
  apply pending_handshake_blocks_attempts.
  - reflexivity.
  - repeat constructor.
Defined.


(** X6.  A successful handshake starts the backoff over: whatever the
    number of failed attempts before it, the counter is back at 0, the
    keep-alive runs, the activity clock is set to the time of the
    handshake, and the next reconnection is scheduled as attempt 1 after
    1500 ms. *)
Theorem handshake_success_resets_backoff (s : State) (now : Z) :
  reachable s → isConnecting s = true → isDestroyed s = false →
  let s1 := (step (HandshakeSucceeds now) s).1 in
  reconnectAttempts s1 = 0%nat
  ∧ isConnecting s1 = false
  ∧ keepAliveTimer s1 = true
  ∧ lastActivityTime s1 = now
  ∧ (scheduleReconnect s1).2 = [ReconnectScheduled 1 1500]
  ∧ ∀ e, e ∈ [HandshakeFails; WebSocketError; ProviderError;
              KeepAliveTick (now + 30000) false] →
         (step e s1).2 = [] ∨ (step e s1).2 = [ReconnectScheduled 1 1500].
Proof.
  intros Hreach Hc Hd s1.
  destruct (reachable_configured s Hreach) as (Hrd & Hmd & Hma).
  assert (s1 = mkState 1000 30000 0 50 false false (provider s)
                 (reconnectTimer s) true now (pending s) (next_id s)) as Hs1.
  { unfold s1. simpl. rewrite Hc. simpl. rewrite Hd, Hmd, Hma. reflexivity. }
  clearbody s1. subst s1.
  split_and!; try reflexivity.
  intros e He. rewrite !elem_of_cons in He.
  destruct He as [->|[->|[->|[->|He]]]]; [| | | |by apply not_elem_of_nil in He].
  - by left.
  - simpl. unfold socket_listening. simpl.
    destruct (provider s) as [[[rs|] []]|]; simpl; ((by left) || (by right)).
  - simpl. unfold provider_listening. simpl.
    destruct (provider s) as [[rs []]|]; simpl; ((by left) || (by right)).
  - simpl. unfold keepAlive. simpl.
    destruct (provider s) as [[[rs|] l]|]; try by left.
    destruct (bool_decide (rs = 1)); ((by left) || (by right)).
Qed.

Lemma handshake_success_resets_backoff_witness :
  (scheduleReconnect
     (step (HandshakeSucceeds 9000)
        (run [HandshakeFails; TimerFires 0; HandshakeFails; TimerFires 1]
             (constructor 0).1).1).1).2
  = [ReconnectScheduled 1 1500].
Proof.
  apply (handshake_success_resets_backoff
           (run [HandshakeFails; TimerFires 0; HandshakeFails; TimerFires 1]
                (constructor 0).1).1 9000).
  - apply run_reachable, reachable_new.
  - reflexivity.
  - reflexivity.
Defined.

End ConnLifecycle.


(** ** What the handlers leave alone, message routing and sniper checks *)

Module AsyncFrame.
Import Async AsyncFacts.

(** *** What a computation leaves alone *)

Section Keeps.
Context (R : World → World → Prop) `{!Reflexive R, !Transitive R}.

(** The state a computation leaves is related to the one it found,
    however it settles. *)
Definition keeps {A : Type} (m : M A) : Prop := ∀ w, R w (m w).1.2.

Lemma keeps_ret {A : Type} (a : A) : keeps (mret a).
Proof. intros w. reflexivity. Qed.

Lemma keeps_emit e : keeps (emit e).
Proof. intros w. reflexivity. Qed.

Lemma keeps_throw {A : Type} : keeps (@throw A).
Proof. intros w. reflexivity. Qed.

Lemma keeps_get_world : keeps get_world.
Proof. intros w. reflexivity. Qed.

Lemma keeps_modify f : (∀ w, R w (f w)) → keeps (modify f).
Proof. intros H w. apply H. Qed.

Lemma keeps_bind {A B : Type} (m : M A) (f : A → M B) :
  keeps m → (∀ a, keeps (f a)) → keeps (m ≫= f).
Proof.
  intros Hm Hf w. rewrite bind_run. specialize (Hm w).
  destruct (m w) as [[e1 w1] [a|]]; simpl in *; [|done].
  specialize (Hf a w1). destruct (f a w1) as [[e2 w2] r]; simpl in *.
  by etrans.
Qed.

Lemma keeps_for_of {A : Type} (xs : list A) (body : A → M unit) :
  (∀ x, keeps (body x)) → keeps (for_of xs body).
Proof.
  intros Hbody. induction xs as [|x xs IH]; [apply keeps_ret|].
  simpl. apply keeps_bind; [apply Hbody|]. by intros _.
Qed.

End Keeps.

End AsyncFrame.

Module ReconcileFrame.
Import Async Pending Reconcile AsyncFacts ReconcileFacts AsyncFrame.

(** The entries of the pending transactions, the scheduled hashes and the
    reconciliation timers are as before. *)
Definition same_schedule (w w' : World) : Prop :=
  pendingTransactions w' = pendingTransactions w
  ∧ processingScheduled w' = processingScheduled w
  ∧ timers w' = timers w.

#[local] Instance same_schedule_refl : Reflexive same_schedule.
Proof. by intros w. Qed.

#[local] Instance same_schedule_trans : Transitive same_schedule.
Proof. intros w1 w2 w3 (?&?&?) (?&?&?). split_and!; congruence. Qed.

Lemma postToDiscord_schedule configured hook msg :
  keeps same_schedule (postToDiscord configured hook msg).
Proof.
  intros w. destruct (postToDiscord_spec configured hook msg w) as (_ & -> & _).
  by destruct configured.
Qed.

Lemma notify_user_schedule env depositId st h msg c :
  keeps same_schedule (notify_user env depositId st h msg c).
Proof. by intros w. Qed.

Lemma notify_interested_schedule env depositId st h msg :
  keeps same_schedule (notify_interested env depositId st h msg).
Proof.
  unfold notify_interested. destruct (bool_decide _); [apply keeps_ret; apply _|].
  apply keeps_bind; [apply _|apply postToDiscord_schedule|].
  intros _. apply keeps_for_of; [apply _..|]. intros c. apply notify_user_schedule.
Qed.

Lemma notify_orchestrator_schedule env depositId st h msg :
  keeps same_schedule (notify_orchestrator env depositId st h msg).
Proof.
  unfold notify_orchestrator. destruct (bool_decide _); [apply keeps_ret; apply _|].
  apply keeps_bind; [apply _|apply postToDiscord_schedule|].
  intros _. apply keeps_bind; [apply _| |].
  - apply keeps_for_of; [apply _..|]. intros c. apply notify_user_schedule.
  - intros _. by apply keeps_modify.
Qed.

Lemma sendFulfilledNotification_schedule env raw tx :
  keeps same_schedule (sendFulfilledNotification env raw tx).
Proof.
  unfold sendFulfilledNotification.
  destruct raw; try (apply keeps_throw; apply _).
  destruct (Tables.getPlatformName _); [|apply keeps_throw; apply _].
  apply keeps_bind; [apply _|apply keeps_get_world; apply _|].
  intros w0. apply keeps_bind; [apply _| |].
  - destruct (bool_decide _); [by apply keeps_modify|apply keeps_ret; apply _].
  - intros _. apply notify_interested_schedule.
Qed.

Lemma sendPrunedNotification_schedule env raw tx :
  keeps same_schedule (sendPrunedNotification env raw tx).
Proof.
  unfold sendPrunedNotification.
  destruct (depositId raw); [apply notify_interested_schedule|].
  apply keeps_ret; apply _.
Qed.

Lemma sendOrchestratorFulfilledNotification_schedule env raw tx :
  keeps same_schedule (sendOrchestratorFulfilledNotification env raw tx).
Proof.
  unfold sendOrchestratorFulfilledNotification.
  apply keeps_bind; [apply _|apply keeps_get_world; apply _|].
  intros w0. destruct (_ !! _); [apply notify_orchestrator_schedule|].
  apply keeps_ret; apply _.
Qed.

Lemma sendOrchestratorPrunedNotification_schedule env raw tx :
  keeps same_schedule (sendOrchestratorPrunedNotification env raw tx).
Proof.
  unfold sendOrchestratorPrunedNotification.
  apply keeps_bind; [apply _|apply keeps_get_world; apply _|].
  intros w0. destruct (_ !! _); [apply notify_orchestrator_schedule|].
  apply keeps_ret; apply _.
Qed.

Lemma process_pruned_schedule env d tx k :
  keeps same_schedule (process_pruned env d tx k).
Proof.
  unfold process_pruned. destruct (JS.set_has _ _); [apply keeps_ret; apply _|].
  destruct (JS.map_get _ _) as [raw|]; [|apply keeps_ret; apply _].
  destruct (eventType raw).
  - apply sendPrunedNotification_schedule.
  - apply sendOrchestratorPrunedNotification_schedule.
Qed.

Lemma process_fulfilled_schedule env d tx k :
  keeps same_schedule (process_fulfilled env d tx k).
Proof.
  unfold process_fulfilled.
  destruct (JS.map_get _ _) as [raw|]; [|apply keeps_ret; apply _].
  destruct (eventType raw).
  - apply sendFulfilledNotification_schedule.
  - apply sendOrchestratorFulfilledNotification_schedule.
Qed.

Lemma processCompletedTransaction_schedule env tx w :
  timers (processCompletedTransaction env tx w).1.2 = timers w
  ∧ processingScheduled (processCompletedTransaction env tx w).1.2
    = processingScheduled w
  ∧ pendingTransactions (processCompletedTransaction env tx w).1.2
    = match (processCompletedTransaction env tx w).2 with
      | Returned _ => delete tx (pendingTransactions w)
      | Rejected => pendingTransactions w
      end.
Proof.
  unfold processCompletedTransaction. rewrite bind_run. simpl.
  destruct (pendingTransactions w !! tx) as [d|] eqn:Hd; simpl;
    [|by rewrite delete_id].
  rewrite bind_run.
  pose proof (keeps_for_of same_schedule (pruned d) (process_pruned env d tx)
                (process_pruned_schedule env d tx) w) as (A1 & A2 & A3).
  destruct (for_of (pruned d) (process_pruned env d tx) w)
    as [[e1 w1] [[]|]]; simpl in *; [|done].
  rewrite bind_run.
  pose proof (keeps_for_of same_schedule (fulfilled d) (process_fulfilled env d tx)
                (process_fulfilled_schedule env d tx) w1) as (B1 & B2 & B3).
  destruct (for_of (fulfilled d) (process_fulfilled env d tx) w1)
    as [[e2 w2] [[]|]]; simpl in *; split_and!; congruence.
Qed.

(** What the firing of a timer does to the three tables: the timer is
    gone; if the reconciliation returns, so are the entry and the
    scheduled mark; if it rejects, both stay. *)
Lemma fire_timer_schedule env tx w :
  tx ∈ timers w →
  timers (fire_timer env tx w).1.2 = list_remove_first tx (timers w)
  ∧ pendingTransactions (fire_timer env tx w).1.2
    = match (fire_timer env tx w).2 with
      | Returned _ => delete tx (pendingTransactions w)
      | Rejected => pendingTransactions w
      end
  ∧ processingScheduled (fire_timer env tx w).1.2
    = match (fire_timer env tx w).2 with
      | Returned _ => processingScheduled w ∖ {[tx]}
      | Rejected => processingScheduled w
      end.
Proof.
  intros Htx. unfold fire_timer. rewrite bool_decide_eq_true_2 by done.
  unfold timer_callback. rewrite bind_run.
  pose proof (processCompletedTransaction_schedule env tx
                (set_timers (list_remove_first tx (timers w)) w))
    as (H1 & H2 & H3).
  destruct (processCompletedTransaction env tx _) as [[e1 w1] [[]|]];
    simpl in *; split_and!; congruence.
Qed.


Lemma list_remove_first_other (x y : string) (l : list string) :
  x ≠ y → y ∈ list_remove_first x l ↔ y ∈ l.
Proof.
  intros Hne. induction l as [|z l IH]; simpl; [done|].
  destruct (decide (x = z)) as [->|Hz].
  - rewrite elem_of_cons. split; [by right|]. intros [Hy|Hy]; [by subst|done].
  - rewrite !elem_of_cons, IH. done.
Qed.

Lemma list_remove_first_NoDup (x : string) (l : list string) :
  NoDup l → x ∉ list_remove_first x l.
Proof.
  induction 1 as [|z l Hz Hl IH]; simpl; [apply not_elem_of_nil|].
  destruct (decide (x = z)) as [->|Hne]; [done|].
  rewrite elem_of_cons. by intros [?|?].
Qed.

(** Events of a hash that is marked as scheduled set no timer. *)
Lemma handle_scheduled tx ls : ∀ w,
  Forall (λ l, transactionHash l = tx) ls → tx ∈ processingScheduled w →
  timers (foldl (λ w l, handleIntentEvent l w) w ls) = timers w
  ∧ tx ∈ processingScheduled (foldl (λ w l, handleIntentEvent l w) w ls)
  ∧ (ls ≠ [] →
     is_Some (pendingTransactions (foldl (λ w l, handleIntentEvent l w) w ls)
              !! tx)).
Proof.
  induction ls as [|l ls IH]; intros w Hall Hs; simpl; [done|].
  inversion Hall as [|? ? Hl Hls]; subst.
  destruct (handleIntentEvent_spec l w) as (Hp & Ht & Hs' & _).
  simpl in *. rewrite bool_decide_eq_true_2 in Ht by done.
  destruct (IH (handleIntentEvent l w) Hls Hs') as (IH1 & IH2 & IH3).
  split_and!; [congruence|done|]. intros _.
  destruct ls as [|l' ls]; [|by apply IH3].
  simpl. rewrite Hp, lookup_insert_eq. by eexists.
Qed.

(** X7.  A reconciliation that rejects (a Discord post is rejected, or a
    notification raises) leaves its hash blocked: the timer is spent, but
    the entry stays in [pendingTransactions] and the hash stays in
    [processingScheduled], because the callback never gets to the
    statements that remove them.  Every later event of that transaction
    is recorded into the entry and sets no timer, so neither the old nor
    the new intents of that hash are ever reconciled. *)
Theorem rejected_reconciliation_blocks_the_hash env tx w :
  tx ∈ timers w → NoDup (timers w) → tx ∈ processingScheduled w →
  (fire_timer env tx w).2 = Rejected →
  pendingTransactions (fire_timer env tx w).1.2 = pendingTransactions w
  ∧ is_Some (pendingTransactions w !! tx)
  ∧ tx ∈ processingScheduled (fire_timer env tx w).1.2
  ∧ (tx ∉ timers (fire_timer env tx w).1.2)
  ∧ ∀ ls, Forall (λ l, transactionHash l = tx) ls →
      let w' := foldl (λ w l, handleIntentEvent l w) (fire_timer env tx w).1.2 ls in
      timers w' = timers (fire_timer env tx w).1.2
      ∧ (tx ∉ timers w')
      ∧ is_Some (pendingTransactions w' !! tx).
Proof.
  intros Htx Hnd Hs Hrej.
  destruct (fire_timer_schedule env tx w Htx) as (H1 & H2 & H3).
  rewrite Hrej in H2, H3.
  assert (is_Some (pendingTransactions w !! tx)) as Hentry.
  { destruct (pendingTransactions w !! tx) as [d|] eqn:Hd; [by eexists|].
    exfalso. revert Hrej. unfold fire_timer.
    rewrite bool_decide_eq_true_2 by done.
    unfold timer_callback, processCompletedTransaction.
    rewrite !bind_run. simpl. by rewrite Hd. }
  assert (tx ∉ timers (fire_timer env tx w).1.2) as Hgone.
  { rewrite H1. by apply list_remove_first_NoDup. }
  split_and!; [done|done|by rewrite H3|done|].
  intros ls Hls w'.
  destruct (handle_scheduled tx ls (fire_timer env tx w).1.2 Hls)
    as (K1 & K2 & K3); [by rewrite H3|].
  split_and!; [done|by unfold w'; rewrite K1|].
  destruct ls as [|l ls]; [|by apply K3].
  unfold w'. simpl. by rewrite H2.
Qed.

Lemma rejected_reconciliation_blocks_the_hash_witness :
  let w1 := (fire_timer listeners_env "0xtx" reversed_world).1.2 in
  pendingTransactions w1 = pendingTransactions reversed_world
  ∧ is_Some (pendingTransactions reversed_world !! "0xtx")
  ∧ "0xtx" ∈ processingScheduled w1
  ∧ ("0xtx" ∉ timers w1)
  ∧ ∀ ls, Forall (λ l, transactionHash l = "0xtx") ls →
      let w' := foldl (λ w l, handleIntentEvent l w) w1 ls in
      timers w' = timers w1
      ∧ ("0xtx" ∉ timers w')
      ∧ is_Some (pendingTransactions w' !! "0xtx").
Proof.
  apply (rejected_reconciliation_blocks_the_hash listeners_env "0xtx"
           reversed_world).
  - apply (bool_decide_unpack _). vm_compute. exact I.
  - apply (bool_decide_unpack _). vm_compute. exact I.
  - apply (bool_decide_unpack _). vm_compute. exact I.
  - vm_compute. reflexivity.
Defined.

(** X8.  Transactions do not interfere.  Recording an event of one
    transaction, or firing its timer (whether the reconciliation returns
    or rejects), leaves the entry, the scheduled mark and the timer of
    every other transaction as they were. *)
Theorem transactions_are_independent env tx tx' w :
  tx ≠ tx' →
  (∀ l, transactionHash l = tx →
     pendingTransactions (handleIntentEvent l w) !! tx'
     = pendingTransactions w !! tx'
     ∧ (tx' ∈ processingScheduled (handleIntentEvent l w)
        ↔ tx' ∈ processingScheduled w)
     ∧ (tx' ∈ timers (handleIntentEvent l w) ↔ tx' ∈ timers w))
  ∧ (pendingTransactions (fire_timer env tx w).1.2 !! tx'
     = pendingTransactions w !! tx'
     ∧ (tx' ∈ processingScheduled (fire_timer env tx w).1.2
        ↔ tx' ∈ processingScheduled w)
     ∧ (tx' ∈ timers (fire_timer env tx w).1.2 ↔ tx' ∈ timers w)).
Proof.
  intros Hne. split.
  - intros l <-.
    destruct (handleIntentEvent_spec l w) as (Hp & Ht & _).
    simpl in *. split_and!.
    + rewrite Hp. by rewrite lookup_insert_ne.
    + unfold handleIntentEvent, scheduleTransactionProcessing. simpl.
      destruct (bool_decide _); simpl; [done|].
      rewrite elem_of_union, elem_of_singleton.
      split; [intros [Heq|H0]; [by subst|done]|by right].
    + rewrite Ht. destruct (bool_decide _); [done|].
      rewrite elem_of_app, list_elem_of_singleton.
      split; [intros [H0|Heq]; [done|by subst]|by left].
  - destruct (decide (tx ∈ timers w)) as [Htx|Htx].
    + destruct (fire_timer_schedule env tx w Htx) as (H1 & H2 & H3).
      rewrite H1, H2, H3.
      destruct ((fire_timer env tx w).2); split_and!;
        rewrite ?lookup_delete_ne by done; try done;
        try (by apply list_remove_first_other).
      rewrite elem_of_difference, elem_of_singleton.
      split; [by intros [H0 _]|intros H0; split; [done|by intros ->]].
    + unfold fire_timer. by rewrite bool_decide_eq_false_2.
Qed.

(** A second transaction is pending beside the one of [mixed_logs]. *)
Definition two_pending : World :=
  handleIntentEvent (mkLog "0xother" 6 (Escrow_IntentPruned "0x77" 12))
                    mixed_world.

Lemma transactions_are_independent_witness :
  pendingTransactions (fire_timer listeners_env "0xtx" two_pending).1.2 !! "0xother"
  = pendingTransactions two_pending !! "0xother"
  ∧ ("0xother" ∈ processingScheduled (fire_timer listeners_env "0xtx" two_pending).1.2
     ↔ "0xother" ∈ processingScheduled two_pending)
  ∧ ("0xother" ∈ timers (fire_timer listeners_env "0xtx" two_pending).1.2
     ↔ "0xother" ∈ timers two_pending).
Proof.
  apply (transactions_are_independent listeners_env "0xtx" "0xother" two_pending).
  discriminate.
Defined.

End ReconcileFrame.

Module Routing.
Import Async Pending Reconcile Sniper AsyncFacts ReconcileFacts.

(** The topic of the group a message belongs to. *)
Definition topic_of (m : Message) : Z :=
  match m with
  | SniperAlertMessage _ => Tables.ZKP2P_SNIPER_TOPIC_ID
  | OrderFulfilled _ _ | OrderCancelled _ _ => Tables.ZKP2P_TOPIC_ID
  end.

(** A Telegram message to the group carries the thread id of its topic;
    a message to any other chat carries none. *)
Definition routed (e : Effect) : Prop :=
  match e with
  | TelegramMessage chatId m message_thread_id _ =>
      message_thread_id
      = if bool_decide (chatId = Tables.ZKP2P_GROUP_ID)
        then Some (topic_of m) else None
  | _ => True
  end.

Lemma posts_routed t : Forall is_post t → Forall routed t.
Proof.
  intros H. eapply Forall_impl; [exact H|]. by intros [].
Qed.

Lemma postToDiscord_routed configured hook msg w :
  Forall routed (postToDiscord configured hook msg w).1.1.
Proof.
  apply posts_routed. by destruct (postToDiscord_spec configured hook msg w).
Qed.

Definition is_order (m : Message) : Prop :=
  match m with
  | SniperAlertMessage _ => False
  | _ => True
  end.

Lemma notify_interested_routed env depositId st h msg w :
  is_order msg → Forall routed (notify_interested env depositId st h msg w).1.1.
Proof.
  intros Hm. unfold notify_interested. destruct (bool_decide _); [constructor|].
  apply bind_Forall; [apply postToDiscord_routed|]. intros _ w'.
  apply for_of_Forall. intros c w'' _. unfold notify_user.
  repeat constructor. by destruct msg.
Qed.

Lemma notify_orchestrator_routed env depositId st h msg w :
  is_order msg → Forall routed (notify_orchestrator env depositId st h msg w).1.1.
Proof.
  intros Hm. unfold notify_orchestrator. destruct (bool_decide _); [constructor|].
  apply bind_Forall; [apply postToDiscord_routed|]. intros _ w'.
  apply bind_Forall; [|intros _ w''; constructor].
  apply for_of_Forall. intros c w'' _. unfold notify_user.
  repeat constructor. by destruct msg.
Qed.

Lemma process_pruned_routed env d tx k w :
  Forall routed (process_pruned env d tx k w).1.1.
Proof.
  unfold process_pruned. destruct (JS.set_has _ _); [constructor|].
  destruct (JS.map_get _ _) as [raw|]; [|constructor].
  destruct (eventType raw).
  - unfold sendPrunedNotification. destruct (depositId raw); [|constructor].
    by apply notify_interested_routed.
  - unfold sendOrchestratorPrunedNotification.
    apply bind_Forall; [constructor|]. intros w0 w'.
    destruct (_ !! _); [|constructor]. by apply notify_orchestrator_routed.
Qed.

Lemma process_fulfilled_routed env d tx k w :
  Forall routed (process_fulfilled env d tx k w).1.1.
Proof.
  unfold process_fulfilled.
  destruct (JS.map_get _ _) as [raw|]; [|constructor].
  destruct (eventType raw).
  - unfold sendFulfilledNotification. destruct raw; try constructor.
    destruct (Tables.getPlatformName _); [|constructor].
    apply bind_Forall; [constructor|]. intros w0 w'.
    apply bind_Forall; [by destruct (bool_decide _)|]. intros _ w''.
    by apply notify_interested_routed.
  - unfold sendOrchestratorFulfilledNotification.
    apply bind_Forall; [constructor|]. intros w0 w'.
    destruct (_ !! _); [|constructor]. by apply notify_orchestrator_routed.
Qed.

Lemma alert_user_routed env a c w : Forall routed (alert_user env a c w).1.1.
Proof.
  unfold alert_user. destruct (JS.ge _ _); [|constructor].
  apply bind_Forall; [by repeat constructor|]. intros _ w'.
  apply bind_Forall; [apply postToDiscord_routed|]. intros _ w''.
  by repeat constructor.
Qed.

(** X9.  Messages to the group never land outside their topic.  In every
    trace of a reconciliation and of a sniper check, whatever the
    subscribers and the deliveries, a Telegram message to the ZKP2P group
    carries a thread id, 5385 for an order notice and 5671 for a sniper
    alert, and a message to any other chat carries none. *)
Theorem group_messages_go_to_their_topic :
  (∀ env tx w, Forall routed (fire_timer env tx w).1.1)
  ∧ (∀ env depositId depositAmount currencyHash conversionRate verifierAddress w,
       Forall routed
         (checkSniperOpportunity env depositId depositAmount currencyHash
            conversionRate verifierAddress w).1.1).
Proof.
  split.
  - intros env tx w. unfold fire_timer. destruct (bool_decide _); [|constructor].
    unfold timer_callback. apply bind_Forall; [|intros _ w'; constructor].
    unfold processCompletedTransaction.
    apply bind_Forall; [constructor|]. intros w0 w'.
    destruct (_ !! _) as [d|]; [|constructor].
    apply bind_Forall.
    { apply for_of_Forall. intros k w'' _. apply process_pruned_routed. }
    intros _ w''. apply bind_Forall; [|intros _ w3; constructor].
    apply for_of_Forall. intros k w3 _. apply process_fulfilled_routed.
  - intros env depositId depositAmount currencyHash conversionRate
      verifierAddress w.
    unfold checkSniperOpportunity.
    destruct (Tables.getPlatformName _); [|constructor].
    destruct (JS.map_get _ _) as [code|]; [|constructor].
    apply bind_Forall.
    { destruct (SniperFacts.resolve_market_rate_spec env code w)
        as (t0 & w0 & v & -> & H & _).
      eapply Forall_impl; [exact H|]. by intros []. }
    intros [rate|] w'; [|constructor].
    apply for_of_Forall. intros c w'' _. apply alert_user_routed.
Qed.

End Routing.

Module SniperChecks.
Import Async Sniper AsyncFacts SniperFacts AsyncFrame.

(** The rate cache is as before. *)
Definition same_rates (w w' : World) : Prop := rates w' = rates w.

#[local] Instance same_rates_refl : Reflexive same_rates.
Proof. by intros w. Qed.

#[local] Instance same_rates_trans : Transitive same_rates.
Proof. intros w1 w2 w3 H1 H2. unfold same_rates in *. congruence. Qed.

Definition no_request (e : Effect) : Prop :=
  match e with
  | HttpGet _ => False
  | _ => True
  end.

Lemma alert_loop_rates env a users :
  keeps same_rates (for_of users (alert_user env a)).
Proof.
  apply keeps_for_of; [apply _..|]. intros c. unfold alert_user.
  destruct (JS.ge _ _); [|apply keeps_ret; apply _].
  apply keeps_bind; [apply _|apply keeps_emit; apply _|]. intros _.
  apply keeps_bind; [apply _| |intros _; apply keeps_emit; apply _].
  intros w. destruct (postToDiscord_spec (sniper_webhook_configured env)
                        DISCORD_SNIPER_WEBHOOK_URL (SniperAlertMessage a) w)
    as (_ & -> & _).
  by destruct (sniper_webhook_configured env).
Qed.

Lemma alert_loop_no_request env a users w :
  Forall no_request (for_of users (alert_user env a) w).1.1.
Proof.
  apply ReconcileFacts.for_of_Forall. intros c w' _. unfold alert_user.
  destruct (JS.ge _ _); [|constructor].
  apply ReconcileFacts.bind_Forall; [by repeat constructor|]. intros _ w1.
  apply ReconcileFacts.bind_Forall; [|intros _ w2; by repeat constructor].
  destruct (postToDiscord_spec (sniper_webhook_configured env)
              DISCORD_SNIPER_WEBHOOK_URL (SniperAlertMessage a) w1) as (H & _).
  eapply Forall_impl; [exact H|]. by intros [].
Qed.

Lemma resolve_market_rate_requests env code w :
  ∃ t0 w0 v, resolve_market_rate env code w = (t0, w0, Returned v)
             ∧ Forall is_http t0 ∧ (length t0 ≤ 1)%nat
             ∧ (code = "USD" → t0 = [] ∧ w0 = w ∧ v = Some 1%float).
Proof.
  unfold resolve_market_rate.
  destruct (bool_decide (code = "ARS")) eqn:E1.
  - apply bool_decide_eq_true in E1 as ->.
    rewrite bind_run. unfold getARSRate.
    pose proof (RateCache.getARSRate (now env) (ars_response env) (rates w)) as _.
    assert (length (RateCache.getARSRate (now env) (ars_response env) (rates w)).2
            ≤ 1)%nat as Hlen.
    { unfold RateCache.getARSRate, RateCache.ars_fresh, RateCache.ars_refresh,
        RateCache.ars_settle.
      destruct (_ && _); [simpl; lia|].
      destruct (ars_response env) as [|[ask|] [bid|]]; simpl; try lia.
      destruct (_ && _); simpl; lia. }
    destruct (RateCache.getARSRate _ _ _) as [[v c] reqs]. simpl in *.
    eexists _, _, _. split; [done|]. rewrite app_nil_r.
    split_and!; [apply Forall_http_fmap|by rewrite length_fmap|done].
  - destruct (bool_decide (code = "USD")) eqn:E2.
    + eexists _, _, _. split; [done|]. split_and!; [constructor|simpl; lia|done].
    + apply bool_decide_eq_false in E2.
      rewrite bind_run. unfold getExchangeRates.
      assert (length (RateCache.getExchangeRates (now env) (exchange_response env)
                        (rates w)).2 ≤ 1)%nat as Hlen.
      { unfold RateCache.getExchangeRates, RateCache.rates_fresh,
          RateCache.exchange_refresh, RateCache.exchange_settle.
        destruct (_ && _); [simpl; lia|].
        destruct (exchange_response env) as [|[] r]; simpl; lia. }
      destruct (RateCache.getExchangeRates _ _ _) as [[[rates|] c] reqs];
        simpl in *; eexists _, _, _; (split; [done|]); rewrite app_nil_r;
        (split_and!; [apply Forall_http_fmap|by rewrite length_fmap|done]).
Qed.

(** X10.  A sniper check sends at most one rate request, and sends it
    before anything else: the trace is the request, if any, followed by
    the alerts, and the loop over the candidates neither asks for a rate
    nor touches the rate cache.  For a deposit in USD there is no request
    at all and the cache is left as it was: the market rate is the
    constant 1. *)
Theorem a_check_sends_at_most_one_rate_request
    env depositId depositAmount currencyHash conversionRate verifierAddress w :
  let r := checkSniperOpportunity env depositId depositAmount currencyHash
             conversionRate verifierAddress w in
  (∃ t0 t1, r.1.1 = t0 ++ t1
            ∧ Forall is_http t0 ∧ (length t0 ≤ 1)%nat
            ∧ Forall no_request t1)
  ∧ (JS.map_get (JS.toLowerCase currencyHash) Tables.currencyHashToCode
     = Some "USD" →
     Forall no_request r.1.1
     ∧ rates r.1.2 = rates w
     ∧ ∀ c a, (c, a) ∈ alerts r.1.1 →
         marketRate a = 1%float
         ∧ percentDiff a = percentageDiff_of 1 (depositRate_of conversionRate)).
Proof.
  intros r. unfold r, checkSniperOpportunity.
  destruct (getPlatformName_Some verifierAddress) as [name ->].
  destruct (JS.map_get _ _) as [code|] eqn:Hcode.
  2: { split; [|done]. exists [], [].
       split_and!; [done|constructor|simpl; lia|constructor]. }
  rewrite bind_run.
  destruct (resolve_market_rate_requests env code w)
    as (t0 & w0 & v & -> & Hhttp & Hlen & Husd).
  destruct v as [rate|].
  2: { simpl. split.
       - exists t0, []. rewrite !app_nil_r.
         split_and!; [done|done|done|constructor].
       - intros [= ->]. by destruct (Husd eq_refl) as (_ & _ & ?). }
  set (a := mkSniperAlert depositId code (JS.toLowerCase name)
              (depositRate_of conversionRate) rate
              (percentageDiff_of rate (depositRate_of conversionRate))
              depositAmount).
  pose proof (alert_loop_no_request env a
                (candidates env code (JS.toLowerCase name)) w0) as Hloop.
  pose proof (alert_loop_rates env a
                (candidates env code (JS.toLowerCase name)) w0) as Hrates.
  destruct (alert_loop_spec env a (candidates env code (JS.toLowerCase name)) w0)
    as (_ & Halerts & _).
  destruct (for_of (candidates env code (JS.toLowerCase name)) (alert_user env a) w0)
    as [[t1 w1] r1]. simpl in *.
  split; [by exists t0, t1|].
  intros [= ->]. destruct (Husd eq_refl) as (-> & -> & [= <-]).
  split_and!; [done|done|].
  intros c a' Hin. simpl in Hin. rewrite Halerts in Hin.
  apply list_elem_of_fmap in Hin as (c' & [= _ ->] & _). done.
Qed.

(** X11.  One triggering event alerts a subscriber at most once: in the
    trace of a check no chat appears twice among the recipients, whatever
    the subscriptions, the thresholds and the answers of the webhook, and
    every Telegram message of the trace is a sniper alert. *)
Theorem at_most_one_alert_per_subscriber
    env depositId depositAmount currencyHash conversionRate verifierAddress w :
  let t := (checkSniperOpportunity env depositId depositAmount currencyHash
              conversionRate verifierAddress w).1.1 in
  NoDup (recipients t) ∧ recipients t = (alerts t).*1.
Proof.
  intros t. unfold t, checkSniperOpportunity.
  destruct (getPlatformName_Some verifierAddress) as [name ->].
  destruct (JS.map_get _ _) as [code|] eqn:Hcode;
    [|by split; [constructor|]].
  rewrite bind_run.
  destruct (resolve_market_rate_spec env code w)
    as (t0 & w0 & v & -> & Hhttp & _).
  destruct (http_silent t0 Hhttp) as [Hr0 Ha0].
  destruct v as [rate|]; simpl.
  2: { rewrite app_nil_r, Hr0, Ha0. by split; [constructor|]. }
  set (a := mkSniperAlert depositId code (JS.toLowerCase name)
              (depositRate_of conversionRate) rate
              (percentageDiff_of rate (depositRate_of conversionRate))
              depositAmount).
  destruct (alert_loop_spec env a (candidates env code (JS.toLowerCase name)) w0)
    as (Hrec & Halerts & _).
  destruct (for_of (candidates env code (JS.toLowerCase name)) (alert_user env a) w0)
    as [[t1 w1] r1]. simpl in *.
  rewrite recipients_app, alerts_app, Hr0, Ha0, Hrec, Halerts. simpl.
  split.
  - assert (alerted env a (webhook w0) (candidates env code (JS.toLowerCase name))
            `sublist_of` candidates env code (JS.toLowerCase name)) as Hsub.
    { unfold alerted.
      assert (List.filter (passes env a) (candidates env code (JS.toLowerCase name))
              `sublist_of` candidates env code (JS.toLowerCase name)) as Hf.
      { generalize (candidates env code (JS.toLowerCase name)).
        induction l as [|x l IH]; simpl; [done|].
        destruct (passes env a x); [by apply sublist_skip|by apply sublist_cons]. }
      destruct (sniper_webhook_configured env); [|done].
      etrans; [|exact Hf].
      destruct (deliverable_prefix (webhook w0)
                  (List.filter (passes env a)
                     (candidates env code (JS.toLowerCase name)))) as [k Hk].
      rewrite Hk at 2. by apply sublist_inserts_r. }
    eapply sublist_NoDup; [apply candidates_NoDup|exact Hsub].
  - rewrite <- list_fmap_compose. symmetry. apply list_fmap_id.
Qed.


(** X12.  When the subscriber store cannot be reached, the only candidate
    is the ZKP2P group, which the check always adds, and its threshold is
    the default 0.2 (not the 0.1 the bot stores for it at start-up): the
    group gets the alert exactly when [percentDiff >= 0.2]. *)
Theorem unreachable_store_alerts_only_the_group
    env depositId depositAmount currencyHash conversionRate verifierAddress
    currencyCode t0 w0 marketRate w :
  Db.reachable (db env) = false →
  JS.map_get (JS.toLowerCase currencyHash) Tables.currencyHashToCode
  = Some currencyCode →
  resolve_market_rate env currencyCode w = (t0, w0, Returned (Some marketRate)) →
  no_post_rejected env w →
  let percentDiff := percentageDiff_of marketRate (depositRate_of conversionRate) in
  let t := (checkSniperOpportunity env depositId depositAmount currencyHash
              conversionRate verifierAddress w).1.1 in
  (∀ platformName, candidates env currencyCode platformName = [Tables.ZKP2P_GROUP_ID])
  ∧ Db.getUserThreshold (db env) Tables.ZKP2P_GROUP_ID = 0.2%float
  ∧ recipients t
    = if JS.ge percentDiff 0.2 then [Tables.ZKP2P_GROUP_ID] else [].
Proof.
  intros Hdown Hcode Hrate Hquiet percentDiff t.
  assert (∀ platformName,
            candidates env currencyCode platformName = [Tables.ZKP2P_GROUP_ID])
    as Hcand.
  { intros p. unfold candidates, Db.getUsersWithSniper. by rewrite Hdown. }
  assert (Db.getUserThreshold (db env) Tables.ZKP2P_GROUP_ID = 0.2%float) as Hthr.
  { unfold Db.getUserThreshold. by rewrite Hdown. }
  split_and!; [done|done|].
  destruct (getPlatformName_Some verifierAddress) as [name Hname].
  unfold t.
  rewrite (checkSniperOpportunity_resolved env w depositId depositAmount
             currencyHash conversionRate verifierAddress currencyCode name
             t0 w0 marketRate Hcode Hname Hrate).
  rewrite Hcand.
  destruct (resolve_market_rate_spec env currencyCode w)
    as (t0' & w0' & v & Heq & Hhttp & Hweb).
  rewrite Hrate in Heq. injection Heq as <- <- <-.
  destruct (http_silent t0 Hhttp) as [Hr0 _].
  match goal with
  | |- context [for_of ?us (alert_user env ?a) w0] =>
      destruct (alert_loop_spec env a us w0) as (Hrec & _ & _);
      rewrite (alerted_all env a w0) in Hrec
        by (unfold no_post_rejected; rewrite Hweb; exact Hquiet);
      destruct (for_of us (alert_user env a) w0) as [[t1 w1] r1]
  end.
  simpl in *. rewrite recipients_app, Hr0, Hrec. simpl.
  unfold passes. simpl. rewrite Hthr. fold percentDiff.
  by destruct (JS.ge percentDiff 0.2).
Qed.

(** The store of [two_snipers_env] out of reach. *)
Definition store_down : Env :=
  mkEnv (Db.mkStore (Db.settings two_snipers) (Db.snipers two_snipers)
           (Db.deposits two_snipers) false)
        1000 0 RateCache.ExchangeRejects RateCache.ArsRejects true true (λ _, true).

Lemma unreachable_store_alerts_only_the_group_witness :
  recipients (checkSniperOpportunity store_down 12 100000000%float USD_hash
                rate_095 venmo_verifier idle_world).1.1
  = [Tables.ZKP2P_GROUP_ID].
Proof.
  refine (proj2 (proj2 (unreachable_store_alerts_only_the_group store_down 12
            100000000%float USD_hash rate_095 venmo_verifier "USD" [] idle_world 1
            idle_world _ _ _ _))).
  - reflexivity.
  - vm_compute. reflexivity.
  - reflexivity.
  - intros _. apply List.Forall_nil.
Defined.

End SniperChecks.


(** ** Message conversion, Discord posts and the constant tables *)

Module MarkdownFacts.
Import Markdown.

(** No star, resp. no star and no line terminator, in the text. *)
Definition star_free (s : list Z) : Prop := Forall (λ c, c ≠ star) s.
Definition one_line (s : list Z) : Prop :=
  Forall (λ c, is_line_terminator c = false) s.

(** The text without its stars. *)
Definition unstarred (s : list Z) : list Z :=
  List.filter (λ c, negb (c =? star)) s.

Lemma closes_span x rest :
  star_free x → one_line x → closes (x ++ star :: rest) = true.
Proof.
  intros Hx Hl. induction x as [|c x IH]; simpl; [done|].
  inversion Hx as [|? ? Hc Hx']; inversion Hl as [|? ? Hlc Hl']; subst.
  rewrite (proj2 (Z.eqb_neq c star)) by done. rewrite Hlc. by apply IH.
Qed.

Lemma replace_bold_plain b pre s :
  star_free pre → replace_bold b (pre ++ s) = pre ++ replace_bold b s.
Proof.
  intros Hpre. induction Hpre as [|c pre Hc Hpre IH]; simpl; [done|].
  rewrite (proj2 (Z.eqb_neq c star)) by done. by rewrite IH.
Qed.

Lemma replace_bold_unstarred s : ∀ b, unstarred (replace_bold b s) = unstarred s.
Proof.
  unfold unstarred. induction s as [|c s IH]; intros b; simpl; [done|].
  destruct (c =? star) eqn:E; simpl.
  - destruct b; [simpl; apply IH|].
    destruct (closes s); simpl; rewrite ?E; simpl; apply IH.
  - rewrite E. simpl. by rewrite IH.
Qed.

(** X14.  [toDiscordMarkdown] turns a Telegram bold span into a Discord
    one: in a text that has no star before it, [*x*] on one line becomes
    [**x**] and the conversion goes on after the closing star.  A star
    that no other star follows on its line is left alone.  A span that
    already is Discord bold is not recognised as such: [**x**] is read as
    two empty spans around [x] and comes out as [****x****]. *)
Theorem bold_spans_are_doubled :
  (∀ pre x rest,
      star_free pre → star_free x → one_line x →
      toDiscordMarkdown (pre ++ star :: x ++ star :: rest)
      = pre ++ star :: star :: x ++ star :: star :: toDiscordMarkdown rest)
  ∧ (∀ pre rest,
      star_free pre → closes rest = false →
      toDiscordMarkdown (pre ++ star :: rest)
      = pre ++ star :: toDiscordMarkdown rest)
  ∧ (∀ pre x rest,
      star_free pre → star_free x →
      toDiscordMarkdown (pre ++ star :: star :: x ++ star :: star :: rest)
      = pre ++ [star; star; star; star] ++ x ++ [star; star; star; star]
        ++ toDiscordMarkdown rest).
Proof.
  unfold toDiscordMarkdown. split_and!.
  - intros pre x rest Hpre Hx Hl.
    rewrite replace_bold_plain by done. simpl.
    rewrite (closes_span x rest Hx Hl).
    rewrite (replace_bold_plain true x) by done. done.
  - intros pre rest Hpre Hc.
    rewrite replace_bold_plain by done. simpl. by rewrite Hc.
  - intros pre x rest Hpre Hx.
    rewrite replace_bold_plain by done. simpl.
    rewrite (replace_bold_plain false x) by done. reflexivity.
Qed.

(** Code units of [ab *Order* c], [a * b] and [**save**]. *)
Lemma bold_spans_are_doubled_witness :
  toDiscordMarkdown ([97; 98; 32] ++ star :: [79; 114; 100; 101; 114]
                       ++ star :: [32; 99])
  = [97; 98; 32] ++ star :: star :: [79; 114; 100; 101; 114]
      ++ star :: star :: toDiscordMarkdown [32; 99]
  ∧ toDiscordMarkdown ([97; 32] ++ star :: [32; 98; 10; 99; 42])
    = [97; 32] ++ star :: toDiscordMarkdown [32; 98; 10; 99; 42]
  ∧ toDiscordMarkdown ([] ++ star :: star :: [115; 97; 118; 101]
                          ++ star :: star :: [])
    = [] ++ [star; star; star; star] ++ [115; 97; 118; 101]
        ++ [star; star; star; star] ++ toDiscordMarkdown [].
Proof.
  split_and!.
  - apply (proj1 bold_spans_are_doubled).
    + repeat (constructor; [discriminate|]). constructor.
    + repeat (constructor; [discriminate|]). constructor.
    + repeat (constructor; [reflexivity|]). constructor.
  - apply (proj1 (proj2 bold_spans_are_doubled)).
    + repeat (constructor; [discriminate|]). constructor.
    + reflexivity.
  - apply (proj2 (proj2 bold_spans_are_doubled)).
    + constructor.
    + repeat (constructor; [discriminate|]). constructor.
Defined.

(** X15.  [toDiscordMarkdown] changes nothing but stars: the text
    without its stars is the same before and after, a text without stars
    is returned as it is, and no star is ever removed (the result is at
    least as long as the text). *)
Theorem conversion_only_adds_stars (msg : list Z) :
  unstarred (toDiscordMarkdown msg) = unstarred msg
  ∧ (unstarred msg = msg → toDiscordMarkdown msg = msg)
  ∧ (length msg ≤ length (toDiscordMarkdown msg))%nat.
Proof.
  unfold toDiscordMarkdown. split_and!.
  - apply replace_bold_unstarred.
  - intros Hplain.
    assert (star_free msg) as Hfree.
    { rewrite <- Hplain. unfold unstarred. apply List.Forall_forall.
      intros c [_ Hc]%filter_In. apply negb_true_iff in Hc.
      by apply Z.eqb_neq. }
    rewrite <- (app_nil_r msg) at 1. rewrite replace_bold_plain by done.
    simpl. by rewrite app_nil_r.
  - generalize false. induction msg as [|c s IH]; intros b; simpl; [done|].
    destruct (c =? star).
    + destruct b; [simpl; specialize (IH false); lia|].
      destruct (closes s); simpl;
        [specialize (IH true)|specialize (IH false)]; lia.
    + simpl. specialize (IH b). lia.
Qed.

Lemma conversion_only_adds_stars_witness :
  toDiscordMarkdown [79; 114; 100; 101; 114; 10; 35; 49]
  = [79; 114; 100; 101; 114; 10; 35; 49].
Proof.
  apply (conversion_only_adds_stars [79; 114; 100; 101; 114; 10; 35; 49]).
  reflexivity.
Defined.

End MarkdownFacts.

Module DiscordFacts.
Import Async AsyncFacts Lookup.

Lemma run_webhook_posts hook content sc :
  (run_webhook hook content sc).1
  = replicate (S (rate_limits sc)) (DiscordPost hook content).
Proof.
  induction sc as [|ok|next IH]; simpl; try done.
  destruct (run_webhook hook content next) as [e r]. simpl in *. by rewrite IH.
Qed.

(** X13.  [postToDiscord] posts until it is answered: each answer with
    status 429 is followed by one more post of the same content to the
    same webhook, so a call answered [n] times with 429 sends [n + 1]
    posts.  It rejects only when a request is rejected; an answer that is
    not ok settles the call like a success.  One call uses up one answer
    script, and a call without a configured webhook does nothing at
    all. *)
Theorem postToDiscord_retries_until_answered configured hook content w :
  postToDiscord configured hook content w
  = if configured
    then (replicate (S (rate_limits (next_script w))) (DiscordPost hook content),
          set_webhook (tail (webhook w)) w,
          if post_rejects (next_script w) then Rejected else Returned ())
    else ([], w, Returned ()).
Proof.
  unfold postToDiscord, next_script. destruct configured; [|done].
  pose proof (run_webhook_posts hook content
                (default (WebhookResponds true) (head (webhook w)))) as H1.
  destruct (run_webhook_spec hook content
              (default (WebhookResponds true) (head (webhook w)))) as [_ H2].
  destruct (run_webhook _ _ _) as [e r]. simpl in *. by subst.
Qed.

End DiscordFacts.

Module LookupFacts.
Import Lookup.

Lemma lower_ascii_idem c : JS.lower_ascii (JS.lower_ascii c) = JS.lower_ascii c.
Proof.
  destruct c as [[] [] [] [] [] [] [] []]; reflexivity.
Qed.

Lemma toLowerCase_idem s : JS.toLowerCase (JS.toLowerCase s) = JS.toLowerCase s.
Proof.
  induction s as [|c s IH]; simpl; [done|]. by rewrite lower_ascii_idem, IH.
Qed.

Lemma lower_upper_ascii c :
  JS.lower_ascii (JS.upper_ascii c) = JS.lower_ascii c.
Proof.
  destruct c as [[] [] [] [] [] [] [] []]; reflexivity.
Qed.

Lemma toLowerCase_toUpperCase s :
  JS.toLowerCase (JS.toUpperCase s) = JS.toLowerCase s.
Proof.
  induction s as [|c s IH]; simpl; [done|]. by rewrite lower_upper_ascii, IH.
Qed.

(** The platform name shown for an entry of [platformMapping]. *)
Definition shown (info : Tables.PlatformInfo) : string :=
  if String.prefix "zelle" (Tables.platform info)
  then "zelle" else Tables.platform info.

(** Every key of the two tables is in lower case and is found under
    itself, with a platform name, resp. a code that is not empty. *)
Definition platform_keys_ok : bool :=
  forallb (λ kv, bool_decide (JS.toLowerCase kv.1 = kv.1)
                 && match JS.map_get kv.1 Tables.platformMapping with
                    | Some info => String.eqb (shown info) (shown kv.2)
                    | None => false
                    end)
          Tables.platformMapping.

Definition currency_keys_ok : bool :=
  forallb (λ kv, bool_decide (JS.toLowerCase kv.1 = kv.1)
                 && bool_decide (JS.map_get kv.1 Tables.currencyHashToCode = Some kv.2)
                 && JS.truthy_string kv.2)
          Tables.currencyHashToCode.

Lemma tables_checked : platform_keys_ok = true ∧ currency_keys_ok = true.
Proof. split; vm_compute; reflexivity. Qed.

(** X16.  The two lookups ignore the case of the identifier, as they
    must: the tables are keyed in lower case while the events of the
    contracts carry checksummed, mixed-case addresses.  Two identifiers
    that differ only in case get the same platform name and the same
    currency code, every entry of either table is found under its key
    written in any case, and [getPlatformName] answers every identifier,
    known or not. *)
Theorem lookups_ignore_case :
  (∀ a b, is_identifier a = true → is_identifier b = true →
      JS.toLowerCase a = JS.toLowerCase b →
      Tables.getPlatformName (Some a) = Tables.getPlatformName (Some b)
      ∧ getFiatCode a = getFiatCode b)
  ∧ (∀ k info id, (k, info) ∈ Tables.platformMapping →
      JS.toLowerCase id = k →
      Tables.getPlatformName (Some id) = Some (shown info))
  ∧ (∀ k code id, (k, code) ∈ Tables.currencyHashToCode →
      JS.toLowerCase id = k → getFiatCode id = code)
  ∧ (∀ id, is_identifier id = true →
      is_Some (Tables.getPlatformName (Some id))).
Proof.
  destruct tables_checked as [Hp Hc].
  unfold platform_keys_ok in Hp. unfold currency_keys_ok in Hc.
  rewrite forallb_forall in Hp. rewrite forallb_forall in Hc.
  split_and!.
  - intros a b _ _ Hab. unfold Tables.getPlatformName, getFiatCode.
    by rewrite Hab.
  - intros k info id Hin <-.
    apply list_elem_of_In, Hp in Hin. cbn [fst snd] in Hin.
    apply andb_true_iff in Hin as [_ Hget].
    unfold Tables.getPlatformName.
    destruct (JS.map_get _ _) as [info'|]; [|done].
    apply String.eqb_eq in Hget. unfold shown in Hget. by rewrite Hget.
  - intros k code id Hin <-.
    apply list_elem_of_In, Hc in Hin. cbn [fst snd] in Hin.
    apply andb_true_iff in Hin as [Hin Htr].
    apply andb_true_iff in Hin as [_ Hget].
    apply bool_decide_eq_true in Hget.
    unfold getFiatCode. by rewrite Hget, Htr.
  - intros id _. unfold Tables.getPlatformName.
    destruct (JS.map_get _ _); by eexists.
Qed.

(** The venmo verifier and the hash of EUR as a checksummed address and
    in upper case. *)
Lemma lookups_ignore_case_witness :
  Tables.getPlatformName (Some "0x9a733B55a875D0DB4915c6B36350b24F8AB99dF5")
  = Some "venmo"
  ∧ getFiatCode "0XFFF16D60BE267153303BBFA66E593FB8D06E24EA5EF24B6ACCA5224C2CA6B907"
    = "EUR".
Proof.
  split.
  - apply (proj1 (proj2 lookups_ignore_case)
             "0x9a733b55a875d0db4915c6b36350b24f8ab99df5"
             (Tables.mkPlatformInfo "venmo" true)).
    + apply list_elem_of_further, list_elem_of_here.
    + reflexivity.
  - apply (proj1 (proj2 (proj2 lookups_ignore_case))
             "0xfff16d60be267153303bbfa66e593fb8d06e24ea5ef24b6acca5224c2ca6b907").
    + apply (bool_decide_unpack _). vm_compute. exact I.
    + reflexivity.
Defined.

End LookupFacts.


(** ** The subscriber store under writes *)

Module StoreFacts.
Import Db DbWrites.

(** *** What the queries return *)

Lemma elem_of_foldl_set_add {A : Type} (f : A → Z) (rows : list A) : ∀ acc x,
  x ∈ foldl (λ acc r, JS.set_add (f r) acc) acc rows
  ↔ x ∈ acc ∨ ∃ r, r ∈ rows ∧ f r = x.
Proof.
  induction rows as [|r rows IH]; intros acc x; simpl.
  - split; [by left|]. intros [?|(r & Hr & _)]; [done|].
    by apply elem_of_nil in Hr.
  - rewrite IH, ReconcileFacts.set_add_elem. split.
    + intros [[->|?]|(r' & Hr' & Hf)].
      * right. exists r. split; [apply list_elem_of_here|done].
      * by left.
      * right. exists r'. split; [by apply list_elem_of_further|done].
    + intros [?|(r' & Hr' & Hf)]; [by left; right|].
      apply elem_of_cons in Hr' as [->|Hr']; [by left; left|].
      right. by exists r'.
Qed.

(** A chat is interested in a deposit when it has an active setting that
    listens to all deposits or an active row tracking the deposit. *)
Definition listens_all (s : Store) (chatId : Z) : Prop :=
  ∃ r, r ∈ settings s ∧ user_settings.chat_id r = chatId
       ∧ user_settings.listen_all r = true ∧ user_settings.is_active r = true.

Definition tracking (s : Store) (chatId depositId : Z) : Prop :=
  ∃ r, r ∈ deposits s ∧ user_deposits.chat_id r = chatId
       ∧ user_deposits.deposit_id r = depositId
       ∧ user_deposits.is_active r = true.

Definition sniping (s : Store) (cutoff : Z) (currency : string)
    (platform : option string) (chatId : Z) : Prop :=
  ∃ r, r ∈ snipers s ∧ user_snipers.chat_id r = chatId
       ∧ sniper_query cutoff currency platform r = true.

Lemma elem_of_interested s depositId chatId :
  chatId ∈ getUsersInterestedInDeposit s depositId
  ↔ reachable s = true ∧ (listens_all s chatId ∨ tracking s chatId depositId).
Proof.
  unfold getUsersInterestedInDeposit, listens_all, tracking.
  destruct (reachable s).
  2: { split; [by intros ?%elem_of_nil|by intros [? _]]. }
  rewrite !elem_of_foldl_set_add. split.
  - intros [[H|(r & Hr & Hc)]|(r & Hr & Hc)]; [by apply elem_of_nil in H| |].
    + apply list_elem_of_filter in Hr as [[? ?] ?]. split; [done|].
      left. by exists r.
    + apply list_elem_of_filter in Hr as [[? ?] ?]. split; [done|].
      right. by exists r.
  - intros [_ [(r & Hr & Hc & Hl & Ha)|(r & Hr & Hc & Hd & Ha)]].
    + left. right. exists r. split; [|done]. by apply list_elem_of_filter.
    + right. exists r. split; [|done]. by apply list_elem_of_filter.
Qed.

Lemma elem_of_getUserDeposits s chatId depositId :
  depositId ∈ getUserDeposits s chatId
  ↔ reachable s = true ∧ tracking s chatId depositId.
Proof.
  unfold getUserDeposits, tracking. destruct (reachable s).
  2: { split; [by intros ?%elem_of_nil|by intros [? _]]. }
  rewrite elem_of_foldl_set_add. split.
  - intros [H|(r & Hr & Hd)]; [by apply elem_of_nil in H|].
    apply list_elem_of_filter in Hr as [[? ?] ?]. split; [done|]. by exists r.
  - intros [_ (r & Hr & Hc & Hd & Ha)]. right. exists r.
    split; [|done]. by apply list_elem_of_filter.
Qed.

Lemma keep_newest_keys (data : list user_snipers.row) : ∀ m x,
  x ∈ JS.map_keys (foldl keep_newest m data)
  ↔ x ∈ JS.map_keys m ∨ ∃ r, r ∈ data ∧ user_snipers.chat_id r = x.
Proof.
  induction data as [|r data IH]; intros m x; simpl.
  - split; [by left|]. intros [?|(r & Hr & _)]; [done|].
    by apply elem_of_nil in Hr.
  - rewrite IH.
    assert (x ∈ JS.map_keys (keep_newest m r)
            ↔ x ∈ JS.map_keys m ∨ user_snipers.chat_id r = x) as ->.
    { assert (x ∈ JS.map_keys (JS.map_set (user_snipers.chat_id r) r m)
              ↔ x ∈ JS.map_keys m ∨ user_snipers.chat_id r = x) as Hset.
      { rewrite SniperFacts.map_set_keys.
        destruct (bool_decide _) eqn:E.
        - apply bool_decide_eq_true in E. split; [by left|].
          intros [H|H]; [done|by subst].
        - rewrite elem_of_app, list_elem_of_singleton. split.
          + intros [H|H]; [by left|by right].
          + intros [H|H]; [by left|by right]. }
      assert (is_Some (JS.map_get (user_snipers.chat_id r) m)
              → user_snipers.chat_id r ∈ JS.map_keys m) as Hget.
      { clear. unfold JS.map_keys. induction m as [|[k v] m IH]; simpl.
        - by intros [? ?].
        - destruct (decide _) as [->|]; [intros _; apply list_elem_of_here|].
          intros H. apply list_elem_of_further. by apply IH. }
      unfold keep_newest.
      destruct (JS.map_get _ m) as [old|] eqn:Eg; [|done].
      destruct (bool_decide _); [done|].
      split; [by left|]. intros [H|H]; [done|]. subst x. apply Hget. by eexists. }
    split.
    + intros [[?|Hx]|(r' & Hr' & Hx)].
      * by left.
      * right. exists r. split; [apply list_elem_of_here|done].
      * right. exists r'. split; [by apply list_elem_of_further|done].
    + intros [?|(r' & Hr' & Hx)]; [by left; left|].
      apply elem_of_cons in Hr' as [->|Hr']; [by left; right|].
      right. by exists r'.
Qed.

Lemma elem_of_getUsersWithSniper s cutoff currency platform chatId :
  chatId ∈ getUsersWithSniper s cutoff currency platform
  ↔ reachable s = true ∧ sniping s cutoff currency platform chatId.
Proof.
  unfold getUsersWithSniper, sniping. destruct (reachable s).
  2: { split; [by intros ?%elem_of_nil|by intros [? _]]. }
  rewrite keep_newest_keys. split.
  - intros [H|(r & Hr & Hc)]; [by apply elem_of_nil in H|].
    apply list_elem_of_In, filter_In in Hr as [Hr Hq].
    split; [done|]. exists r. split_and!; [by apply list_elem_of_In|done|done].
  - intros [_ (r & Hr & Hc & Hq)]. right. exists r. split; [|done].
    apply list_elem_of_In, filter_In. split; [by apply list_elem_of_In|done].
Qed.

(** *** Rows after an update *)

Lemma elem_of_update {A : Type} (matches : A → bool) (change : A → A)
    (rows : list A) (r' : A) :
  r' ∈ update matches change rows
  ↔ ∃ r, r ∈ rows ∧ r' = (if matches r then change r else r).
Proof.
  unfold update. rewrite list_elem_of_fmap. split.
  - intros (r & -> & Hr). by exists r.
  - intros (r & Hr & ->). by exists r.
Qed.

Lemma existsb_elem_of {A : Type} (p : A → bool) (rows : list A) :
  existsb p rows = true ↔ ∃ r, r ∈ rows ∧ p r = true.
Proof.
  rewrite existsb_exists. split; intros (r & Hr & Hp); exists r;
    (split; [by apply list_elem_of_In|done]).
Qed.


(** *** Tracking a deposit *)

Lemma tracks_spec chatId depositId r :
  tracks chatId depositId r = true
  ↔ user_deposits.chat_id r = chatId ∧ user_deposits.deposit_id r = depositId.
Proof.
  unfold tracks. rewrite andb_true_iff, !bool_decide_eq_true. done.
Qed.

Lemma tracking_add s chatId depositId c d :
  reachable s = true →
  tracking (addUserDeposit s chatId depositId) c d
  ↔ (c = chatId ∧ d = depositId) ∨ tracking s c d.
Proof.
  intros Hr. unfold addUserDeposit, tracking, upsert. rewrite Hr. simpl.
  destruct (existsb _ _) eqn:E.
  - apply existsb_elem_of in E as (r0 & Hr0 & Ht0).
    apply tracks_spec in Ht0 as [Hc0 Hd0]. split.
    + intros (r' & Hin & Hc & Hd & Ha).
      apply elem_of_update in Hin as (r & Hin & ->).
      destruct (tracks chatId depositId r) eqn:Et; simpl in *.
      * left. by subst.
      * right. by exists r.
    + intros [[-> ->]|(r & Hin & Hc & Hd & Ha)].
      * exists (user_deposits.mk chatId depositId true). split; [|done].
        apply elem_of_update. exists r0. split; [done|].
        by rewrite (proj2 (tracks_spec chatId depositId r0)).
      * destruct (tracks chatId depositId r) eqn:Et.
        -- exists (user_deposits.mk chatId depositId true).
           split; [|apply tracks_spec in Et as [? ?]; simpl; split_and!; congruence].
           apply elem_of_update. exists r. split; [done|]. by rewrite Et.
        -- exists r. split; [|done]. apply elem_of_update. exists r.
           split; [done|]. by rewrite Et.
  - split.
    + intros (r' & Hin & Hc & Hd & Ha).
      apply elem_of_app in Hin as [Hin|Hin].
      * right. by exists r'.
      * apply list_elem_of_singleton in Hin as ->. by left.
    + intros [[-> ->]|(r & Hin & Hc & Hd & Ha)].
      * exists (user_deposits.mk chatId depositId true). split; [|done].
        apply elem_of_app. right. by apply list_elem_of_singleton.
      * exists r. split; [|done]. apply elem_of_app. by left.
Qed.

Lemma tracking_remove s chatId depositId c d :
  reachable s = true →
  tracking (removeUserDeposit s chatId depositId) c d
  ↔ tracking s c d ∧ ¬ (c = chatId ∧ d = depositId).
Proof.
  intros Hr. unfold removeUserDeposit, tracking. rewrite Hr. simpl. split.
  - intros (r' & Hin & Hc & Hd & Ha).
    apply elem_of_update in Hin as (r & Hin & ->).
    destruct (tracks chatId depositId r) eqn:Et; simpl in *; [done|].
    split; [by exists r|]. intros [-> ->].
    by rewrite (proj2 (tracks_spec _ _ r)) in Et.
  - intros [(r & Hin & Hc & Hd & Ha) Hne].
    exists r. split; [|done]. apply elem_of_update. exists r. split; [done|].
    destruct (tracks chatId depositId r) eqn:Et; [|done].
    apply tracks_spec in Et as [? ?]. destruct Hne. by subst.
Qed.

(** The chat has a row for the deposit, active or not. *)
Definition has_row (s : Store) (chatId depositId : Z) : Prop :=
  existsb (tracks chatId depositId) (deposits s) = true.

Lemma add_length s chatId depositId :
  has_row s chatId depositId →
  length (deposits (addUserDeposit s chatId depositId)) = length (deposits s).
Proof.
  unfold has_row, addUserDeposit, upsert, update. intros H.
  destruct (reachable s); [|done]. simpl. rewrite H. apply length_fmap.
Qed.

Lemma has_row_add s chatId depositId :
  reachable s = true → has_row (addUserDeposit s chatId depositId) chatId depositId.
Proof.
  intros Hr. unfold has_row, addUserDeposit, upsert. rewrite Hr. simpl.
  apply existsb_elem_of. exists (user_deposits.mk chatId depositId true).
  split; [|by apply tracks_spec].
  destruct (existsb _ _) eqn:E.
  - apply existsb_elem_of in E as (r0 & Hr0 & Ht0).
    apply elem_of_update. exists r0. by rewrite Ht0.
  - apply elem_of_app. right. by apply list_elem_of_singleton.
Qed.

Lemma has_row_remove s chatId depositId :
  has_row s chatId depositId →
  has_row (removeUserDeposit s chatId depositId) chatId depositId.
Proof.
  unfold has_row, removeUserDeposit. intros H.
  destruct (reachable s); [|done]. simpl.
  apply existsb_elem_of in H as (r & Hin & Ht). apply existsb_elem_of.
  exists (user_deposits.mk (user_deposits.chat_id r)
            (user_deposits.deposit_id r) false).
  split; [|apply tracks_spec in Ht as [? ?]; by apply tracks_spec].
  apply elem_of_update. exists r. by rewrite Ht.
Qed.

(** X17.  Tracking a deposit and removing it again, on a store that can
    be reached.  After [addUserDeposit] the deposit is among the tracked
    deposits of the chat and the chat among those interested in it; after
    [removeUserDeposit] the deposit is not tracked by the chat, which
    stays interested in it only if it listens to all deposits.  Neither
    changes what any other chat tracks nor the other deposits of this
    chat, and the removal keeps the row (it is marked inactive), which a
    later [addUserDeposit] makes active again instead of adding a second
    one. *)
Theorem deposit_tracking_round_trip s chatId depositId :
  reachable s = true →
  (depositId ∈ getUserDeposits (addUserDeposit s chatId depositId) chatId
   ∧ chatId ∈ getUsersInterestedInDeposit (addUserDeposit s chatId depositId)
               depositId)
  ∧ (depositId ∉ getUserDeposits (removeUserDeposit s chatId depositId) chatId)
  ∧ (chatId ∈ getUsersInterestedInDeposit (removeUserDeposit s chatId depositId)
               depositId
     ↔ listens_all s chatId)
  ∧ (∀ c d, ¬ (c = chatId ∧ d = depositId) →
       (d ∈ getUserDeposits (addUserDeposit s chatId depositId) c
        ↔ d ∈ getUserDeposits s c)
       ∧ (d ∈ getUserDeposits (removeUserDeposit s chatId depositId) c
          ↔ d ∈ getUserDeposits s c))
  ∧ length (deposits (removeUserDeposit s chatId depositId))
    = length (deposits s)
  ∧ length (deposits (addUserDeposit
                        (removeUserDeposit (addUserDeposit s chatId depositId)
                           chatId depositId) chatId depositId))
    = length (deposits (addUserDeposit s chatId depositId)).
Proof.
  intros Hr.
  assert (reachable (addUserDeposit s chatId depositId) = true) as Hra
    by (unfold addUserDeposit; by rewrite Hr).
  assert (reachable (removeUserDeposit s chatId depositId) = true) as Hrr
    by (unfold removeUserDeposit; by rewrite Hr).
  assert (∀ c, listens_all (addUserDeposit s chatId depositId) c
               ↔ listens_all s c) as Hla
    by (intros c; unfold addUserDeposit; by rewrite Hr).
  assert (∀ c, listens_all (removeUserDeposit s chatId depositId) c
               ↔ listens_all s c) as Hlr
    by (intros c; unfold removeUserDeposit; by rewrite Hr).
  split_and!.
  - apply elem_of_getUserDeposits. split; [done|].
    apply tracking_add; [done|]. by left.
  - apply elem_of_interested. split; [done|]. right.
    apply tracking_add; [done|]. by left.
  - intros [_ [_ Hne]%tracking_remove]%elem_of_getUserDeposits; [|done].
    by apply Hne.
  - rewrite elem_of_interested, Hlr, tracking_remove by done.
    split; [|by intros ?; split; [|left]].
    intros [_ [?|[_ Hne]]]; [done|]. by destruct Hne.
  - intros c d Hne.
    rewrite !elem_of_getUserDeposits, Hra, Hrr, Hr,
      tracking_add, tracking_remove by done.
    split; split; intros [? H]; (split; [done|]).
    + by destruct H as [?|?].
    + by right.
    + by destruct H.
    + done.
  - unfold removeUserDeposit, update. rewrite Hr. simpl. apply length_fmap.
  - rewrite (add_length (removeUserDeposit _ _ _) chatId depositId).
    + unfold removeUserDeposit, update. rewrite Hra. simpl. apply length_fmap.
    + apply has_row_remove, has_row_add, Hr.
Qed.

(** Chat 9 tracks deposit 12 in [ReconcileFacts.listeners]. *)
Lemma deposit_tracking_round_trip_witness :
  (12 ∈ getUserDeposits (addUserDeposit ReconcileFacts.listeners 9 12) 9
   ∧ 9 ∈ getUsersInterestedInDeposit (addUserDeposit ReconcileFacts.listeners 9 12) 12)
  ∧ (12 ∉ getUserDeposits (removeUserDeposit ReconcileFacts.listeners 9 12) 9).
Proof.
  destruct (deposit_tracking_round_trip ReconcileFacts.listeners 9 12 eq_refl)
    as (H1 & H2 & _).
  by split.
Defined.


(** *** Settings *)

(** The [chat_id] column of [user_settings] is unique, as the
    [onConflict: 'chat_id'] of the upserts requires. *)
Definition unique_chat (s : Store) (chatId : Z) : Prop :=
  (length (List.filter (of_chat chatId) (settings s)) ≤ 1)%nat.

(** A change of columns other than [chat_id] that makes the row active. *)
Definition activates (change : user_settings.row → user_settings.row) : Prop :=
  ∀ r, user_settings.chat_id (change r) = user_settings.chat_id r
       ∧ user_settings.is_active (change r) = true.

Definition active_of (chatId : Z) (r : user_settings.row) : Prop :=
  user_settings.chat_id r = chatId ∧ user_settings.is_active r = true.

Lemma active_rows_updated chatId change rows :
  activates change →
  filter (active_of chatId) (update (of_chat chatId) change rows)
  = change <$> List.filter (of_chat chatId) rows.
Proof.
  intros Hch. unfold update. induction rows as [|r rows IH]; [done|].
  rewrite fmap_cons. cbn [List.filter].
  destruct (of_chat chatId r) eqn:E; unfold of_chat in E.
  - apply bool_decide_eq_true in E. destruct (Hch r) as [H1 H2].
    rewrite filter_cons_True by (split; congruence).
    by rewrite fmap_cons, IH.
  - apply bool_decide_eq_false in E.
    rewrite filter_cons_False by (by intros [? _]). done.
Qed.

Lemma other_rows_updated chatId c (P : user_settings.row → Prop)
    `{∀ r, Decision (P r)} change rows :
  c ≠ chatId →
  (∀ r, user_settings.chat_id (change r) = user_settings.chat_id r) →
  filter (λ r, user_settings.chat_id r = c ∧ P r)
         (update (of_chat chatId) change rows)
  = filter (λ r, user_settings.chat_id r = c ∧ P r) rows.
Proof.
  intros Hne Hch. unfold update. induction rows as [|r rows IH]; [done|].
  rewrite fmap_cons.
  destruct (of_chat chatId r) eqn:E; unfold of_chat in E.
  - apply bool_decide_eq_true in E.
    rewrite !filter_cons_False; [done| |].
    + intros [? _]. congruence.
    + intros [? _]. rewrite Hch in *. congruence.
  - rewrite !filter_cons. destruct (decide _); by rewrite IH.
Qed.

Lemma no_row_of_chat chatId rows :
  existsb (of_chat chatId) rows = false →
  List.filter (of_chat chatId) rows = []
  ∧ filter (active_of chatId) rows = [].
Proof.
  induction rows as [|r rows IH]; simpl; [done|].
  intros [Hr Hrows]%orb_false_iff. destruct (IH Hrows) as [IH1 IH2].
  rewrite Hr. split; [done|].
  rewrite filter_cons_False; [done|]. intros [Hc _].
  unfold of_chat in Hr. by apply bool_decide_eq_false in Hr.
Qed.

Lemma some_row_of_chat chatId rows :
  existsb (of_chat chatId) rows = true →
  (length (List.filter (of_chat chatId) rows) ≤ 1)%nat →
  ∃ r, List.filter (of_chat chatId) rows = [r] ∧ r ∈ rows
       ∧ user_settings.chat_id r = chatId.
Proof.
  intros Hex Hlen.
  destruct (List.filter (of_chat chatId) rows) as [|r [|r' l]] eqn:E;
    [| |simpl in Hlen; lia].
  - exfalso. apply existsb_elem_of in Hex as (r & Hin & Hr).
    assert (In r (List.filter (of_chat chatId) rows)) as H
      by (apply filter_In; split; [by apply list_elem_of_In|done]).
    by rewrite E in H.
  - assert (In r (List.filter (of_chat chatId) rows)) as H by (rewrite E; by left).
    apply filter_In in H as [Hin Hr]. exists r.
    split_and!; [done|by apply list_elem_of_In|].
    unfold of_chat in Hr. by apply bool_decide_eq_true in Hr.
Qed.

(** The active settings of the chat after an upsert on its row. *)
Lemma active_settings_upsert s chatId change fresh :
  unique_chat s chatId → activates change →
  user_settings.chat_id fresh = chatId → user_settings.is_active fresh = true →
  active_settings
    (with_settings (upsert (of_chat chatId) change fresh (settings s)) s) chatId
  = [match List.filter (of_chat chatId) (settings s) with
     | r :: _ => change r
     | [] => fresh
     end].
Proof.
  intros Hu Hch Hfc Hfa. unfold active_settings, upsert. simpl.
  fold (active_of chatId).
  destruct (existsb _ _) eqn:E.
  - destruct (some_row_of_chat chatId _ E Hu) as (r & Hf & _).
    by rewrite active_rows_updated, Hf.
  - destruct (no_row_of_chat chatId _ E) as [H1 H2].
    rewrite filter_app, H2, H1. simpl.
    by rewrite filter_cons_True, filter_nil.
Qed.

Lemma active_settings_other s chatId c change fresh :
  c ≠ chatId →
  (∀ r, user_settings.chat_id (change r) = user_settings.chat_id r) →
  user_settings.chat_id fresh = chatId →
  active_settings
    (with_settings (upsert (of_chat chatId) change fresh (settings s)) s) c
  = active_settings s c.
Proof.
  intros Hne Hch Hfc. unfold active_settings, upsert. simpl.
  destruct (existsb _ _).
  - rewrite (other_rows_updated chatId c
               (λ r, user_settings.is_active r = true)); done.
  - rewrite filter_app, filter_cons_False, filter_nil, app_nil_r; [done|].
    intros [? _]. congruence.
Qed.

(** X18.  The threshold a chat sets is the threshold it gets, with two
    exceptions that fall back to the default of 0.2: a threshold of 0,
    which [getUserThreshold] reads as unset, and a threshold that is not
    finite, which reaches the store as [null].  (The command rejects
    [NaN] but not [Infinity].)  This needs a store that can be reached
    and at most one settings row per chat; the thresholds of the other
    chats are as before. *)
Theorem threshold_round_trip default_listen_all s chatId threshold :
  reachable s = true → unique_chat s chatId →
  getUserThreshold (setUserThreshold default_listen_all s chatId threshold) chatId
  = (if (JS.truthy threshold && PrimFloat.is_finite threshold)%bool
     then threshold else 0.2%float)
  ∧ ∀ c, c ≠ chatId →
      getUserThreshold (setUserThreshold default_listen_all s chatId threshold) c
      = getUserThreshold s c.
Proof.
  intros Hr Hu. unfold getUserThreshold, setUserThreshold. rewrite Hr. simpl.
  split.
  - rewrite active_settings_upsert; [|done|done|done|done]. simpl.
    assert (JS.or_default (json_number threshold) 0.2
            = if (JS.truthy threshold && PrimFloat.is_finite threshold)%bool
              then threshold else 0.2%float) as Hjson.
    { unfold json_number, JS.or_default.
      destruct (PrimFloat.is_finite threshold); [|by rewrite andb_false_r].
      rewrite andb_true_r.
      destruct (PrimFloat.is_zero threshold) eqn:Ez.
      - assert (JS.truthy 0 = false) as -> by reflexivity.
        assert (JS.truthy threshold = false) as ->; [|done].
        unfold JS.truthy. unfold PrimFloat.is_zero in Ez.
        change PrimFloat.zero with 0%float in Ez. by rewrite Ez.
      - done. }
    destruct (List.filter _ _) as [|r l]; simpl; rewrite ?Hr; exact Hjson.
  - intros c Hne. rewrite active_settings_other by done. simpl.
    by rewrite ?Hr.
Qed.

Lemma threshold_round_trip_witness :
  getUserThreshold (setUserThreshold false ReconcileFacts.listeners 9 0.5) 9
  = 0.5%float
  ∧ getUserThreshold (setUserThreshold false ReconcileFacts.listeners 9 0) 9
    = 0.2%float
  ∧ getUserThreshold (setUserThreshold false ReconcileFacts.listeners 9 infinity) 9
    = 0.2%float.
Proof.
  assert (unique_chat ReconcileFacts.listeners 9) as Hu by (vm_compute; lia).
  split_and!.
  - exact (proj1 (threshold_round_trip false ReconcileFacts.listeners 9 0.5
                    eq_refl Hu)).
  - exact (proj1 (threshold_round_trip false ReconcileFacts.listeners 9 0
                    eq_refl Hu)).
  - exact (proj1 (threshold_round_trip false ReconcileFacts.listeners 9 infinity
                    eq_refl Hu)).
Defined.


(** *** Clearing the data of a chat *)

Lemma listens_all_clear s chatId c :
  reachable s = true →
  listens_all (clearUserData s chatId) c ↔ listens_all s c ∧ c ≠ chatId.
Proof.
  intros Hr. unfold clearUserData, listens_all. rewrite Hr. simpl. split.
  - intros (r' & Hin & Hc & Hl & Ha).
    apply elem_of_update in Hin as (r & Hin & ->).
    destruct (of_chat chatId r) eqn:E; simpl in *; [done|].
    split; [by exists r|]. intros ->. unfold of_chat in E.
    by apply bool_decide_eq_false in E.
  - intros [(r & Hin & Hc & Hl & Ha) Hne].
    exists r. split; [|done]. apply elem_of_update. exists r. split; [done|].
    unfold of_chat. rewrite bool_decide_eq_false_2; [done|congruence].
Qed.

Lemma tracking_clear s chatId c d :
  reachable s = true →
  tracking (clearUserData s chatId) c d ↔ tracking s c d ∧ c ≠ chatId.
Proof.
  intros Hr. unfold clearUserData, tracking. rewrite Hr. simpl. split.
  - intros (r' & Hin & Hc & Hd & Ha).
    apply elem_of_update in Hin as (r & Hin & ->).
    destruct (bool_decide _) eqn:E; simpl in *; [done|].
    split; [by exists r|]. intros ->. by apply bool_decide_eq_false in E.
  - intros [(r & Hin & Hc & Hd & Ha) Hne].
    exists r. split; [|done]. apply elem_of_update. exists r. split; [done|].
    rewrite bool_decide_eq_false_2; [done|congruence].
Qed.

Lemma sniper_query_active cutoff currency platform r :
  sniper_query cutoff currency platform r = true → user_snipers.is_active r = true.
Proof.
  unfold sniper_query. intros H.
  apply andb_true_iff in H as [H _]. apply andb_true_iff in H as [H _].
  by apply andb_true_iff in H as [_ H].
Qed.

Lemma sniping_clear s chatId cutoff currency platform c :
  reachable s = true →
  sniping (clearUserData s chatId) cutoff currency platform c
  ↔ sniping s cutoff currency platform c ∧ c ≠ chatId.
Proof.
  intros Hr. unfold clearUserData, sniping. rewrite Hr. simpl. split.
  - intros (r' & Hin & Hc & Hq).
    apply elem_of_update in Hin as (r & Hin & ->).
    destruct (bool_decide _) eqn:E.
    + by apply sniper_query_active in Hq.
    + split; [by exists r|]. intros ->. by apply bool_decide_eq_false in E.
  - intros [(r & Hin & Hc & Hq) Hne].
    exists r. split; [|done]. apply elem_of_update. exists r. split; [done|].
    rewrite bool_decide_eq_false_2; [done|congruence].
Qed.

Definition deactivated (r : user_settings.row) : user_settings.row :=
  user_settings.mk (user_settings.chat_id r) (user_settings.threshold r)
                   (user_settings.listen_all r) false.

Lemma active_settings_clear s chatId c :
  reachable s = true →
  active_settings (clearUserData s chatId) c
  = if decide (c = chatId) then [] else active_settings s c.
Proof.
  intros Hr. unfold clearUserData, active_settings. rewrite Hr. simpl.
  destruct (decide (c = chatId)) as [->|Hne].
  - unfold update. induction (settings s) as [|r rows IH]; [done|].
    rewrite fmap_cons. destruct (of_chat chatId r) eqn:E.
    + rewrite filter_cons_False by (by intros [_ ?]). done.
    + unfold of_chat in E. apply bool_decide_eq_false in E.
      rewrite filter_cons_False by (by intros [? _]). done.
  - by rewrite (other_rows_updated chatId c
                  (λ r, user_settings.is_active r = true)).
Qed.

(** X19.  [clearUserData] makes the chat disappear from every lookup, on
    a store that can be reached: it is interested in no deposit, tracks
    none, is a sniper for no currency, does not listen to all deposits
    and has the default threshold again.  Nothing changes for any other
    chat, and no row is deleted: the rows of the chat are marked
    inactive. *)
Theorem clearUserData_forgets_the_chat s chatId :
  reachable s = true →
  ((∀ d, chatId ∉ getUsersInterestedInDeposit (clearUserData s chatId) d)
   ∧ (∀ d, d ∉ getUserDeposits (clearUserData s chatId) chatId)
   ∧ (∀ cutoff currency platform,
        chatId ∉ getUsersWithSniper (clearUserData s chatId) cutoff currency platform)
   ∧ getUserThreshold (clearUserData s chatId) chatId = 0.2%float
   ∧ getUserListenAll (clearUserData s chatId) chatId = false)
  ∧ (∀ c, c ≠ chatId →
       (∀ d, c ∈ getUsersInterestedInDeposit (clearUserData s chatId) d
             ↔ c ∈ getUsersInterestedInDeposit s d)
       ∧ (∀ d, d ∈ getUserDeposits (clearUserData s chatId) c
               ↔ d ∈ getUserDeposits s c)
       ∧ (∀ cutoff currency platform,
            c ∈ getUsersWithSniper (clearUserData s chatId) cutoff currency platform
            ↔ c ∈ getUsersWithSniper s cutoff currency platform)
       ∧ getUserThreshold (clearUserData s chatId) c = getUserThreshold s c
       ∧ getUserListenAll (clearUserData s chatId) c = getUserListenAll s c)
  ∧ (length (settings (clearUserData s chatId)) = length (settings s)
     ∧ length (snipers (clearUserData s chatId)) = length (snipers s)
     ∧ length (deposits (clearUserData s chatId)) = length (deposits s)).
Proof.
  intros Hr.
  assert (reachable (clearUserData s chatId) = true) as Hrc
    by (unfold clearUserData; by rewrite Hr).
  split_and!.
  - intros d [_ [H|H]]%elem_of_interested.
    + apply listens_all_clear in H as [_ ?]; done.
    + apply tracking_clear in H as [_ ?]; done.
  - intros d [_ H]%elem_of_getUserDeposits.
    apply tracking_clear in H as [_ ?]; done.
  - intros cutoff currency platform [_ H]%elem_of_getUsersWithSniper.
    apply sniping_clear in H as [_ ?]; done.
  - unfold getUserThreshold. rewrite Hrc, active_settings_clear by done.
    by rewrite decide_True.
  - unfold getUserListenAll. rewrite Hrc, active_settings_clear by done.
    by rewrite decide_True.
  - intros c Hne. split_and!.
    + intros d. rewrite !elem_of_interested, Hrc, Hr, listens_all_clear,
        tracking_clear by done. tauto.
    + intros d. rewrite !elem_of_getUserDeposits, Hrc, Hr, tracking_clear by done.
      tauto.
    + intros cutoff currency platform.
      rewrite !elem_of_getUsersWithSniper, Hrc, Hr, sniping_clear by done.
      tauto.
    + unfold getUserThreshold. rewrite Hrc, Hr, active_settings_clear by done.
      by rewrite decide_False.
    + unfold getUserListenAll. rewrite Hrc, Hr, active_settings_clear by done.
      by rewrite decide_False.
  - unfold clearUserData, update. rewrite Hr. simpl. apply length_fmap.
  - unfold clearUserData, update. rewrite Hr. simpl. apply length_fmap.
  - unfold clearUserData, update. rewrite Hr. simpl. apply length_fmap.
Qed.

Lemma clearUserData_forgets_the_chat_witness :
  (∀ d, 9 ∉ getUsersInterestedInDeposit (clearUserData ReconcileFacts.listeners 9) d)
  ∧ (∀ d, d ∉ getUserDeposits (clearUserData ReconcileFacts.listeners 9) 9)
  ∧ (∀ cutoff currency platform,
       9 ∉ getUsersWithSniper (clearUserData ReconcileFacts.listeners 9)
             cutoff currency platform)
  ∧ getUserThreshold (clearUserData ReconcileFacts.listeners 9) 9 = 0.2%float
  ∧ getUserListenAll (clearUserData ReconcileFacts.listeners 9) 9 = false.
Proof.
  exact (proj1 (clearUserData_forgets_the_chat ReconcileFacts.listeners 9 eq_refl)).
Defined.


Lemma rows_of_chat_updated chatId change rows :
  (∀ r, user_settings.chat_id (change r) = user_settings.chat_id r) →
  List.filter (of_chat chatId) (update (of_chat chatId) change rows)
  = change <$> List.filter (of_chat chatId) rows.
Proof.
  intros Hch. unfold update. induction rows as [|r rows IH]; [done|].
  rewrite fmap_cons. cbn [List.filter].
  destruct (of_chat chatId r) eqn:E.
  - assert (of_chat chatId (change r) = true) as ->.
    { unfold of_chat in *. apply bool_decide_eq_true in E.
      apply bool_decide_eq_true. by rewrite Hch. }
    by rewrite fmap_cons, IH.
  - by rewrite E, IH.
Qed.

Lemma active_rows_of_chat chatId rows :
  filter (active_of chatId) rows
  = filter (λ r, user_settings.is_active r = true)
           (List.filter (of_chat chatId) rows).
Proof.
  induction rows as [|r rows IH]; [done|]. cbn [List.filter].
  destruct (of_chat chatId r) eqn:E; unfold of_chat in E.
  - apply bool_decide_eq_true in E. rewrite !filter_cons.
    destruct (decide (active_of chatId r)) as [[_ Ha]|Hn].
    + rewrite decide_True by done. by rewrite IH.
    + rewrite decide_False; [done|]. intros Ha. by apply Hn.
  - apply bool_decide_eq_false in E.
    rewrite filter_cons_False by (by intros [? _]). done.
Qed.

(** X20.  [clearUserData] hides the settings of a chat without erasing
    them, and the next upsert on the row brings them back.  A chat that
    listened to all deposits and cleared its data is interested in every
    deposit again as soon as it sets a threshold, and a chat that had a
    threshold, cleared its data and then sets or unsets listen-all has
    its old threshold again. *)
Theorem cleared_settings_come_back s chatId :
  reachable s = true →
  (∀ default_listen_all threshold, listens_all s chatId →
     ¬ listens_all (clearUserData s chatId) chatId
     ∧ ∀ d, chatId ∈ getUsersInterestedInDeposit
                       (setUserThreshold default_listen_all
                          (clearUserData s chatId) chatId threshold) d)
  ∧ (∀ default_threshold listenAll,
       unique_chat s chatId → active_settings s chatId ≠ [] →
       getUserThreshold (clearUserData s chatId) chatId = 0.2%float
       ∧ getUserThreshold (setUserListenAll default_threshold
                             (clearUserData s chatId) chatId listenAll) chatId
         = getUserThreshold s chatId).
Proof.
  intros Hr.
  assert (reachable (clearUserData s chatId) = true) as Hrc
    by (unfold clearUserData; by rewrite Hr).
  split.
  - intros dl t Hl. split.
    + by intros [_ ?]%listens_all_clear.
    + intros d. apply elem_of_interested.
      split; [unfold setUserThreshold; by rewrite Hrc|]. left.
      destruct Hl as (r & Hin & Hc & Hla & Ha).
      unfold setUserThreshold, listens_all. rewrite Hrc. simpl.
      assert (deactivated r ∈ settings (clearUserData s chatId)) as Hin'.
      { unfold clearUserData. rewrite Hr. simpl. apply elem_of_update.
        exists r. split; [done|]. unfold of_chat.
        by rewrite bool_decide_eq_true_2. }
      assert (of_chat chatId (deactivated r) = true) as Hof
        by (unfold of_chat; by rewrite bool_decide_eq_true_2).
      exists (user_settings.mk chatId (json_number t) true true).
      split; [|done]. unfold upsert.
      assert (existsb (of_chat chatId) (settings (clearUserData s chatId)) = true)
        as -> by (apply existsb_elem_of; by exists (deactivated r)).
      apply elem_of_update. exists (deactivated r). split; [done|].
      rewrite Hof. simpl. by rewrite Hc, Hla.
  - intros dt b Hu Hact.
    assert (getUserThreshold (clearUserData s chatId) chatId = 0.2%float) as H0.
    { unfold getUserThreshold. rewrite Hrc, active_settings_clear by done.
      by rewrite decide_True. }
    split; [done|].
    assert (List.filter (of_chat chatId) (settings (clearUserData s chatId))
            = deactivated <$> List.filter (of_chat chatId) (settings s)) as Hrows.
    { unfold clearUserData. rewrite Hr. simpl.
      by apply rows_of_chat_updated. }
    assert (unique_chat (clearUserData s chatId) chatId) as Hu'.
    { unfold unique_chat. by rewrite Hrows, length_fmap. }
    clear H0.
    unfold getUserThreshold at 1. unfold setUserListenAll. rewrite Hrc. simpl.
    rewrite active_settings_upsert; [|done|done|done|done].
    rewrite Hrows, Hrc. unfold getUserThreshold. rewrite Hr.
    unfold active_settings in *. fold (active_of chatId) in *.
    rewrite active_rows_of_chat in Hact. rewrite active_rows_of_chat.
    unfold unique_chat in Hu. clear Hrows Hu'.
    destruct (List.filter (of_chat chatId) (settings s)) as [|r [|r' l]];
      [done| |simpl in Hu; lia].
    rewrite filter_cons in Hact. rewrite filter_cons.
    destruct (decide _); [done|]. by rewrite filter_nil in Hact.
Qed.

(** The group listens to all deposits in [ReconcileFacts.listeners], with
    the threshold 0.1. *)
Lemma cleared_settings_come_back_witness :
  (¬ listens_all (clearUserData ReconcileFacts.listeners Tables.ZKP2P_GROUP_ID)
       Tables.ZKP2P_GROUP_ID
   ∧ ∀ d, Tables.ZKP2P_GROUP_ID
          ∈ getUsersInterestedInDeposit
              (setUserThreshold false
                 (clearUserData ReconcileFacts.listeners Tables.ZKP2P_GROUP_ID)
                 Tables.ZKP2P_GROUP_ID 0.5) d)
  ∧ (getUserThreshold (clearUserData ReconcileFacts.listeners Tables.ZKP2P_GROUP_ID)
       Tables.ZKP2P_GROUP_ID = 0.2%float
     ∧ getUserThreshold
         (setUserListenAll None
            (clearUserData ReconcileFacts.listeners Tables.ZKP2P_GROUP_ID)
            Tables.ZKP2P_GROUP_ID false) Tables.ZKP2P_GROUP_ID
       = getUserThreshold ReconcileFacts.listeners Tables.ZKP2P_GROUP_ID).
Proof.
  destruct (cleared_settings_come_back ReconcileFacts.listeners
              Tables.ZKP2P_GROUP_ID eq_refl) as [H1 H2].
  split.
  - apply H1. eexists. split; [apply list_elem_of_here|]. by split_and!.
  - apply H2; [vm_compute; lia|]. vm_compute. discriminate.
Defined.


(** *** Snipers *)

(** The row [setUserSniper] inserts. *)
Definition sniper_row (now chatId : Z) (currency : string)
    (platform : option string) : user_snipers.row :=
  user_snipers.mk chatId (JS.toUpperCase currency)
    (match platform with
     | Some p => if JS.truthy_string p then Some (JS.toLowerCase p) else None
     | None => None
     end)
    now true.

Lemma sniping_set s now chatId currency platform cutoff cur plat c :
  reachable s = true →
  sniping (setUserSniper s now chatId currency platform).1 cutoff cur plat c
  ↔ sniping s cutoff cur plat c
    ∨ (c = chatId
       ∧ sniper_query cutoff cur plat (sniper_row now chatId currency platform)
         = true).
Proof.
  intros Hr. unfold setUserSniper, sniping. rewrite Hr. simpl. split.
  - intros (r & Hin & Hc & Hq). apply elem_of_app in Hin as [Hin|Hin].
    + left. by exists r.
    + apply list_elem_of_singleton in Hin as ->. right. by split.
  - intros [(r & Hin & Hc & Hq)|[-> Hq]].
    + exists r. split; [|done]. apply elem_of_app. by left.
    + exists (sniper_row now chatId currency platform). split; [|done].
      apply elem_of_app. right. by apply list_elem_of_singleton.
Qed.

(** The platform of a subscription covers the platform name of an
    event: no platform was given, or the same one up to case. *)
Definition covers (platform : option string) (platformName : string) : Prop :=
  match platform with
  | Some p => JS.truthy_string p = true →
              JS.toLowerCase p = JS.toLowerCase platformName
  | None => True
  end.

(** X21.  A sniper subscription reaches the sniper check.  After
    [setUserSniper(chatId, currency, platform)] on a store that can be
    reached, the chat is a candidate of every check for that currency
    (written in any case) on a platform the subscription covers, for as
    long as the subscription is younger than the cut-off of thirty days;
    once it is older it counts for nothing.  Subscriptions to other
    currencies and those of other chats are not affected. *)
Theorem sniper_subscription_reaches_the_check s now chatId currency platform :
  reachable s = true →
  (setUserSniper s now chatId currency platform).2 = true
  ∧ (∀ env cur platformName,
       Async.db env = (setUserSniper s now chatId currency platform).1 →
       Async.thirtyDaysAgo env ≤ now →
       JS.toUpperCase cur = JS.toUpperCase currency →
       covers platform platformName →
       chatId ∈ Sniper.candidates env cur platformName)
  ∧ (∀ cutoff cur plat c,
       now < cutoff ∨ c ≠ chatId ∨ JS.toUpperCase cur ≠ JS.toUpperCase currency →
       c ∈ getUsersWithSniper (setUserSniper s now chatId currency platform).1
             cutoff cur plat
       ↔ c ∈ getUsersWithSniper s cutoff cur plat).
Proof.
  intros Hr.
  assert (reachable (setUserSniper s now chatId currency platform).1 = true)
    as Hrs by (unfold setUserSniper; by rewrite Hr).
  split_and!.
  - unfold setUserSniper. by rewrite Hr.
  - intros env cur name Hdb Hcut Hcur Hcov. unfold Sniper.candidates.
    assert (chatId ∈ getUsersWithSniper (Async.db env) (Async.thirtyDaysAgo env)
                       cur (Some name))
      as Hin.
    { rewrite Hdb. apply elem_of_getUsersWithSniper. split; [done|].
      apply sniping_set; [done|]. right. split; [done|].
      unfold sniper_query, sniper_row. simpl.
      rewrite !andb_true_iff, !bool_decide_eq_true. split_and!; [done|done|done|].
      destruct (JS.truthy_string name); [|done].
      apply orb_true_iff. rewrite !bool_decide_eq_true.
      destruct platform as [p|]; [|by right]. simpl in Hcov.
      destruct (JS.truthy_string p); [|by right]. left. by rewrite Hcov. }
    destruct (bool_decide _); [done|]. apply elem_of_app. by left.
  - intros cutoff cur plat c Hcase.
    rewrite !elem_of_getUsersWithSniper, Hrs, Hr, sniping_set by done.
    split; [|intros [? ?]; split; [done|by left]].
    intros [_ [?|[-> Hq]]]; [done|]. exfalso.
    unfold sniper_query, sniper_row in Hq. simpl in Hq.
    rewrite !andb_true_iff, !bool_decide_eq_true in Hq.
    destruct Hq as [[[Hc _] Ht] _].
    destruct Hcase as [?|[?|?]]; [lia|done|congruence].
Qed.

(** Chat 7 snipes EUR on Revolut, on top of [SniperFacts.two_snipers]. *)
Lemma sniper_subscription_reaches_the_check_witness :
  7 ∈ Sniper.candidates
        (Async.mkEnv (setUserSniper SniperFacts.two_snipers 5000 7 "eur" (Some "Revolut")).1
           6000 0 RateCache.ExchangeRejects RateCache.ArsRejects true true
           (λ _, true))
        "EUR" "revolut".
Proof.
  apply (proj1 (proj2 (sniper_subscription_reaches_the_check
                         SniperFacts.two_snipers 5000 7 "eur" (Some "Revolut")
                         eq_refl))).
  - reflexivity.
  - simpl. lia.
  - reflexivity.
  - intros _. reflexivity.
Defined.

Lemma sniping_remove s chatId currency platform cutoff cur plat c :
  reachable s = true →
  sniping (removeUserSniper s chatId currency platform) cutoff cur plat c
  ↔ ∃ r, r ∈ snipers s ∧ user_snipers.chat_id r = c
         ∧ sniper_query cutoff cur plat r = true
         ∧ unsnipe_query chatId currency platform r = false.
Proof.
  intros Hr. unfold removeUserSniper, sniping. rewrite Hr. simpl. split.
  - intros (r' & Hin & Hc & Hq).
    apply elem_of_update in Hin as (r & Hin & ->).
    destruct (unsnipe_query chatId currency platform r) eqn:E.
    + by apply sniper_query_active in Hq.
    + by exists r.
  - intros (r & Hin & Hc & Hq & Hu). exists r. split; [|done].
    apply elem_of_update. exists r. by rewrite Hu.
Qed.

(** X22.  What [removeUserSniper] stops.  Without a platform it stops
    every subscription of the chat to the currency: the chat is a sniper
    for that currency on no platform any more.  With a platform it stops
    only the subscriptions to that very platform: a subscription of the
    chat to all platforms stays, so the chat keeps being a candidate for
    that currency on every platform, the named one included.  Other
    chats are not affected. *)
Theorem removeUserSniper_stops_what_it_names s chatId currency :
  reachable s = true → JS.truthy_string currency = true →
  (∀ cutoff cur plat, JS.toUpperCase cur = JS.toUpperCase currency →
     chatId ∉ getUsersWithSniper (removeUserSniper s chatId (Some currency) None)
                cutoff cur plat)
  ∧ (∀ platform cutoff cur plat r,
       JS.truthy_string platform = true →
       r ∈ snipers s → user_snipers.chat_id r = chatId →
       user_snipers.platform r = None →
       sniper_query cutoff cur plat r = true →
       chatId ∈ getUsersWithSniper
                  (removeUserSniper s chatId (Some currency) (Some platform))
                  cutoff cur plat)
  ∧ (∀ platform cutoff cur plat c, c ≠ chatId →
       c ∈ getUsersWithSniper (removeUserSniper s chatId (Some currency) platform)
             cutoff cur plat
       ↔ c ∈ getUsersWithSniper s cutoff cur plat).
Proof.
  intros Hr Htc.
  assert (∀ platform, reachable (removeUserSniper s chatId (Some currency) platform)
                      = true) as Hrr
    by (intros p; unfold removeUserSniper; by rewrite Hr).
  split_and!.
  - intros cutoff cur plat Hcur [_ H]%elem_of_getUsersWithSniper.
    apply sniping_remove in H as (r & Hin & Hc & Hq & Hu); [|done].
    unfold unsnipe_query in Hu. rewrite Htc in Hu.
    unfold sniper_query in Hq.
    rewrite !andb_true_iff, !bool_decide_eq_true in Hq.
    destruct Hq as [[[Hcr _] _] _].
    rewrite !bool_decide_eq_true_2 in Hu by congruence. done.
  - intros platform cutoff cur plat r Htp Hin Hc Hp Hq.
    apply elem_of_getUsersWithSniper. split; [done|].
    apply sniping_remove; [done|]. exists r. split_and!; [done..|].
    unfold unsnipe_query. rewrite Htp, Hp.
    rewrite (bool_decide_eq_false_2 (None = _)) by done.
    apply andb_false_r.
  - intros platform cutoff cur plat c Hne.
    rewrite !elem_of_getUsersWithSniper, Hrr, Hr, sniping_remove by done.
    unfold sniping. split; intros [_ (r & H)]; (split; [done|]); exists r.
    + by destruct H as (? & ? & ? & _).
    + destruct H as (Hin & Hc & Hq). split_and!; [done..|].
      unfold unsnipe_query.
      rewrite (bool_decide_eq_false_2 (user_snipers.chat_id r = chatId));
        [done|congruence].
Qed.

(** Chat 7 snipes USD on all platforms in [SniperFacts.two_snipers];
    [/unsnipe usd venmo] leaves that subscription. *)
Lemma removeUserSniper_stops_what_it_names_witness :
  (∀ cutoff cur plat, JS.toUpperCase cur = JS.toUpperCase "usd" →
     7 ∉ getUsersWithSniper
           (removeUserSniper SniperFacts.two_snipers 7 (Some "usd") None)
           cutoff cur plat)
  ∧ 7 ∈ getUsersWithSniper
          (removeUserSniper SniperFacts.two_snipers 7 (Some "usd") (Some "venmo"))
          0 "USD" (Some "venmo").
Proof.
  destruct (removeUserSniper_stops_what_it_names SniperFacts.two_snipers 7 "usd"
              eq_refl eq_refl) as (H1 & H2 & _).
  split; [exact H1|].
  apply (H2 "venmo" 0 "USD" (Some "venmo")
            (user_snipers.mk 7 "USD" None 100 true)).
  - reflexivity.
  - apply list_elem_of_here.
  - reflexivity.
  - reflexivity.
  - vm_compute. reflexivity.
Defined.

End StoreFacts.


(** ** Amounts, signaled intents and start-up *)

Module AmountFacts.
Import Amounts.

(** *** SameValueZero is an equivalence *)

Definition SF_same (a b : spec_float) : bool :=
  match a, b with
  | S754_nan, S754_nan => true
  | _, _ => SFeqb a b
  end.

Lemma SFeqb_refl (a : spec_float) :
  SFeqb a a = match a with S754_nan => false | _ => true end.
Proof.
  destruct a as [s|s| |s m e]; unfold SFeqb, SFcompare; try done.
  - by destruct s.
  - rewrite Z.compare_refl. change (Pos.compare_cont Eq m m) with (Pos.compare m m).
    rewrite Pos.compare_refl. by destruct s.
Qed.

Lemma same_value_zero_spec a b :
  same_value_zero a b = SF_same (Prim2SF a) (Prim2SF b).
Proof.
  unfold same_value_zero, PrimFloat.is_nan. rewrite !FloatAxioms.eqb_spec, !SFeqb_refl.
  destruct (Prim2SF a) as [sa|sa| |sa ma ea], (Prim2SF b) as [sb|sb| |sb mb eb];
    unfold SF_same; simpl; rewrite ?orb_false_r; try reflexivity.
Qed.

Lemma SF_same_finite s1 m1 e1 s2 m2 e2 :
  SF_same (S754_finite s1 m1 e1) (S754_finite s2 m2 e2) = true →
  s1 = s2 ∧ m1 = m2 ∧ e1 = e2.
Proof.
  unfold SF_same, SFeqb, SFcompare.
  destruct s1, s2; try done;
    destruct (Z.compare e1 e2) eqn:Ee; try done;
    apply Z.compare_eq in Ee; subst;
    change (Pos.compare_cont Eq m1 m2) with (Pos.compare m1 m2);
    destruct (Pos.compare m1 m2) eqn:Em; try done;
    apply Pos.compare_eq in Em; by subst.
Qed.

Lemma SF_same_refl a : SF_same a a = true.
Proof.
  destruct a; unfold SF_same; try done; by rewrite SFeqb_refl.
Qed.

Lemma SF_same_sym a b : SF_same a b = true → SF_same b a = true.
Proof.
  destruct a as [sa|sa| |sa ma ea], b as [sb|sb| |sb mb eb]; try done;
    try (by destruct sa); try (by destruct sb); try (by destruct sa, sb).
  intros H. apply SF_same_finite in H as (-> & -> & ->). apply SF_same_refl.
Qed.

Lemma SF_same_trans a b c :
  SF_same a b = true → SF_same b c = true → SF_same a c = true.
Proof.
  destruct a as [sa|sa| |sa ma ea], b as [sb|sb| |sb mb eb];
    try done; destruct c as [sc|sc| |sc mc ec]; try done;
    try (by destruct sa, sb, sc);
    try (by destruct sa); try (by destruct sb); try (by destruct sc);
    try (by destruct sa, sb); try (by destruct sb, sc).
  intros H1 H2. apply SF_same_finite in H1 as (-> & -> & ->).
  done.
Qed.

Lemma same_value_zero_refl k : same_value_zero k k = true.
Proof. rewrite same_value_zero_spec. apply SF_same_refl. Qed.

Lemma same_value_zero_other k k' e :
  same_value_zero k' k = false → same_value_zero k e = true →
  same_value_zero k' e = false.
Proof.
  rewrite !same_value_zero_spec. intros Hn He.
  destruct (SF_same (Prim2SF k') (Prim2SF e)) eqn:E; [|done].
  rewrite <- Hn. symmetry.
  eapply SF_same_trans; [exact E|]. by apply SF_same_sym.
Qed.

Lemma amounts_get_set k v m : amounts_get k (amounts_set k v m) = Some v.
Proof.
  induction m as [|[e x] m IH]; simpl.
  - by rewrite same_value_zero_refl.
  - destruct (same_value_zero k e) eqn:E; simpl; by rewrite E.
Qed.

Lemma amounts_get_set_other k k' v m :
  same_value_zero k' k = false →
  amounts_get k' (amounts_set k v m) = amounts_get k' m.
Proof.
  intros Hn. induction m as [|[e x] m IH]; simpl.
  - by rewrite Hn.
  - destruct (same_value_zero k e) eqn:E; simpl.
    + by rewrite (same_value_zero_other _ _ _ Hn E).
    + by rewrite IH.
Qed.

Lemma positive_truthy a : PrimFloat.ltb 0 a = true → JS.truthy a = true.
Proof.
  unfold JS.truthy, PrimFloat.is_nan.
  rewrite FloatAxioms.ltb_spec, !FloatAxioms.eqb_spec, SFeqb_refl.
  change (Prim2SF 0) with (S754_zero false).
  by destruct (Prim2SF a) as [s|[]| |[] m e].
Qed.

(** X23.  [getDepositAmount] answers from memory whenever the amount
    stored for the deposit is a number other than 0 and [NaN], whatever
    the table holds and whether or not it can be reached.  An amount of
    0 (or [NaN]) in memory reads as missing: the answer is then the one
    a process with an empty memory gives, from the table.  Storing the
    amount of one deposit changes the answer for no other. *)
Theorem stored_amount_round_trip depositId amount depositAmounts answer :
  getDepositAmount (storeDepositAmount depositId amount depositAmounts)
                   answer depositId
  = (if JS.truthy amount then amount else getDepositAmount [] answer depositId)
  ∧ ∀ other, same_value_zero other depositId = false →
      getDepositAmount (storeDepositAmount depositId amount depositAmounts)
                       answer other
      = getDepositAmount depositAmounts answer other.
Proof.
  unfold getDepositAmount, storeDepositAmount. split.
  - rewrite amounts_get_set. simpl. by destruct (JS.truthy amount).
  - intros other Hne. by rewrite amounts_get_set_other.
Qed.

(** X24.  Once a positive amount was received for a deposit, an update
    of one of its rates runs the sniper check on that amount: the table
    of amounts is not consulted.  For a deposit whose amount is known
    neither to the memory nor to the table, a rate update does nothing
    at all, while a newly added currency still runs the check, on an
    amount of 0. *)
Theorem rate_update_checks_the_received_amount env depositAmounts answer
    depositId amount currency conversionRate verifier :
  PrimFloat.ltb 0 amount = true →
  handleRateUpdated env
    (storeDepositAmount (JS.Number depositId) amount depositAmounts)
    answer depositId currency conversionRate verifier
  = caught (Sniper.checkSniperOpportunity env depositId amount currency
              conversionRate verifier)
  ∧ (amounts_get (JS.Number depositId) depositAmounts = None →
     answer = AmountError ∨ answer = AmountRow None →
     (∀ w, handleRateUpdated env depositAmounts answer depositId currency
             conversionRate verifier w = ([], w, Async.Returned ()))
     ∧ handleCurrencyAdded env depositAmounts answer depositId currency
         conversionRate verifier
       = caught (Sniper.checkSniperOpportunity env depositId 0 currency
                   conversionRate verifier)).
Proof.
  intros Hpos. split.
  - unfold handleRateUpdated, getDepositAmount, storeDepositAmount.
    rewrite amounts_get_set. by rewrite (positive_truthy _ Hpos), Hpos.
  - intros Hmem Hans. unfold handleRateUpdated, handleCurrencyAdded.
    assert (getDepositAmount depositAmounts answer (JS.Number depositId)
            = 0%float) as ->.
    { unfold getDepositAmount. rewrite Hmem. by destruct Hans as [-> | ->]. }
    done.
Qed.

Lemma rate_update_checks_the_received_amount_witness :
  handleRateUpdated ReconcileFacts.listeners_env
    (storeDepositAmount (JS.Number 12) 5000000 []) AmountError 12
    "0xc4ae21aac0c6549d71dd96035b7e0bdb6c79ebdba8891b666115bc976d16a29e"
    1020000000000000000 "0x76d33a33068d86016b806df02376ddbb23dd3703"
  = caught (Sniper.checkSniperOpportunity ReconcileFacts.listeners_env 12
              5000000
              "0xc4ae21aac0c6549d71dd96035b7e0bdb6c79ebdba8891b666115bc976d16a29e"
              1020000000000000000 "0x76d33a33068d86016b806df02376ddbb23dd3703").
Proof.
  exact (proj1 (rate_update_checks_the_received_amount
                  ReconcileFacts.listeners_env [] AmountError 12 5000000
                  "0xc4ae21aac0c6549d71dd96035b7e0bdb6c79ebdba8891b666115bc976d16a29e"
                  1020000000000000000
                  "0x76d33a33068d86016b806df02376ddbb23dd3703" eq_refl)).
Defined.

End AmountFacts.

Module SignalFacts.
Import Async Pending Reconcile Signals.
Import AsyncFacts ReconcileFacts.

Lemma notify_orchestrator_forgets env depositId st h msg k w :
  orders_quiet env w → interested env depositId ≠ [] →
  ∃ t w', notify_orchestrator env depositId st h msg w = (t, w', Returned ())
          ∧ orchestratorIntentDetails w'
            = delete (JS.toLowerCase h) (orchestratorIntentDetails w)
          ∧ intentDetails w' = delete (JS.toLowerCase h) (intentDetails w)
          ∧ telegram_notices k t = notices_of msg (interested env depositId) k.
Proof.
  intros Hq Hne. unfold notify_orchestrator. fold (interested env depositId).
  rewrite bool_decide_eq_false_2 by done.
  rewrite bind_run.
  destruct (postToDiscord_spec (orders_webhook_configured env)
              DISCORD_ORDERS_WEBHOOK_URL msg w) as (Hp & Hw & Hr).
  rewrite (quiet_next env w Hq) in Hr.
  destruct (postToDiscord _ _ _ w) as [[e w1] r]; simpl in *. subst r w1.
  rewrite bind_run.
  destruct (notify_users_spec env depositId st h msg k
              (interested env depositId)
              (if orders_webhook_configured env
               then set_webhook (tail (webhook w)) w else w))
    as (t & Ht & Hn).
  rewrite Ht. simpl. eexists _, _. split; [done|].
  split_and!; simpl.
  - by destruct (orders_webhook_configured env).
  - by destruct (orders_webhook_configured env).
  - rewrite app_nil_r.
    by rewrite telegram_notices_app, (posts_no_telegram k e Hp), Hn.
Qed.

(** X25.  The details stored when an intent is signaled are found by the
    notification of its fulfilment whatever the case of the hash in the
    two events.  With subscribers of the deposit, each of them gets one
    notice, the details leave both maps, and a repeated fulfilment or a
    later pruning of the same intent sends nothing.  Without subscribers
    nothing is sent and the details stay in the map. *)
Theorem signaled_intent_is_notified_once env h det raw tx w :
  JS.toLowerCase (intentHash raw) = JS.toLowerCase h →
  orders_quiet env w →
  let key := JS.toLowerCase h in
  let w1 := recordOrchestratorSignal h det w in
  (interested env (od_depositId det) = [] →
     sendOrchestratorFulfilledNotification env raw tx w1 = ([], w1, Returned ())
     ∧ orchestratorIntentDetails w1 !! key = Some det)
  ∧ (interested env (od_depositId det) ≠ [] →
     ∃ t w2,
       sendOrchestratorFulfilledNotification env raw tx w1 = (t, w2, Returned ())
       ∧ telegram_notices key t
         = (λ c, (c, fulfilled_notice)) <$> interested env (od_depositId det)
       ∧ orchestratorIntentDetails w2 !! key = None
       ∧ intentDetails w2 !! key = None
       ∧ sendOrchestratorFulfilledNotification env raw tx w2
         = ([], w2, Returned ())
       ∧ sendOrchestratorPrunedNotification env raw tx w2
         = ([], w2, Returned ())).
Proof.
  intros Hh Hq key w1.
  assert (orchestratorIntentDetails w1 !! key = Some det) as Hdet.
  { unfold w1, recordOrchestratorSignal, key. simpl. apply lookup_insert_eq. }
  assert (orders_quiet env w1) as Hq1 by done.
  clearbody w1. subst key.
  split.
  - intros Hnone. split; [|done].
    unfold sendOrchestratorFulfilledNotification. rewrite bind_run. simpl.
    rewrite Hh, Hdet.
    unfold notify_orchestrator. fold (interested env (od_depositId det)).
    by rewrite Hnone.
  - intros Hsome.
    destruct (notify_orchestrator_forgets env (od_depositId det)
                status_fulfilled (intentHash raw)
                (OrderFulfilled (od_depositId det) (intentHash raw))
                (JS.toLowerCase h)
                w1 Hq1 Hsome) as (t & w2 & Hrun & Ho & Hi & Hn).
    exists t, w2.
    assert (orchestratorIntentDetails w2 !! JS.toLowerCase h = None) as Hgone.
    { rewrite Ho, Hh. apply lookup_delete_eq. }
    split_and!.
    + unfold sendOrchestratorFulfilledNotification. rewrite bind_run. simpl.
      rewrite Hh, Hdet. by rewrite Hrun.
    + rewrite Hn. unfold notices_of. simpl.
      by rewrite Hh, bool_decide_eq_true_2.
    + done.
    + rewrite Hi, Hh. apply lookup_delete_eq.
    + unfold sendOrchestratorFulfilledNotification. rewrite bind_run. simpl.
      rewrite Hh. by rewrite Hgone.
    + unfold sendOrchestratorPrunedNotification. rewrite bind_run. simpl.
      rewrite Hh. by rewrite Hgone.
Qed.

Definition signaled : OrchestratorIntentDetails :=
  mkOrchestratorIntentDetails 12 "0xescrow" "0xmethod" "0xfiat" 1020000000000000000.

Lemma signaled_intent_is_notified_once_witness :
  ∃ t w2,
    sendOrchestratorFulfilledNotification listeners_env
      (RawOrchestratorFulfilled "0xab") "0xtx"
      (recordOrchestratorSignal "0xAB" signaled quiet_world)
    = (t, w2, Returned ())
    ∧ telegram_notices "0xab" t
      = [(Tables.ZKP2P_GROUP_ID, fulfilled_notice); (9, fulfilled_notice)]
    ∧ orchestratorIntentDetails w2 !! "0xab" = None.
Proof.
  assert (orders_quiet listeners_env quiet_world) as Hq by (intros _; constructor).
  destruct (proj2 (signaled_intent_is_notified_once listeners_env "0xAB"
                     signaled (RawOrchestratorFulfilled "0xab") "0xtx"
                     quiet_world eq_refl Hq))
    as (t & w2 & H1 & H2 & H3 & _).
  - vm_compute. discriminate.
  - exists t, w2. split_and!; [exact H1|exact H2|exact H3].
Defined.

End SignalFacts.

Module StartupFacts.
Import Db DbWrites StoreFacts Signals.

Lemma listens_all_active s chatId :
  listens_all s chatId
  ↔ ∃ r, r ∈ active_settings s chatId ∧ user_settings.listen_all r = true.
Proof.
  unfold listens_all, active_settings. split.
  - intros (r & Hr & Hc & Hl & Ha). exists r. split; [|done].
    by apply list_elem_of_filter.
  - intros (r & Hr & Hl). apply list_elem_of_filter in Hr as [[Hc Ha] Hr].
    by exists r.
Qed.

Lemma rows_of_chat_upsert chatId change fresh rows :
  (∀ r, user_settings.chat_id (change r) = user_settings.chat_id r) →
  user_settings.chat_id fresh = chatId →
  List.filter (of_chat chatId) (upsert (of_chat chatId) change fresh rows)
  = match List.filter (of_chat chatId) rows with
    | [] => [fresh]
    | l => change <$> l
    end.
Proof.
  intros Hch Hf. unfold upsert. destruct (existsb _ _) eqn:E.
  - rewrite rows_of_chat_updated by done.
    destruct (List.filter (of_chat chatId) rows) eqn:El; [|done].
    exfalso. apply existsb_elem_of in E as (r & Hin & Hr).
    assert (In r (List.filter (of_chat chatId) rows)) as H
      by (apply filter_In; split; [by apply list_elem_of_In|done]).
    by rewrite El in H.
  - destruct (no_row_of_chat chatId _ E) as [H1 _].
    rewrite List.filter_app, H1. simpl.
    assert (of_chat chatId fresh = true) as ->; [|done].
    unfold of_chat. by apply bool_decide_eq_true.
Qed.

Lemma settings_rows_upsert chatId change fresh rows :
  (∀ r, user_settings.chat_id (change r) = user_settings.chat_id r) →
  user_settings.chat_id fresh = chatId →
  (length (List.filter (of_chat chatId) rows) ≤ 1)%nat →
  (length (List.filter (of_chat chatId)
             (upsert (of_chat chatId) change fresh rows)) ≤ 1)%nat.
Proof.
  intros Hch Hf Hu. rewrite rows_of_chat_upsert by done.
  destruct (List.filter (of_chat chatId) rows) as [|r l] eqn:E; [done|].
  by rewrite length_fmap.
Qed.

Lemma unique_chat_setUserListenAll dt s chatId listenAll :
  unique_chat s chatId → unique_chat (setUserListenAll dt s chatId listenAll) chatId.
Proof.
  unfold unique_chat, setUserListenAll. intros Hu.
  destruct (reachable s); [|done]. simpl.
  by apply settings_rows_upsert.
Qed.

(** X26.  On a store that can be reached, with at most one settings row
    per chat: after [setUserListenAll(chatId, true)] the chat is among
    the subscribers of every deposit, and [getUserListenAll] answers
    [true]; after [setUserListenAll(chatId, false)] it is a subscriber of
    exactly the deposits it tracks.  The subscriptions of the other
    chats are untouched either way. *)
Theorem listen_all_round_trip default_threshold s chatId listenAll :
  reachable s = true → unique_chat s chatId →
  let s' := setUserListenAll default_threshold s chatId listenAll in
  getUserListenAll s' chatId = listenAll
  ∧ (∀ depositId,
       chatId ∈ getUsersInterestedInDeposit s' depositId
       ↔ listenAll = true ∨ depositId ∈ getUserDeposits s chatId)
  ∧ (∀ c depositId, c ≠ chatId →
       c ∈ getUsersInterestedInDeposit s' depositId
       ↔ c ∈ getUsersInterestedInDeposit s depositId).
Proof.
  intros Hr Hu s'.
  assert (reachable s' = true) as Hr'.
  { unfold s', setUserListenAll. by rewrite Hr. }
  assert (∃ r, active_settings s' chatId = [r]
               ∧ user_settings.listen_all r = listenAll) as (row & Hrow & Hl).
  { unfold s', setUserListenAll. rewrite Hr.
    rewrite active_settings_upsert; [|done|done|done|done].
    eexists. split; [done|]. by destruct (List.filter _ _). }
  assert (deposits s' = deposits s) as Hd.
  { unfold s', setUserListenAll. by rewrite Hr. }
  assert (∀ d, tracking s' chatId d ↔ tracking s chatId d) as Ht.
  { intros d. unfold tracking. by rewrite Hd. }
  split_and!.
  - unfold getUserListenAll. by rewrite Hr', Hrow.
  - intros d. rewrite elem_of_interested, elem_of_getUserDeposits.
    rewrite listens_all_active, Hrow, Ht. split.
    + intros [_ [(r & Hin & Hrl)|H]]; [|by right].
      apply list_elem_of_singleton in Hin as ->. left. congruence.
    + intros [H|[_ H]]; (split; [done|]); [|by right].
      left. exists row. split; [apply list_elem_of_here|congruence].
  - intros c d Hne. rewrite !elem_of_interested, !listens_all_active.
    assert (active_settings s' c = active_settings s c) as ->.
    { unfold s', setUserListenAll. rewrite Hr.
      by rewrite active_settings_other. }
    unfold tracking. by rewrite Hd, Hr, Hr'.
Qed.

Lemma listen_all_round_trip_witness :
  getUserListenAll (setUserListenAll None ReconcileFacts.listeners 9 true) 9 = true
  ∧ (9 ∈ getUsersInterestedInDeposit
           (setUserListenAll None ReconcileFacts.listeners 9 false) 12).
Proof.
  assert (unique_chat ReconcileFacts.listeners 9) as Hu by (vm_compute; lia).
  split.
  - exact (proj1 (listen_all_round_trip None ReconcileFacts.listeners 9 true
                    eq_refl Hu)).
  - apply (proj1 (proj2 (listen_all_round_trip None ReconcileFacts.listeners 9
                           false eq_refl Hu)) 12).
    right. vm_compute. apply list_elem_of_here.
Defined.

(** X27.  When the writes of [initializeBot] went through, the broadcast
    group is a subscriber of every deposit and its alert threshold is
    0.1, whatever its settings were before: changed by a command,
    cleared, or never written.  The other chats keep their threshold and
    their subscriptions. *)
Theorem startup_subscribes_the_group default_threshold default_listen_all s :
  reachable s = true → unique_chat s Tables.ZKP2P_GROUP_ID →
  let s' := initializeBot_writes default_threshold default_listen_all s in
  (∀ depositId, Tables.ZKP2P_GROUP_ID ∈ getUsersInterestedInDeposit s' depositId)
  ∧ getUserThreshold s' Tables.ZKP2P_GROUP_ID = 0.1%float
  ∧ (∀ c, c ≠ Tables.ZKP2P_GROUP_ID →
       getUserThreshold s' c = getUserThreshold s c
       ∧ ∀ depositId, c ∈ getUsersInterestedInDeposit s' depositId
                      ↔ c ∈ getUsersInterestedInDeposit s depositId).
Proof.
  intros Hr Hu s'. unfold initializeBot_writes in s'.
  set (g := Tables.ZKP2P_GROUP_ID) in *.
  set (s1 := setUserListenAll default_threshold s g true) in *.
  assert (reachable s1 = true) as Hr1.
  { unfold s1, setUserListenAll. by rewrite Hr. }
  assert (unique_chat s1 g) as Hu1 by by apply unique_chat_setUserListenAll.
  assert (reachable s' = true) as Hr'.
  { unfold s', setUserThreshold. by rewrite Hr1. }
  assert (deposits s' = deposits s) as Hd.
  { unfold s', setUserThreshold. rewrite Hr1. simpl.
    unfold s1, setUserListenAll. by rewrite Hr. }
  assert (∃ r, List.filter (of_chat g) (settings s1) = [r]
               ∧ user_settings.listen_all r = true) as (r1 & Hf1 & Hl1).
  { unfold s1, setUserListenAll. rewrite Hr. simpl.
    rewrite rows_of_chat_upsert by done.
    unfold unique_chat in Hu.
    destruct (List.filter (of_chat g) (settings s)) as [|r [|r' l]];
      [by eexists|by eexists|simpl in Hu; lia]. }
  assert (∃ r, active_settings s' g = [r]
               ∧ user_settings.listen_all r = true
               ∧ user_settings.threshold r = Some 0.1%float)
    as (r2 & Ha2 & Hl2 & Ht2).
  { unfold s', setUserThreshold. rewrite Hr1.
    rewrite active_settings_upsert; [|done|done|done|done].
    rewrite Hf1. eexists. split; [done|]. by simpl. }
  split_and!.
  - intros d. apply elem_of_interested. split; [done|]. left.
    apply listens_all_active. exists r2. rewrite Ha2.
    split; [apply list_elem_of_here|done].
  - unfold getUserThreshold. by rewrite Hr', Ha2; simpl; rewrite Ht2.
  - intros c Hne.
    assert (active_settings s' c = active_settings s1 c) as Has.
    { unfold s', setUserThreshold. rewrite Hr1. by rewrite active_settings_other. }
    assert (active_settings s1 c = active_settings s c) as Has1.
    { unfold s1, setUserListenAll. rewrite Hr. by rewrite active_settings_other. }
    split.
    + unfold getUserThreshold. by rewrite Hr', Hr, Has, Has1.
    + intros d. rewrite !elem_of_interested, !listens_all_active.
      unfold tracking. by rewrite Hd, Has, Has1, Hr, Hr'.
Qed.

(** The group cleared its data after raising its threshold. *)
Definition group_cleared : Store :=
  mkStore [user_settings.mk Tables.ZKP2P_GROUP_ID (Some 0.5%float) false false]
          [] [] true.

Lemma startup_subscribes_the_group_witness :
  getUsersInterestedInDeposit group_cleared 12 = []
  ∧ Tables.ZKP2P_GROUP_ID
    ∈ getUsersInterestedInDeposit (initializeBot_writes (Some 0.2%float) false
                                     group_cleared) 12
  ∧ getUserThreshold (initializeBot_writes (Some 0.2%float) false group_cleared)
                     Tables.ZKP2P_GROUP_ID = 0.1%float.
Proof.
  assert (unique_chat group_cleared Tables.ZKP2P_GROUP_ID) as Hu
    by (vm_compute; lia).
  destruct (startup_subscribes_the_group (Some 0.2%float) false group_cleared
              eq_refl Hu) as (H1 & H2 & _).
  split_and!; [reflexivity|exact (H1 12)|exact H2].
Defined.

End StartupFacts.


(** ** The snipers of a chat *)

Module SniperListFacts.
Import Db SniperList.

Lemma map_set_absent {K V : Type} `{EqDecision K} (k : K) (v : V) m :
  JS.map_get k m = None → JS.map_set k v m = m ++ [(k, v)].
Proof.
  induction m as [|[k' v'] m IH]; simpl; [done|].
  destruct (decide (k = k')); [done|]. intros H. by rewrite IH.
Qed.

Lemma map_get_None {K V : Type} `{EqDecision K} (k : K) (m : list (K * V)) :
  JS.map_get k m = None ↔ k ∉ m.*1.
Proof.
  induction m as [|[k' v'] m IH]; simpl.
  - split; [intros _; apply not_elem_of_nil|done].
  - rewrite not_elem_of_cons. destruct (decide (k = k')) as [->|Hne].
    + split; [done|]. by intros [? _].
    + rewrite IH. split; [by intros ?|by intros [_ ?]].
Qed.

Lemma map_get_Some {K V : Type} `{EqDecision K} (k : K) (v : V) m :
  JS.map_get k m = Some v → (k, v) ∈ m.
Proof.
  induction m as [|[k' v'] m IH]; simpl; [done|].
  destruct (decide (k = k')) as [->|Hne].
  - intros [= ->]. apply list_elem_of_here.
  - intros H. apply list_elem_of_further. by apply IH.
Qed.

Lemma newest_first_snoc data r :
  newest_first (data ++ [r]) →
  newest_first data
  ∧ Forall (λ x, user_snipers.created_at r ≤ user_snipers.created_at x) data.
Proof.
  induction data as [|x data IH]; simpl; [done|].
  intros [Hall Hrest]. destruct (IH Hrest) as [H1 H2].
  apply Forall_app in Hall as [Ha Hb]. split_and!; [done|done|].
  constructor; [|done]. by inversion Hb.
Qed.

(** Every row the loop has seen is in the map under its combination,
    and no seen row of the combination is newer than the one kept. *)
Definition kept (data : list user_snipers.row)
    (m : list (string * user_snipers.row)) : Prop :=
  NoDup m.*1
  ∧ (∀ k r, (k, r) ∈ m → combo r = k ∧ r ∈ data)
  ∧ (∀ r, r ∈ data →
       ∃ r', (combo r, r') ∈ m
             ∧ user_snipers.created_at r ≤ user_snipers.created_at r').

Lemma map_get_split {V : Type} (k : string) (v : V) m :
  JS.map_get k m = Some v →
  ∃ m1 m2, m = m1 ++ (k, v) :: m2
           ∧ ∀ v', JS.map_set k v' m = m1 ++ (k, v') :: m2.
Proof.
  induction m as [|[k0 v0] m IH]; simpl; [done|].
  destruct (decide (k = k0)) as [->|Hne].
  - intros [= ->]. by exists [], m.
  - intros H. destruct (IH H) as (m1 & m2 & -> & Hset).
    exists ((k0, v0) :: m1), m2. split; [done|].
    intros v'. by rewrite Hset.
Qed.

Lemma kept_nil : kept [] [].
Proof.
  split_and!; [constructor| |].
  - by intros k r ?%elem_of_nil.
  - by intros r ?%elem_of_nil.
Qed.

Lemma kept_step data m row :
  kept data m → kept (data ++ [row]) (keep_combo m row).
Proof.
  intros (Hnd & Hin & Hall). unfold keep_combo.
  destruct (JS.map_get (combo row) m) as [e|] eqn:Hget.
  - destruct (bool_decide (user_snipers.created_at e < user_snipers.created_at row))
      eqn:Hlt.
    + apply bool_decide_eq_true in Hlt.
      destruct (map_get_split _ _ _ Hget) as (m1 & m2 & -> & Hset).
      rewrite Hset. split_and!.
      * by rewrite fmap_app, fmap_cons in *.
      * intros k r [H|[[= -> ->]|H]%elem_of_cons]%elem_of_app.
        -- destruct (Hin k r) as [? ?];
             [apply elem_of_app; by left|].
           split; [done|]. apply elem_of_app. by left.
        -- split; [done|]. apply elem_of_app. right. apply list_elem_of_here.
        -- destruct (Hin k r) as [? ?];
             [apply elem_of_app; right; by apply list_elem_of_further|].
           split; [done|]. apply elem_of_app. by left.
      * intros r [Hr| ->%list_elem_of_singleton]%elem_of_app.
        -- destruct (Hall r Hr) as (r' & Hr' & Hle).
           apply elem_of_app in Hr' as [H|[[= Hk ->]|H]%elem_of_cons].
           ++ exists r'. split; [|done]. apply elem_of_app. by left.
           ++ exists row. rewrite Hk. split; [|lia].
              apply elem_of_app. right. apply list_elem_of_here.
           ++ exists r'. split; [|done]. apply elem_of_app. right.
              by apply list_elem_of_further.
        -- exists row. split; [|lia].
           apply elem_of_app. right. apply list_elem_of_here.
    + apply bool_decide_eq_false in Hlt. split_and!; [done| |].
      * intros k r H. destruct (Hin k r H) as [? ?]. split; [done|].
        apply elem_of_app. by left.
      * intros r [Hr| ->%list_elem_of_singleton]%elem_of_app; [by apply Hall|].
        exists e. split; [by apply map_get_Some|lia].
  - rewrite (map_set_absent _ _ _ Hget). split_and!.
    + rewrite fmap_app. apply NoDup_app. split_and!; [done| |apply NoDup_singleton].
      intros k Hk ->%list_elem_of_singleton. by apply map_get_None in Hget.
    + intros k r [H| [= -> ->]%list_elem_of_singleton]%elem_of_app.
      * destruct (Hin k r H) as [? ?]. split; [done|]. apply elem_of_app. by left.
      * split; [done|]. apply elem_of_app. right. apply list_elem_of_here.
    + intros r [Hr| ->%list_elem_of_singleton]%elem_of_app.
      * destruct (Hall r Hr) as (r' & Hr' & Hle). exists r'.
        split; [|done]. apply elem_of_app. by left.
      * exists row. split; [|lia]. apply elem_of_app. right.
        apply list_elem_of_here.
Qed.

Lemma kept_foldl data : kept data (foldl keep_combo [] data).
Proof.
  induction data as [|row data IH] using rev_ind; [apply kept_nil|].
  rewrite foldl_app. cbn [foldl]. by apply kept_step.
Qed.

(** On rows that come newest first the loop never overwrites: it keeps
    the first row of each combination, in the order of the answer. *)
Lemma keeps_first data :
  newest_first data → (foldl keep_combo [] data).*2 `sublist_of` data.
Proof.
  induction data as [|row data IH] using rev_ind; [done|].
  intros [Hs Hnew]%newest_first_snoc. rewrite foldl_app. cbn [foldl].
  destruct (kept_foldl data) as (_ & Hin & _).
  specialize (IH Hs). set (m := foldl keep_combo [] data) in *.
  unfold keep_combo.
  destruct (JS.map_get (combo row) m) as [e|] eqn:Hget.
  - rewrite bool_decide_eq_false_2.
    + by apply sublist_inserts_r.
    + apply map_get_Some in Hget. destruct (Hin _ _ Hget) as [_ He].
      rewrite Forall_forall in Hnew. specialize (Hnew e He). lia.
  - rewrite (map_set_absent _ _ _ Hget), fmap_app. simpl.
    by apply sublist_app.
Qed.

(** X28.  [getUserSnipers] lists each combination of currency and
    platform once.  The rows it lists are active rows of the chat from
    the last thirty days, every such row has its combination in the list
    with a row at least as new, and, the query giving the newest row
    first, the list is in the order of the answer: the newest row of
    each combination, newest first. *)
Theorem getUserSnipers_lists_each_combination_once
    s thirtyDaysAgo chatId data :
  reachable s = true → answers s thirtyDaysAgo chatId data →
  let l := getUserSnipers s data in
  NoDup (combo <$> l)
  ∧ l `sublist_of` data
  ∧ (∀ r, r ∈ l →
       r ∈ snipers s ∧ user_snipers.chat_id r = chatId
       ∧ user_snipers.is_active r = true
       ∧ thirtyDaysAgo ≤ user_snipers.created_at r)
  ∧ (∀ r, r ∈ snipers s → own_query thirtyDaysAgo chatId r = true →
       ∃ r', r' ∈ l ∧ combo r' = combo r
             ∧ user_snipers.created_at r ≤ user_snipers.created_at r').
Proof.
  intros Hr [Hperm Hsorted] l. unfold l, getUserSnipers. rewrite Hr.
  destruct (kept_foldl data) as (Hnd & Hin & Hall).
  set (m := foldl keep_combo [] data) in *.
  assert (combo <$> m.*2 = m.*1) as Hkeys.
  { rewrite <- list_fmap_compose. apply list_fmap_ext.
    intros i [k r] Hi. simpl. apply list_elem_of_lookup_2 in Hi.
    by destruct (Hin k r Hi). }
  assert (∀ r, r ∈ data ↔ r ∈ snipers s ∧ own_query thirtyDaysAgo chatId r = true)
    as Hdata.
  { intros r. rewrite Hperm, list_elem_of_In, filter_In, <- list_elem_of_In.
    done. }
  split_and!.
  - by rewrite Hkeys.
  - by apply keeps_first.
  - intros r Hrl. apply list_elem_of_fmap in Hrl as ([k r'] & -> & Hkr).
    destruct (Hin k r' Hkr) as [_ Hd]. apply Hdata in Hd as [Hs Hq].
    unfold own_query in Hq.
    apply andb_true_iff in Hq as [[Hc Ha]%andb_true_iff Ht].
    apply bool_decide_eq_true in Hc, Ht. done.
  - intros r Hs Hq. destruct (Hall r) as (r' & Hr' & Hle); [by apply Hdata|].
    exists r'. split_and!; [|by destruct (Hin _ _ Hr')|done].
    apply list_elem_of_fmap. by exists (combo r, r').
Qed.

(** Chat 7 set a sniper on USD twice and one on EUR for one platform;
    another chat has a sniper too. *)
Definition snipers_of_7 : Store :=
  mkStore []
    [user_snipers.mk 7 "USD" None 100 true;
     user_snipers.mk 8 "USD" None 150 true;
     user_snipers.mk 7 "EUR" (Some "revolut") 200 true;
     user_snipers.mk 7 "USD" None 300 true]
    [] true.

Definition answer_of_7 : list user_snipers.row :=
  [user_snipers.mk 7 "USD" None 300 true;
   user_snipers.mk 7 "EUR" (Some "revolut") 200 true;
   user_snipers.mk 7 "USD" None 100 true].

Lemma getUserSnipers_lists_each_combination_once_witness :
  getUserSnipers snipers_of_7 answer_of_7
  = [user_snipers.mk 7 "USD" None 300 true;
     user_snipers.mk 7 "EUR" (Some "revolut") 200 true]
  ∧ NoDup (combo <$> getUserSnipers snipers_of_7 answer_of_7).
Proof.
  assert (answers snipers_of_7 50 7 answer_of_7) as Ha.
  { split.
    - vm_compute.
      change ([user_snipers.mk 7 "USD" None 300 true;
               user_snipers.mk 7 "EUR" (Some "revolut") 200 true;
               user_snipers.mk 7 "USD" None 100 true]
              ≡ₚ [user_snipers.mk 7 "USD" None 100 true;
                  user_snipers.mk 7 "EUR" (Some "revolut") 200 true;
                  user_snipers.mk 7 "USD" None 300 true]).
      etrans; [apply Permutation_swap|].
      etrans; [apply Permutation_skip, Permutation_swap|].
      etrans; [apply Permutation_swap|]. done.
    - simpl. repeat split; repeat constructor; simpl; lia. }
  split; [reflexivity|].
  exact (proj1 (getUserSnipers_lists_each_combination_once snipers_of_7 50 7
                  answer_of_7 eq_refl Ha)).
Defined.

End SniperListFacts.
